(** * YoloConteo: the bidirectional line-crossing counter

    A shallow embedding of [src/bidirectional_counter.py] (class
    [BidirectionalCounter] and its helpers) and the properties of the
    counting logic: crossing decisions, the re-arming gate, greedy
    centroid matching, eviction, reset and line configuration.

    Conventions of the embedding
    - Python [int] is [Z]; the centroids handed over by the detector are
      integers ([(x1 + x2) // 2] in [detector_yolo.py]).
    - Python [float] (the relative line position) is a binary64
      primitive float; [int(...)], the int-to-float conversion and the
      two-argument [min]/[max] are written out.
    - [self.contadores] (dict str -> dict) is a [gmap string Celda]; only
      lookups, updates and an order-independent sum are applied to it.
    - [self.tracks] (dict int -> TrackInfo) is an association list in
      insertion order, because the matcher iterates over it and the
      first of several equally near tracks wins.
    - [tracks_usados] (a Python set) is a [gset Z].
    - [callback_cruce] is an opaque callable that only reads the
      counter: the model keeps whether one is configured and the log of
      the calls made to it.
    - A method that can raise returns an [option]; [None] is the
      exception.
    - The matcher takes [np.sqrt] of a Python int, which raises from
      [2 ** 64] on.  [_encontrar_track_cercano] and the frame loop built
      on it describe the calls that return; the [_exc] versions have
      the exception, and agree with them on every call that returns
      ([procesar_simple_exc_acuerdo]). *)

From Stdlib Require Import ZArith Lia.
From Stdlib Require Import PrimFloat SpecFloat FloatOps FloatAxioms.
From stdpp Require Import gmap strings list fin_maps.

Local Open Scope Z_scope.
Set Warnings "-inexact-float".

(** ** Python floats *)

Module PyFloat.

(** [float(z)] for a Python int: the nearest binary64 value, ties to
  even; [None] stands for [OverflowError]. *)
Definition of_int (z : Z) : option float :=
  match binary_normalize prec emax z 0 false with
  | S754_infinity _ => None
  | sf => Some (SF2Prim sf)
  end.

(** [int(f)]: truncation towards zero; [None] stands for the
  [ValueError] on NaN and the [OverflowError] on an infinity. *)
Definition to_int (f : float) : option Z :=
  match Prim2SF f with
  | S754_zero _ => Some 0
  | S754_finite s m e =>
    let a := match e with
             | Zneg p => Z.shiftr (Zpos m) (Zpos p)
             | _ => Z.shiftl (Zpos m) e
             end in
    Some (if s then - a else a)
  | S754_infinity _ => None
  | S754_nan => None
  end.

(** Python's two-argument [min(a, b)] and [max(a, b)]: the first
  argument is kept unless the second compares strictly better. *)
Definition py_min (a b : float) : float := if PrimFloat.ltb b a then b else a.
Definition py_max (a b : float) : float := if PrimFloat.ltb a b then b else a.

(** [n * f] with [n] an int and [f] a float. *)
Definition int_mul (n : Z) (f : float) : option float :=
  match of_int n with
  | Some nf => Some (PrimFloat.mul nf f)
  | None => None
  end.

End PyFloat.

(** ** Python dictionaries keyed by int, in insertion order *)

Section Dict.
Context {V : Type}.

(** [d.get(k)] / [k in d] / [d[k]]. *)
Fixpoint dict_get (k : Z) (d : list (Z * V)) : option V :=
  match d with
  | [] => None
  | (k', v) :: d' => if decide (k = k') then Some v else dict_get k d'
  end.

(** [d[k] = v]: an existing key keeps its place, a new key goes last. *)
Fixpoint dict_set (k : Z) (v : V) (d : list (Z * V)) : list (Z * V) :=
  match d with
  | [] => [(k, v)]
  | (k', v') :: d' =>
      if decide (k = k') then (k, v) :: d' else (k', v') :: dict_set k v d'
  end.

(** In-place mutation of the object stored under [k] (no-op when [k]
    is absent). *)
Fixpoint dict_alter (f : V -> V) (k : Z) (d : list (Z * V)) : list (Z * V) :=
  match d with
  | [] => []
  | (k', v') :: d' =>
      if decide (k = k') then (k', f v') :: d' else (k', v') :: dict_alter f k d'
  end.

(** [del d[k]]. *)
Fixpoint dict_del (k : Z) (d : list (Z * V)) : list (Z * V) :=
  match d with
  | [] => []
  | (k', v') :: d' =>
      if decide (k = k') then dict_del k d' else (k', v') :: dict_del k d'
  end.

End Dict.

(** ** Data model *)

Inductive Direccion : Type :=
  | IZQUIERDA_A_DERECHA
  | DERECHA_A_IZQUIERDA
  | NINGUNA.

#[global] Instance Direccion_eq_dec : EqDecision Direccion.
Proof. solve_decision. Defined.

Record TrackInfo : Type := mkTrackInfo {
  track_id : Z;
  categoria : string;
  ultima_posicion_x : Z;
  posicion_inicial_x : Z;
  cruzado : bool;
  direccion_cruce : option Direccion;
  frames_vistos : Z;
  historial_posiciones : list (Z * Z);
  ultimo_lado : string;
  puede_cruzar : bool
}.

(** [TrackInfo(track_id=.., categoria=.., ultima_posicion_x=cx,
    posicion_inicial_x=cx, historial_posiciones=[(cx, cy)])] with the
    dataclass defaults for the other fields. *)
Definition nuevo_track (tid : Z) (cat : string) (cx cy : Z) : TrackInfo :=
  {| track_id := tid;
     categoria := cat;
     ultima_posicion_x := cx;
     posicion_inicial_x := cx;
     cruzado := false;
     direccion_cruce := None;
     frames_vistos := 1;
     historial_posiciones := [(cx, cy)];
     ultimo_lado := "ninguno";
     puede_cruzar := true |}.

(** One entry of [contadores]: [{'izq_der': n, 'der_izq': m}]. *)
Record Celda : Type := mkCelda {
  izq_der : Z;
  der_izq : Z
}.

(** A detection dictionary as built by the detector; [det_track_id] is
    the key ['track_id'], absent on input. *)
Record Deteccion : Type := mkDeteccion {
  bbox : Z * Z * Z * Z;
  det_categoria : string;
  confianza : float;
  clase_original : option string;
  centro : Z * Z;
  det_track_id : option Z;
  ancho : Z;
  alto : Z
}.

(** What the counter reads from a track object of the external DeepSort
    tracker: [is_confirmed()], [track_id], [map(int, to_ltrb())] and
    [get_det_class()] ([None] when the object has no such method). *)
Record DSTrack : Type := mkDSTrack {
  is_confirmed : bool;
  ds_track_id : Z;
  to_ltrb : Z * Z * Z * Z;
  get_det_class : option string
}.

(** The attributes of a [BidirectionalCounter] object.  [callback_cruce]
    tells whether a callback is configured; [llamadas_callback] is the
    log of the calls made to it, oldest first. *)
Record BidirectionalCounter : Type := mkCounter {
  ancho_frame : Z;
  alto_frame : Z;
  margen_cruce : Z;
  callback_cruce : bool;
  linea_posicion_relativa : float;
  linea_x : Z;
  categorias : list string;
  contadores : gmap string Celda;
  tracks : list (Z * TrackInfo);
  siguiente_track_id : Z;
  usar_deepsort : bool;
  llamadas_callback : list (string * Direccion * Z)
}.

Definition con_tracks (st : BidirectionalCounter) (ts : list (Z * TrackInfo))
  : BidirectionalCounter :=
  {| ancho_frame := ancho_frame st;
     alto_frame := alto_frame st;
     margen_cruce := margen_cruce st;
     callback_cruce := callback_cruce st;
     linea_posicion_relativa := linea_posicion_relativa st;
     linea_x := linea_x st;
     categorias := categorias st;
     contadores := contadores st;
     tracks := ts;
     siguiente_track_id := siguiente_track_id st;
     usar_deepsort := usar_deepsort st;
     llamadas_callback := llamadas_callback st |}.

Definition categorias_por_defecto : list string :=
  ["adulto"; "nino"; "bicicleta"; "silla_ruedas"; "movilidad_reducida"].

Definition celda_cero : Celda := {| izq_der := 0; der_izq := 0 |}.

(** [_inicializar_contadores]: one zeroed cell per configured category. *)
Definition _inicializar_contadores (cats : list string) : gmap string Celda :=
  foldl (fun m c => <[c := celda_cero]> m) ∅ cats.

(** [int(ancho_frame * linea_posicion_relativa)]. *)
Definition linea_en_pixeles (ancho : Z) (rel : float) : option Z :=
  match PyFloat.int_mul ancho rel with
  | Some f => PyFloat.to_int f
  | None => None
  end.

(** [__init__].  [categorias = None] and the empty list both select the
    default categories ([categorias or [...]]).  [deepsort_operativo]
    stands for [DEEPSORT_DISPONIBLE] and the success of the [DeepSort]
    constructor in [_inicializar_tracker].  [None]: the constructor
    raises. *)
Definition __init__ (ancho alto : Z) (rel : float) (margen : Z)
    (cats : option (list string)) (usar_ds : bool) (callback : bool)
    (deepsort_operativo : bool) : option BidirectionalCounter :=
  match linea_en_pixeles ancho rel with
  | None => None
  | Some lx =>
      let cats' := match cats with
                   | None | Some [] => categorias_por_defecto
                   | Some l => l
                   end in
      Some {| ancho_frame := ancho;
              alto_frame := alto;
              margen_cruce := margen;
              callback_cruce := callback;
              linea_posicion_relativa := rel;
              linea_x := lx;
              categorias := cats';
              contadores := _inicializar_contadores cats';
              tracks := [];
              siguiente_track_id := 1;
              usar_deepsort := usar_ds && deepsort_operativo;
              llamadas_callback := [] |}
  end.

(** ** Line configuration *)

(** [actualizar_posicion_linea]: the relative position is clamped with
    [max(0.1, min(0.9, posicion_relativa))], then the pixel position is
    re-derived. *)
Definition actualizar_posicion_linea (st : BidirectionalCounter)
    (posicion_relativa : float) : option BidirectionalCounter :=
  let rel := PyFloat.py_max 0.1 (PyFloat.py_min 0.9 posicion_relativa) in
  match linea_en_pixeles (ancho_frame st) rel with
  | None => None
  | Some lx =>
      Some {| ancho_frame := ancho_frame st;
              alto_frame := alto_frame st;
              margen_cruce := margen_cruce st;
              callback_cruce := callback_cruce st;
              linea_posicion_relativa := rel;
              linea_x := lx;
              categorias := categorias st;
              contadores := contadores st;
              tracks := tracks st;
              siguiente_track_id := siguiente_track_id st;
              usar_deepsort := usar_deepsort st;
              llamadas_callback := llamadas_callback st |}
  end.

(** [actualizar_dimensiones]: stores the new size and re-derives the
    pixel position from the stored relative position. *)
Definition actualizar_dimensiones (st : BidirectionalCounter)
    (ancho alto : Z) : option BidirectionalCounter :=
  match linea_en_pixeles ancho (linea_posicion_relativa st) with
  | None => None
  | Some lx =>
      Some {| ancho_frame := ancho;
              alto_frame := alto;
              margen_cruce := margen_cruce st;
              callback_cruce := callback_cruce st;
              linea_posicion_relativa := linea_posicion_relativa st;
              linea_x := lx;
              categorias := categorias st;
              contadores := contadores st;
              tracks := tracks st;
              siguiente_track_id := siguiente_track_id st;
              usar_deepsort := usar_deepsort st;
              llamadas_callback := llamadas_callback st |}
  end.

(** ** Track bookkeeping *)

(** The mutation of [_actualizar_track] on an existing track object:
    new last x, one more frame seen, the sample appended, and the
    history cut to its last 50 entries. *)
Definition avanzar_track (cx cy : Z) (t : TrackInfo) : TrackInfo :=
  let h := historial_posiciones t ++ [(cx, cy)] in
  {| track_id := track_id t;
     categoria := categoria t;
     ultima_posicion_x := cx;
     posicion_inicial_x := posicion_inicial_x t;
     cruzado := cruzado t;
     direccion_cruce := direccion_cruce t;
     frames_vistos := frames_vistos t + 1;
     historial_posiciones :=
       if (50 <? length h)%nat then drop (length h - 50)%nat h else h;
     ultimo_lado := ultimo_lado t;
     puede_cruzar := puede_cruzar t |}.

(** [_actualizar_track]: creates the track when the id is unknown,
    otherwise advances the stored object.  The [categoria] argument is
    only used on creation. *)
Definition _actualizar_track (st : BidirectionalCounter) (tid : Z)
    (cat : string) (cx cy : Z) : BidirectionalCounter :=
  match dict_get tid (tracks st) with
  | None => con_tracks st (dict_set tid (nuevo_track tid cat cx cy) (tracks st))
  | Some _ => con_tracks st (dict_alter (avanzar_track cx cy) tid (tracks st))
  end.

(** [track.cruzado = True; track.direccion_cruce = direccion]. *)
Definition marcar_cruzado (d : Direccion) (t : TrackInfo) : TrackInfo :=
  {| track_id := track_id t;
     categoria := categoria t;
     ultima_posicion_x := ultima_posicion_x t;
     posicion_inicial_x := posicion_inicial_x t;
     cruzado := true;
     direccion_cruce := Some d;
     frames_vistos := frames_vistos t;
     historial_posiciones := historial_posiciones t;
     ultimo_lado := ultimo_lado t;
     puede_cruzar := puede_cruzar t |}.

(** [self.contadores[categoria]['izq_der'] += 1] for a left-to-right
    crossing, [... ['der_izq'] += 1] for any other direction value. *)
Definition incrementar (d : Direccion) (c : Celda) : Celda :=
  match d with
  | IZQUIERDA_A_DERECHA => {| izq_der := izq_der c + 1; der_izq := der_izq c |}
  | _ => {| izq_der := izq_der c; der_izq := der_izq c + 1 |}
  end.

(** [_registrar_cruce]. *)
Definition _registrar_cruce (st : BidirectionalCounter) (tid : Z)
    (direccion : Direccion) : BidirectionalCounter :=
  match dict_get tid (tracks st) with
  | None => st
  | Some track =>
      let ts := dict_alter (marcar_cruzado direccion) tid (tracks st) in
      let cat := categoria track in
      match contadores st !! cat with
      | None => con_tracks st ts
      | Some c =>
          {| ancho_frame := ancho_frame st;
             alto_frame := alto_frame st;
             margen_cruce := margen_cruce st;
             callback_cruce := callback_cruce st;
             linea_posicion_relativa := linea_posicion_relativa st;
             linea_x := linea_x st;
             categorias := categorias st;
             contadores := <[cat := incrementar direccion c]> (contadores st);
             tracks := ts;
             siguiente_track_id := siguiente_track_id st;
             usar_deepsort := usar_deepsort st;
             llamadas_callback :=
               if callback_cruce st
               then llamadas_callback st ++ [(cat, direccion, tid)]
               else llamadas_callback st |}
      end
  end.

(** [track.puede_cruzar = b]. *)
Definition con_puede_cruzar (b : bool) (t : TrackInfo) : TrackInfo :=
  {| track_id := track_id t;
     categoria := categoria t;
     ultima_posicion_x := ultima_posicion_x t;
     posicion_inicial_x := posicion_inicial_x t;
     cruzado := cruzado t;
     direccion_cruce := direccion_cruce t;
     frames_vistos := frames_vistos t;
     historial_posiciones := historial_posiciones t;
     ultimo_lado := ultimo_lado t;
     puede_cruzar := b |}.

(** [track.puede_cruzar = False; track.ultimo_lado = lado]. *)
Definition desarmar (lado : string) (t : TrackInfo) : TrackInfo :=
  {| track_id := track_id t;
     categoria := categoria t;
     ultima_posicion_x := ultima_posicion_x t;
     posicion_inicial_x := posicion_inicial_x t;
     cruzado := cruzado t;
     direccion_cruce := direccion_cruce t;
     frames_vistos := frames_vistos t;
     historial_posiciones := historial_posiciones t;
     ultimo_lado := lado;
     puede_cruzar := false |}.

(** [(historial[-2][0], historial[-1][0])], or [None] when
    [len(historial) < 2]. *)
Definition dos_ultimas_x (h : list (Z * Z)) : option (Z * Z) :=
  match reverse h with
  | (pos_actual_x, _) :: (pos_anterior_x, _) :: _ =>
      Some (pos_anterior_x, pos_actual_x)
  | _ => None
  end.

(** [_verificar_cruce]. *)
Definition _verificar_cruce (st : BidirectionalCounter) (tid : Z)
  : BidirectionalCounter :=
  match dict_get tid (tracks st) with
  | None => st
  | Some track =>
      match dos_ultimas_x (historial_posiciones track) with
      | None => st
      | Some (pos_anterior_x, pos_actual_x) =>
          let linea := linea_x st in
          if (pos_anterior_x <? linea) && (linea <=? pos_actual_x) then
            if puede_cruzar track then
              let st1 := _registrar_cruce st tid IZQUIERDA_A_DERECHA in
              con_tracks st1 (dict_alter (desarmar "derecha") tid (tracks st1))
            else st
          else if (linea <? pos_anterior_x) && (pos_actual_x <=? linea) then
            if puede_cruzar track then
              let st1 := _registrar_cruce st tid DERECHA_A_IZQUIERDA in
              con_tracks st1 (dict_alter (desarmar "izquierda") tid (tracks st1))
            else st
          else
            let distancia_a_linea := Z.abs (pos_actual_x - linea) in
            if margen_cruce st <? distancia_a_linea then
              con_tracks st (dict_alter (con_puede_cruzar true) tid (tracks st))
            else st
      end
  end.

(** ** The built-in matcher *)

(** [umbral_distancia = 100] pixels. *)
Definition umbral_distancia : Z := 100.

(** Square of the Euclidean distance between two integer points.  The
    source compares [np.sqrt] of this integer; on integers the
    correctly rounded square root is monotone, exact at 100 * 100 and
    one-to-one below it, so [d < d'] and [d < 100] on the roots are
    [<] on the squares and [< 100 * 100].  [np.sqrt] raises on an
    integer of [2 ** 64] or more: the definitions of this part describe
    the calls that return, and [_encontrar_track_cercano_exc] below has
    the exception. *)
Definition distancia2 (cx cy ux uy : Z) : Z :=
  (cx - ux) ^ 2 + (cy - uy) ^ 2.

(** [distancia < distancia_minima], with [None] for [float('inf')]. *)
Definition menor_que (d2 : Z) (minimo : option Z) : bool :=
  match minimo with
  | None => true
  | Some m2 => d2 <? m2
  end.

(** One iteration of the loop of [_encontrar_track_cercano]; the
    accumulator is [(distancia_minima, track_encontrado)]. *)
Definition paso_busqueda (cx cy : Z) (cat : string) (tracks_usados : gset Z)
    (acc : option Z * option Z) (e : Z * TrackInfo) : option Z * option Z :=
  let '(tid, info) := e in
  if decide (tid ∈ tracks_usados) then acc
  else if negb (bool_decide (categoria info = cat)) then acc
  else match last (historial_posiciones info) with
       | None => acc
       | Some (ultimo_x, ultimo_y) =>
           let d2 := distancia2 cx cy ultimo_x ultimo_y in
           if menor_que d2 (fst acc) && (d2 <? umbral_distancia ^ 2)
           then (Some d2, Some tid)
           else acc
       end.

(** [_encontrar_track_cercano]. *)
Definition _encontrar_track_cercano (st : BidirectionalCounter) (cx cy : Z)
    (cat : string) (tracks_usados : gset Z) : option Z :=
  snd (foldl (paso_busqueda cx cy cat tracks_usados) (None, None) (tracks st)).

(** ** Eviction and the built-in tracker's frame loop *)

(** [_limpiar_tracks_antiguos]: the ids of the tracks that are not
    active and have crossed are collected, then deleted one by one. *)
Definition tracks_a_eliminar (ts : list (Z * TrackInfo))
    (tracks_activos : gset Z) : list Z :=
  fst <$> filter (fun e => (fst e ∉ tracks_activos) ∧ cruzado (snd e) = true) ts.

Definition _limpiar_tracks_antiguos (st : BidirectionalCounter)
    (tracks_activos : gset Z) : BidirectionalCounter :=
  con_tracks st
    (foldl (fun d tid => dict_del tid d) (tracks st)
           (tracks_a_eliminar (tracks st) tracks_activos)).

(** [det.copy()] with ['track_id'] set. *)
Definition con_track_id (det : Deteccion) (tid : Z) : Deteccion :=
  {| bbox := bbox det;
     det_categoria := det_categoria det;
     confianza := confianza det;
     clase_original := clase_original det;
     centro := centro det;
     det_track_id := Some tid;
     ancho := ancho det;
     alto := alto det |}.

(** The creation branch of [_procesar_con_tracker_simple]: the next id
    is consumed and the new track stored under it. *)
Definition crear_track (st : BidirectionalCounter) (cat : string)
    (cx cy : Z) : BidirectionalCounter :=
  let tid := siguiente_track_id st in
  {| ancho_frame := ancho_frame st;
     alto_frame := alto_frame st;
     margen_cruce := margen_cruce st;
     callback_cruce := callback_cruce st;
     linea_posicion_relativa := linea_posicion_relativa st;
     linea_x := linea_x st;
     categorias := categorias st;
     contadores := contadores st;
     tracks := dict_set tid (nuevo_track tid cat cx cy) (tracks st);
     siguiente_track_id := tid + 1;
     usar_deepsort := usar_deepsort st;
     llamadas_callback := llamadas_callback st |}.

(** The track a detection is attached to, and the state once the track
    is created or advanced. *)
Definition asociar (st : BidirectionalCounter) (tracks_usados : gset Z)
    (det : Deteccion) : BidirectionalCounter * Z :=
  let '(cx, cy) := centro det in
  let cat := det_categoria det in
  match _encontrar_track_cercano st cx cy cat tracks_usados with
  | None => (crear_track st cat cx cy, siguiente_track_id st)
  | Some tid => (_actualizar_track st tid cat cx cy, tid)
  end.

(** The body of the loop of [_procesar_con_tracker_simple]; the
    accumulator is the object state, [tracks_usados] and
    [detecciones_con_id]. *)
Definition paso_tracker_simple
    (acc : BidirectionalCounter * gset Z * list Deteccion) (det : Deteccion)
  : BidirectionalCounter * gset Z * list Deteccion :=
  let '(st, tracks_usados, detecciones_con_id) := acc in
  let '(st1, tid) := asociar st tracks_usados det in
  (_verificar_cruce st1 tid,
   {[tid]} ∪ tracks_usados,
   detecciones_con_id ++ [con_track_id det tid]).

(** [_procesar_con_tracker_simple]. *)
Definition _procesar_con_tracker_simple (st : BidirectionalCounter)
    (detecciones : list Deteccion) : BidirectionalCounter * list Deteccion :=
  let '(st', tracks_usados, detecciones_con_id) :=
    foldl paso_tracker_simple (st, ∅, []) detecciones in
  (_limpiar_tracks_antiguos st' tracks_usados, detecciones_con_id).

(** ** The DeepSort path and the entry point *)

Section Procesar.

(** The frame (an image array, opaque here) and the answer of the
    external tracker, [self.tracker.update_tracks(dets, frame=frame)],
    whose argument is the list of [([x1, y1, w, h], confianza,
    categoria)] triples. *)
Variable Frame : Type.
Variable update_tracks :
  list ((Z * Z * Z * Z) * float * string) -> Frame -> list DSTrack.

Definition a_deepsort (det : Deteccion) : (Z * Z * Z * Z) * float * string :=
  let '(x1, y1, x2, y2) := bbox det in
  ((x1, y1, x2 - x1, y2 - y1), confianza det, det_categoria det).

(** The body of the loop over the tracks returned by DeepSort. *)
Definition paso_deepsort (acc : BidirectionalCounter * list Deteccion)
    (track : DSTrack) : BidirectionalCounter * list Deteccion :=
  let '(st, detecciones_con_id) := acc in
  if negb (is_confirmed track) then acc
  else
    let tid := ds_track_id track in
    let '(x1, y1, x2, y2) := to_ltrb track in
    let cx := (x1 + x2) `div` 2 in
    let cy := (y1 + y2) `div` 2 in
    let cat := default "adulto" (get_det_class track) in
    let st1 := _actualizar_track st tid cat cx cy in
    let st2 := _verificar_cruce st1 tid in
    (st2,
     detecciones_con_id ++
       [{| bbox := (x1, y1, x2, y2);
           det_categoria := cat;
           confianza := 0%float;
           clase_original := None;
           centro := (cx, cy);
           det_track_id := Some tid;
           ancho := x2 - x1;
           alto := y2 - y1 |}]).

(** [_procesar_con_deepsort]. *)
Definition _procesar_con_deepsort (st : BidirectionalCounter)
    (detecciones : list Deteccion) (frame : Frame)
  : BidirectionalCounter * list Deteccion :=
  foldl paso_deepsort (st, [])
        (update_tracks (a_deepsort <$> detecciones) frame).

(** [procesar_detecciones]; [frame = None] is Python's [None]. *)
Definition procesar_detecciones (st : BidirectionalCounter)
    (detecciones : list Deteccion) (frame : option Frame)
  : BidirectionalCounter * list Deteccion :=
  match detecciones with
  | [] => (st, [])
  | _ =>
      match usar_deepsort st, frame with
      | true, Some f => _procesar_con_deepsort st detecciones f
      | _, _ => _procesar_con_tracker_simple st detecciones
      end
  end.

End Procesar.

(** ** Reading and resetting the counters *)

Record Totales : Type := mkTotales {
  total_izq_der : Z;
  total_der_izq : Z;
  total : Z
}.

(** [sum(c[k] for c in self.contadores.values())]. *)
Definition suma (f : Celda -> Z) (m : gmap string Celda) : Z :=
  map_fold (fun _ c acc => f c + acc) 0 m.

(** [obtener_total_cruces]. *)
Definition obtener_total_cruces (st : BidirectionalCounter) : Totales :=
  let total_izq_der := suma izq_der (contadores st) in
  let total_der_izq := suma der_izq (contadores st) in
  {| total_izq_der := total_izq_der;
     total_der_izq := total_der_izq;
     total := total_izq_der + total_der_izq |}.

(** [obtener_contador_categoria]. *)
Definition obtener_contador_categoria (st : BidirectionalCounter)
    (cat : string) : Celda :=
  default celda_cero (contadores st !! cat).

(** [reiniciar_contadores]. *)
Definition reiniciar_contadores (st : BidirectionalCounter)
  : BidirectionalCounter :=
  {| ancho_frame := ancho_frame st;
     alto_frame := alto_frame st;
     margen_cruce := margen_cruce st;
     callback_cruce := callback_cruce st;
     linea_posicion_relativa := linea_posicion_relativa st;
     linea_x := linea_x st;
     categorias := categorias st;
     contadores := _inicializar_contadores (categorias st);
     tracks := [];
     siguiente_track_id := 1;
     usar_deepsort := usar_deepsort st;
     llamadas_callback := llamadas_callback st |}.

(** ** Vocabulary of the statements *)

(** The counter of a cell for one of the two crossing directions. *)
Definition lee (d : Direccion) (c : Celda) : Z :=
  match d with
  | IZQUIERDA_A_DERECHA => izq_der c
  | _ => der_izq c
  end.

(** The observable outcome "a crossing of direction [d] was registered
    for track [tid] and the track was disarmed on side [lado]". *)
Definition registrado (st : BidirectionalCounter) (tid : Z) (d : Direccion)
    (lado : string) (st' : BidirectionalCounter) : Prop :=
  contadores st' = contadores (_registrar_cruce st tid d)
  ∧ llamadas_callback st' = llamadas_callback (_registrar_cruce st tid d)
  ∧ ∃ t', dict_get tid (tracks st') = Some t'
          ∧ cruzado t' = true ∧ direccion_cruce t' = Some d
          ∧ puede_cruzar t' = false ∧ ultimo_lado t' = lado.

(** The observable outcome "nothing was registered for track [tid]". *)
Definition sin_registro (st : BidirectionalCounter) (tid : Z) (t : TrackInfo)
    (st' : BidirectionalCounter) : Prop :=
  contadores st' = contadores st
  ∧ llamadas_callback st' = llamadas_callback st
  ∧ ∃ t', dict_get tid (tracks st') = Some t'
          ∧ cruzado t' = cruzado t ∧ direccion_cruce t' = direccion_cruce t
          ∧ ultimo_lado t' = ultimo_lado t.

(** The state-changing methods of [BidirectionalCounter], with the two
    branches of the built-in tracker's loop body as operations of their
    own.  Frame processing is a sequence of these (see
    [procesar_simple_es_secuencia]). *)
Inductive Operacion : Type :=
  | OpActualizarPosicionLinea (posicion_relativa : float)
  | OpActualizarDimensiones (ancho alto : Z)
  | OpCrearTrack (cat : string) (cx cy : Z)
  | OpActualizarTrack (tid : Z) (cat : string) (cx cy : Z)
  | OpVerificarCruce (tid : Z)
  | OpRegistrarCruce (tid : Z) (d : Direccion)
  | OpLimpiarTracks (tracks_activos : gset Z)
  | OpReiniciarContadores.

Definition ejecutar (op : Operacion) (st : BidirectionalCounter)
  : option BidirectionalCounter :=
  match op with
  | OpActualizarPosicionLinea p => actualizar_posicion_linea st p
  | OpActualizarDimensiones w h => actualizar_dimensiones st w h
  | OpCrearTrack cat cx cy => Some (crear_track st cat cx cy)
  | OpActualizarTrack tid cat cx cy => Some (_actualizar_track st tid cat cx cy)
  | OpVerificarCruce tid => Some (_verificar_cruce st tid)
  | OpRegistrarCruce tid d => Some (_registrar_cruce st tid d)
  | OpLimpiarTracks activos => Some (_limpiar_tracks_antiguos st activos)
  | OpReiniciarContadores => Some (reiniciar_contadores st)
  end.

Fixpoint ejecutar_todas (ops : list Operacion) (st : BidirectionalCounter)
  : option BidirectionalCounter :=
  match ops with
  | [] => Some st
  | op :: ops' =>
      match ejecutar op st with
      | Some st1 => ejecutar_todas ops' st1
      | None => None
      end
  end.

(** The track object left under [tid] by a crossing check of [tid]. *)
Definition track_verificado (st : BidirectionalCounter) (t : TrackInfo)
  : TrackInfo :=
  match dos_ultimas_x (historial_posiciones t) with
  | None => t
  | Some (prev, cur) =>
      if (prev <? linea_x st) && (linea_x st <=? cur) then
        if puede_cruzar t
        then desarmar "derecha" (marcar_cruzado IZQUIERDA_A_DERECHA t) else t
      else if (linea_x st <? prev) && (cur <=? linea_x st) then
        if puede_cruzar t
        then desarmar "izquierda" (marcar_cruzado DERECHA_A_IZQUIERDA t) else t
      else if margen_cruce st <? Z.abs (cur - linea_x st)
           then con_puede_cruzar true t else t
  end.

(** The samples of one track handled in order: each one is stored with
    [_actualizar_track] and followed by [_verificar_cruce], as both
    tracking paths do for the track a sample is attached to. *)
Definition seguir (tid : Z) (cat : string) (st : BidirectionalCounter)
    (muestras : list (Z * Z)) : BidirectionalCounter :=
  foldl (fun s m => _verificar_cruce (_actualizar_track s tid cat (fst m) (snd m)) tid)
        st muestras.

(** [x :: xs] never decreases. *)
Fixpoint monotona (x : Z) (xs : list Z) : Prop :=
  match xs with
  | [] => True
  | y :: ys => x <= y ∧ monotona y ys
  end.

(** [e] is a track the detection may be attached to: not yet claimed in
    this frame, of the detection's category, with last recorded centroid
    [(ux, uy)]. *)
Definition candidato (cat : string) (tracks_usados : gset Z)
    (e : Z * TrackInfo) (ux uy : Z) : Prop :=
  (fst e ∉ tracks_usados)
  ∧ categoria (snd e) = cat
  ∧ last (historial_posiciones (snd e)) = Some (ux, uy).

(** What the search loop knows after the entries [l]. *)
Definition busqueda_inv (cx cy : Z) (cat : string) (usados : gset Z)
    (l : list (Z * TrackInfo)) (acc : option Z * option Z) : Prop :=
  match acc with
  | (None, None) =>
      ∀ e ux uy, e ∈ l → candidato cat usados e ux uy →
                 umbral_distancia ^ 2 <= distancia2 cx cy ux uy
  | (Some d, Some tid) =>
      d < umbral_distancia ^ 2
      ∧ (∃ info ux uy, (tid, info) ∈ l
                       ∧ candidato cat usados (tid, info) ux uy
                       ∧ distancia2 cx cy ux uy = d)
      ∧ (∀ e ux uy, e ∈ l → candidato cat usados e ux uy →
                    d <= distancia2 cx cy ux uy)
  | _ => False
  end.

(** Every id in the track map is below the next id to assign: the
    invariant of an object driven by the built-in tracker. *)
Definition ids_menores (st : BidirectionalCounter) : Prop :=
  ∀ tid info, (tid, info) ∈ tracks st → tid < siguiente_track_id st.

(** The list is a dictionary: no key occurs twice. *)
Definition diccionario {V : Type} (d : list (Z * V)) : Prop :=
  NoDup (fst <$> d).

(** What holds of the accumulator of the built-in tracker's loop,
    started on [st0] with no track used and no output. *)
Definition bucle_inv (st0 : BidirectionalCounter)
    (acc : BidirectionalCounter * gset Z * list Deteccion) : Prop :=
  let '(st, usados, out) := acc in
  (∀ tid, tid ∈ usados ↔ Some tid ∈ det_track_id <$> out)
  ∧ (∀ tid, tid ∉ usados →
       dict_get tid (tracks st) = dict_get tid (tracks st0))
  ∧ (∀ tid, tid ∈ usados → is_Some (dict_get tid (tracks st)))
  ∧ (diccionario (tracks st0) → diccionario (tracks st))
  ∧ (ids_menores st0 → ids_menores st)
  ∧ siguiente_track_id st0 <= siguiente_track_id st.

(** ** Concrete objects *)

(** A counter as built by [BidirectionalCounter(ancho_frame=300,
    alto_frame=480, linea_posicion_relativa=0.5, margen_cruce=30,
    usar_deepsort=False, callback_cruce=f)]: line at pixel 150. *)
Definition estado_ej : BidirectionalCounter :=
  {| ancho_frame := 300;
     alto_frame := 480;
     margen_cruce := 30;
     callback_cruce := true;
     linea_posicion_relativa := 0.5;
     linea_x := 150;
     categorias := categorias_por_defecto;
     contadores := _inicializar_contadores categorias_por_defecto;
     tracks := [];
     siguiente_track_id := 1;
     usar_deepsort := false;
     llamadas_callback := [] |}.

(** An armed adult seen at x = 100 and then at x = 200. *)
Definition track_izq_der : TrackInfo :=
  avanzar_track 200 50 (nuevo_track 1 "adulto" 100 50).

(** An armed adult seen at x = 200 and then at x = 100. *)
Definition track_der_izq : TrackInfo :=
  avanzar_track 100 50 (nuevo_track 1 "adulto" 200 50).

(** The counter after a first frame with one adult at (100, 50). *)
Definition estado_un_track : BidirectionalCounter :=
  crear_track estado_ej "adulto" 100 50.

(** An adult that has crossed and a bicycle that has not. *)
Definition track_cruzado : TrackInfo :=
  desarmar "derecha" (marcar_cruzado IZQUIERDA_A_DERECHA track_izq_der).

Definition track_quieto : TrackInfo := nuevo_track 2 "bicicleta" 40 60.

Definition estado_dos_tracks : BidirectionalCounter :=
  {| ancho_frame := 300;
     alto_frame := 480;
     margen_cruce := 30;
     callback_cruce := true;
     linea_posicion_relativa := 0.5;
     linea_x := 150;
     categorias := categorias_por_defecto;
     contadores := _inicializar_contadores categorias_por_defecto;
     tracks := [(1, track_cruzado); (2, track_quieto)];
     siguiente_track_id := 3;
     usar_deepsort := false;
     llamadas_callback := [] |}.

(** A counter configured for bicycles only, holding an adult track. *)
Definition estado_solo_bici : BidirectionalCounter :=
  {| ancho_frame := 300;
     alto_frame := 480;
     margen_cruce := 30;
     callback_cruce := true;
     linea_posicion_relativa := 0.5;
     linea_x := 150;
     categorias := ["bicicleta"];
     contadores := _inicializar_contadores ["bicicleta"];
     tracks := [(1, track_izq_der)];
     siguiente_track_id := 2;
     usar_deepsort := false;
     llamadas_callback := [] |}.

(** A detection as the detector builds it, of 20 x 40 pixels around its
    centre. *)
Definition deteccion_ej (cat : string) (cx cy : Z) : Deteccion :=
  {| bbox := (cx - 10, cy - 20, cx + 10, cy + 20);
     det_categoria := cat;
     confianza := 0.8;
     clase_original := Some "person";
     centro := (cx, cy);
     det_track_id := None;
     ancho := 20;
     alto := 40 |}.

(** ** Vocabulary of the further properties *)

(** The operations a call of [procesar_detecciones] is made of. *)
Definition op_de_frame (op : Operacion) : Prop :=
  match op with
  | OpCrearTrack _ _ _ => True
  | OpActualizarTrack _ _ _ _ => True
  | OpVerificarCruce _ => True
  | OpLimpiarTracks _ => True
  | _ => False
  end.

(** Any operation but the reset. *)
Definition op_sin_reinicio (op : Operacion) : Prop :=
  op ≠ OpReiniciarContadores.

(** The counters [m'] have the keys of [m] and no cell of [m'] is below
    the cell of [m]. *)
Definition contadores_crecen (m m' : gmap string Celda) : Prop :=
  ∀ cat,
    match m !! cat, m' !! cat with
    | Some c, Some c' => izq_der c <= izq_der c' ∧ der_izq c <= der_izq c'
    | None, None => True
    | _, _ => False
    end.

(** The calls of the log [l] made for category [cat] and direction [d]. *)
Definition llamadas_de (cat : string) (d : Direccion)
    (l : list (string * Direccion * Z)) : list (string * Direccion * Z) :=
  filter (fun x => fst (fst x) = cat ∧ snd (fst x) = d) l.

(** The calls of the log [l] made for direction [d]. *)
Definition llamadas_en (d : Direccion)
    (l : list (string * Direccion * Z)) : list (string * Direccion * Z) :=
  filter (fun x => snd (fst x) = d) l.

(** What every track object of the map satisfies: it is stored under
    its own id; it has between 1 and 50 samples; [ultima_posicion_x] is
    the x of its last sample; it has been seen at least as often as it
    has samples; it is flagged as crossed exactly when a crossing
    direction is recorded; and a disarmed track has crossed. *)
Definition track_bien_formado (tid : Z) (t : TrackInfo) : Prop :=
  track_id t = tid
  ∧ (1 <= length (historial_posiciones t))%nat
  ∧ (length (historial_posiciones t) <= 50)%nat
  ∧ (∃ y, last (historial_posiciones t) = Some (ultima_posicion_x t, y))
  ∧ Z.of_nat (length (historial_posiciones t)) <= frames_vistos t
  ∧ (cruzado t = true ↔ is_Some (direccion_cruce t))
  ∧ (puede_cruzar t = false → cruzado t = true).

Definition tracks_bien_formados (st : BidirectionalCounter) : Prop :=
  ∀ tid t, dict_get tid (tracks st) = Some t → track_bien_formado tid t.

(** What the loop of the built-in tracker keeps about ids, started on
    [st0]: the ids given out so far are pairwise distinct when the
    ids of [st0] are below its next id, and an id of the map that was
    not in the map of [st0] is at least the next id of [st0]. *)
Definition bucle_ids_inv (st0 : BidirectionalCounter)
    (acc : BidirectionalCounter * gset Z * list Deteccion) : Prop :=
  let '(st, usados, out) := acc in
  (ids_menores st0 → NoDup (det_track_id <$> out))
  ∧ (∀ tid, is_Some (dict_get tid (tracks st)) →
            is_Some (dict_get tid (tracks st0))
            ∨ siguiente_track_id st0 <= tid).

(** [x :: xs] never increases. *)
Fixpoint monotona_desc (x : Z) (xs : list Z) : Prop :=
  match xs with
  | [] => True
  | y :: ys => y <= x ∧ monotona_desc y ys
  end.

(** The dictionary returned by [obtener_estadisticas]. *)
Record Estadisticas : Type := mkEstadisticas {
  est_contadores : gmap string Celda;
  est_totales : Totales;
  tracks_activos : Z;
  posicion_linea : Z;
  tracks_que_cruzaron : Z
}.

(** [obtener_contadores]: a copy of the counters. *)
Definition obtener_contadores (st : BidirectionalCounter)
  : gmap string Celda :=
  contadores st.

(** [obtener_estadisticas]: [len(self.tracks)] and
    [sum(1 for t in self.tracks.values() if t.cruzado)] beside the
    counters, the totals and the line position. *)
Definition obtener_estadisticas (st : BidirectionalCounter) : Estadisticas :=
  {| est_contadores := obtener_contadores st;
     est_totales := obtener_total_cruces st;
     tracks_activos := Z.of_nat (length (tracks st));
     posicion_linea := linea_x st;
     tracks_que_cruzaron :=
       Z.of_nat (length (filter (fun e => cruzado (snd e) = true) (tracks st)))
  |}.

(** ** The detector ([src/detector_yolo.py]) and the tables of
    [src/config.py] *)

(** [s in t] on Python strings: [s] occurs in [t] as a run of
    consecutive characters; the empty string occurs in every string.
    (Strings are taken as their UTF-8 bytes, on which the occurrence of
    one well-formed text in another is the same relation.) *)
Fixpoint es_subcadena (s t : string) : bool :=
  String.prefix s t
  || match t with
     | EmptyString => false
     | String _ t' => es_subcadena s t'
     end.

(** [d.get(k)] on a dict str -> str kept in insertion order. *)
Fixpoint str_get (k : string) (d : list (string * string)) : option string :=
  match d with
  | [] => None
  | (k', v) :: d' => if decide (k = k') then Some v else str_get k d'
  end.

(** The loop of [_mapear_categoria]: the category of the first entry,
    in insertion order, whose key occurs in the class name or in which
    the class name occurs. *)
Fixpoint coincidencia_parcial (clase_nombre : string)
    (d : list (string * string)) : option string :=
  match d with
  | [] => None
  | (clave, categoria) :: d' =>
      if es_subcadena clave clase_nombre || es_subcadena clase_nombre clave
      then Some categoria
      else coincidencia_parcial clase_nombre d'
  end.

(** [_mapear_categoria]: the direct mapping when the class name is a
    key, otherwise the first partial match, otherwise [None]. *)
Definition _mapear_categoria (clase_a_categoria : list (string * string))
    (clase_nombre : string) : option string :=
  match str_get clase_nombre clase_a_categoria with
  | Some categoria => Some categoria
  | None => coincidencia_parcial clase_nombre clase_a_categoria
  end.

(** [CLASE_A_CATEGORIA] of [config.py] (and the default table of the
    detector), in source order. *)
Definition CLASE_A_CATEGORIA : list (string * string) :=
  [("person", "adulto");
   ("pedestrian", "adulto");
   ("child", "nino");
   ("children", "nino");
   ("wheelchair", "silla_ruedas");
   ("bicycle", "bicicleta");
   ("bike", "bicicleta");
   ("mobility aid", "movilidad_reducida");
   ("walker", "movilidad_reducida");
   ("crutches", "movilidad_reducida")].

(** [list(CATEGORIAS.keys())] of [config.py], the list [main.py] gives
    to the counter. *)
Definition CATEGORIAS_keys : list string :=
  ["adulto"; "nino"; "bicicleta"; "silla_ruedas"; "movilidad_reducida"].

(** One box of a YOLO result: [boxes.xyxy[i]], [boxes.conf[i]] and
    [boxes.cls[i]], floating-point values. *)
Record Caja : Type := mkCaja {
  xyxy : float * float * float * float;
  conf : float;
  cls : float
}.

(** The attributes of a [DetectorYOLO] object that the detection reads:
    the threshold, the table, and the model -- [None] when loading
    failed -- of which only [model.names] (class id -> class name) is
    read here. *)
Record DetectorYOLO : Type := mkDetector {
  confidence_threshold : float;
  clase_a_categoria : list (string * string);
  model : option (list (Z * string))
}.

(** [actualizar_umbral_confianza]:
    [max(0.0, min(1.0, nuevo_umbral))]. *)
Definition actualizar_umbral_confianza (self : DetectorYOLO)
    (nuevo_umbral : float) : DetectorYOLO :=
  {| confidence_threshold :=
       PyFloat.py_max 0 (PyFloat.py_min 1 nuevo_umbral);
     clase_a_categoria := clase_a_categoria self;
     model := model self |}.

(** [liberar]. *)
Definition liberar (self : DetectorYOLO) : DetectorYOLO :=
  {| confidence_threshold := confidence_threshold self;
     clase_a_categoria := clase_a_categoria self;
     model := None |}.

Section Detectar.

(** Python's [str.lower]. *)
Variable lower : string -> string.

(** The body of the loop over the boxes of [detectar].  The outer
    [None] is an exception ([int] of a NaN or an infinity), which the
    [try] of [detectar] catches; [Some None] is a box whose class has
    no category. *)
Definition procesar_caja (self : DetectorYOLO) (names : list (Z * string))
    (c : Caja) : option (option Deteccion) :=
  let '(fx1, fy1, fx2, fy2) := xyxy c in
  match PyFloat.to_int fx1, PyFloat.to_int fy1,
        PyFloat.to_int fx2, PyFloat.to_int fy2, PyFloat.to_int (cls c) with
  | Some x1, Some y1, Some x2, Some y2, Some clase_id =>
      let clase_nombre := lower (default "unknown" (dict_get clase_id names)) in
      match _mapear_categoria (clase_a_categoria self) clase_nombre with
      | None => Some None
      | Some categoria =>
          Some (Some {| bbox := (x1, y1, x2, y2);
                        det_categoria := categoria;
                        confianza := conf c;
                        clase_original := Some clase_nombre;
                        centro := ((x1 + x2) `div` 2, (y1 + y2) `div` 2);
                        det_track_id := None;
                        ancho := x2 - x1;
                        alto := y2 - y1 |})
      end
  | _, _, _, _, _ => None
  end.

(** The loop over the boxes of one result; the flag tells whether it
    ran to its end. *)
Fixpoint procesar_cajas (self : DetectorYOLO) (names : list (Z * string))
    (cajas : list Caja) (detecciones : list Deteccion)
  : list Deteccion * bool :=
  match cajas with
  | [] => (detecciones, true)
  | c :: cajas' =>
      match procesar_caja self names c with
      | None => (detecciones, false)
      | Some None => procesar_cajas self names cajas' detecciones
      | Some (Some det) =>
          procesar_cajas self names cajas' (detecciones ++ [det])
      end
  end.

(** The loop over the results; a result whose [boxes] is [None] is
    skipped. *)
Fixpoint procesar_resultados (self : DetectorYOLO) (names : list (Z * string))
    (resultados : list (option (list Caja))) (detecciones : list Deteccion)
  : list Deteccion :=
  match resultados with
  | [] => detecciones
  | None :: resultados' =>
      procesar_resultados self names resultados' detecciones
  | Some cajas :: resultados' =>
      let '(detecciones', sigue) :=
        procesar_cajas self names cajas detecciones in
      if sigue then procesar_resultados self names resultados' detecciones'
      else detecciones'
  end.

(** [detectar].  [inferencia] is what the call of the model on the
    frame yields: the list of results, or [None] when it raises. *)
Definition detectar (self : DetectorYOLO)
    (inferencia : option (list (option (list Caja)))) : list Deteccion :=
  match model self with
  | None => []
  | Some names =>
      match inferencia with
      | None => []
      | Some resultados => procesar_resultados self names resultados []
      end
  end.

End Detectar.

(** [s] occurs in [t]. *)
Definition ocurre_en (s t : string) : Prop :=
  ∃ a b, t = String.append a (String.append s b).

(** What holds of every detection the detector builds: its category is
    a category of the table; its centre is the integer midpoint of its
    box, which lies inside a box whose corners are in order; its width
    and height are those of the box; it carries no track id. *)
Definition deteccion_bien_formada (tabla : list (string * string))
    (det : Deteccion) : Prop :=
  (∃ clave, (clave, det_categoria det) ∈ tabla)
  ∧ det_track_id det = None
  ∧ let '(x1, y1, x2, y2) := bbox det in
    centro det = ((x1 + x2) `div` 2, (y1 + y2) `div` 2)
    ∧ ancho det = x2 - x1
    ∧ alto det = y2 - y1
    ∧ (x1 <= x2 → x1 <= fst (centro det) <= x2)
    ∧ (y1 <= y2 → y1 <= snd (centro det) <= y2).

(** The number of boxes of an inference. *)
Definition numero_de_cajas (resultados : list (option (list Caja))) : nat :=
  sum_list_with (fun r => length (default [] r)) resultados.

(** A detector as [main.py] builds it, with a model that knows the
    class "person" under id 0, and an inference with one box of that
    class. *)
Definition detector_ej : DetectorYOLO :=
  {| confidence_threshold := 0.5;
     clase_a_categoria := CLASE_A_CATEGORIA;
     model := Some [(0, "person")] |}.

Definition caja_ej : Caja :=
  {| xyxy := (90.7, 30.2, 110.9, 70.5)%float; conf := 0.8; cls := 0 |}.

(** ** The data logger ([src/data_logger.py]) and the crossing callback
    of [src/main.py] *)

(** One row of the CSV file, the dictionary [registro] of
    [registrar_cruce]; an empty [latitude] or [longitude] cell is
    [None]. *)
Record Registro : Type := mkRegistro {
  fecha : string;
  hora : string;
  tipo : string;
  direccion : Z;
  total_tipo : Z;
  total_dir0 : Z;
  total_dir1 : Z;
  total_sesion : Z;
  ubicacion : string;
  reg_latitude : option float;
  reg_longitude : option float;
  sesion_id : string
}.

(** The attributes of a [DataLogger] that a row is built from. *)
Record DataLogger : Type := mkDataLogger {
  ubicacion_nombre : string;
  latitude : option float;
  longitude : option float;
  carpeta_dia : option string
}.

(** [nombres_tipo] of [registrar_cruce]. *)
Definition nombres_tipo : list (string * string) :=
  [("adulto", "Adulto");
   ("nino", "Nino");
   ("bicicleta", "Bicicleta");
   ("silla_ruedas", "Silla_Ruedas");
   ("movilidad_reducida", "Movilidad_Reducida")].

(** [x if x else ''] on an optional float: [None] and zero, of either
    sign, are false. *)
Definition si_verdadero (x : option float) : option float :=
  match x with
  | Some f => if PrimFloat.eqb f 0 then None else Some f
  | None => None
  end.

Section Registro.

(** [os.path.basename] and the clock: [timestamp.strftime('%Y-%m-%d')]
    and [timestamp.strftime('%H:%M:%S')] at the time of the call. *)
Variable basename : string -> string.
Variables (fecha_ahora hora_ahora : string).

(** The dictionary [registro] that [registrar_cruce] builds, appends
    to its buffer and writes as a row of the CSV file.  [contadores] is
    the dictionary of the counter, whose cells have both keys. *)
Definition registrar_cruce_registro (self : DataLogger) (categoria : string)
    (direccion_str : string) (contadores : gmap string Celda) : Registro :=
  let contador_cat := default celda_cero (contadores !! categoria) in
  let total_cat := izq_der contador_cat + der_izq contador_cat in
  let total_dir0 := suma izq_der contadores in
  let total_dir1 := suma der_izq contadores in
  let total_sesion := total_dir0 + total_dir1 in
  let dir_valor := if decide (direccion_str = "izq_der") then 0 else 1 in
  let sesion_id := match carpeta_dia self with
                   | Some (String a s) => basename (String a s)
                   | _ => "sesion"
                   end in
  {| fecha := fecha_ahora;
     hora := hora_ahora;
     tipo := default categoria (str_get categoria nombres_tipo);
     direccion := dir_valor;
     total_tipo := total_cat;
     total_dir0 := total_dir0;
     total_dir1 := total_dir1;
     total_sesion := total_sesion;
     ubicacion := ubicacion_nombre self;
     reg_latitude := si_verdadero (latitude self);
     reg_longitude := si_verdadero (longitude self);
     sesion_id := sesion_id |}.

(** [_on_cruce_detectado] of [main.py], the callback given to the
    counter: the row it has the logger record, built from the counters
    as they are when the callback runs, and whether it asks for the
    reduced-mobility alert ([ALERTA_MOVILIDAD_REDUCIDA] is [True]). *)
Definition _on_cruce_detectado (contador : BidirectionalCounter)
    (data_logger : DataLogger) (categoria : string) (d : Direccion)
    (tid : Z) : Registro * bool :=
  let contadores := obtener_contadores contador in
  let direccion_str :=
    if decide (d = IZQUIERDA_A_DERECHA) then "izq_der" else "der_izq" in
  (registrar_cruce_registro data_logger categoria direccion_str contadores,
   bool_decide (categoria ∈ ["silla_ruedas"; "movilidad_reducida"])).

End Registro.

(** What the frame operations keep between the counters and the
    callback log, as a relation between two states. *)
Definition conteo_notificado (st st' : BidirectionalCounter) : Prop :=
  callback_cruce st' = callback_cruce st
  ∧ (callback_cruce st = true →
     ∃ nuevas,
       llamadas_callback st' = llamadas_callback st ++ nuevas
       ∧ (∀ cat d, d ≠ NINGUNA →
            lee d (obtener_contador_categoria st' cat)
            = lee d (obtener_contador_categoria st cat)
              + Z.of_nat (length (llamadas_de cat d nuevas)))
       ∧ (∀ d, d ≠ NINGUNA →
            suma (lee d) (contadores st')
            = suma (lee d) (contadores st)
              + Z.of_nat (length (llamadas_en d nuevas)))
       ∧ Forall (fun x => snd (fst x) ≠ NINGUNA) nuevas).

(** ** The built-in matcher with the exception of [np.sqrt] *)

(** [np.sqrt] is given the Python int
    [(cx - ultimo_x)**2 + (cy - ultimo_y)**2].  Below [2 ** 64] the
    integer fits a machine integer and the call returns a float; from
    [2 ** 64] on it does not, and the call raises [TypeError]. *)
Definition raiz_definida (n : Z) : bool := n <? 2 ^ 64.

(** One iteration of the loop of [_encontrar_track_cercano], with the
    exception: [None] once [np.sqrt] has raised, otherwise
    [(distancia_minima, track_encontrado)]. *)
Definition paso_busqueda_exc (cx cy : Z) (cat : string)
    (tracks_usados : gset Z) (acc : option (option Z * option Z))
    (e : Z * TrackInfo) : option (option Z * option Z) :=
  match acc with
  | None => None
  | Some a =>
      let '(tid, info) := e in
      if decide (tid ∈ tracks_usados) then Some a
      else if negb (bool_decide (categoria info = cat)) then Some a
      else match last (historial_posiciones info) with
           | None => Some a
           | Some (ultimo_x, ultimo_y) =>
               let d2 := distancia2 cx cy ultimo_x ultimo_y in
               if raiz_definida d2 then
                 if menor_que d2 (fst a) && (d2 <? umbral_distancia ^ 2)
                 then Some (Some d2, Some tid)
                 else Some a
               else None
           end
  end.

(** [_encontrar_track_cercano] with the exception: [None] when the call
    raises, [Some r] when it returns [r]. *)
Definition _encontrar_track_cercano_exc (st : BidirectionalCounter)
    (cx cy : Z) (cat : string) (tracks_usados : gset Z)
  : option (option Z) :=
  snd <$> foldl (paso_busqueda_exc cx cy cat tracks_usados)
            (Some (None, None)) (tracks st).

(** The body of the loop of [_procesar_con_tracker_simple] with the
    exception of the search, which nothing catches: [None] once an
    iteration has raised. *)
Definition paso_tracker_simple_exc
    (acc : option (BidirectionalCounter * gset Z * list Deteccion))
    (det : Deteccion)
  : option (BidirectionalCounter * gset Z * list Deteccion) :=
  match acc with
  | None => None
  | Some (st, tracks_usados, detecciones_con_id) =>
      let '(cx, cy) := centro det in
      let cat := det_categoria det in
      match _encontrar_track_cercano_exc st cx cy cat tracks_usados with
      | None => None
      | Some encontrado =>
          let '(st1, tid) :=
            match encontrado with
            | None => (crear_track st cat cx cy, siguiente_track_id st)
            | Some tid => (_actualizar_track st tid cat cx cy, tid)
            end in
          Some (_verificar_cruce st1 tid,
                {[tid]} ∪ tracks_usados,
                detecciones_con_id ++ [con_track_id det tid])
      end
  end.

(** [_procesar_con_tracker_simple] with the exception: [None] when the
    call raises, leaving the object as the iterations before left it,
    and [Some] of the new state and the list returned otherwise. *)
Definition _procesar_con_tracker_simple_exc (st : BidirectionalCounter)
    (detecciones : list Deteccion)
  : option (BidirectionalCounter * list Deteccion) :=
  match foldl paso_tracker_simple_exc (Some (st, ∅, [])) detecciones with
  | None => None
  | Some (st', tracks_usados, detecciones_con_id) =>
      Some (_limpiar_tracks_antiguos st' tracks_usados, detecciones_con_id)
  end.




(** An adult 2 ** 32 pixels right of the adult track of
    [estado_un_track]. *)
Definition deteccion_lejana : Deteccion :=
  deteccion_ej "adulto" (100 + 2 ^ 32) 50.

(** * Properties *)

(** ** Python floats, on examples *)

Example to_int_ex1 : PyFloat.to_int 576.5%float = Some 576.
Proof. vm_compute. reflexivity. Qed.
Example to_int_ex2 : PyFloat.to_int (-3.75)%float = Some (-3).
Proof. vm_compute. reflexivity. Qed.
Example int_mul_ex : PyFloat.int_mul 640 0.9%float = Some 576%float.
Proof. vm_compute. reflexivity. Qed.

(** ** Dictionary laws *)

Section DictLemmas.
Context {V : Type}.
Implicit Types (d : list (Z * V)) (k : Z) (v : V).

Lemma dict_get_set_eq d k v : dict_get k (dict_set k v d) = Some v.
Proof.
  induction d as [|[k' v'] d IH]; simpl.
  - by rewrite decide_True.
  - destruct (decide (k = k')) as [->|Hne]; simpl.
    + by rewrite decide_True.
    + by rewrite decide_False.
Qed.

Lemma dict_get_set_ne d k k' v :
  k ≠ k' → dict_get k' (dict_set k v d) = dict_get k' d.
Proof.
  intros Hne. induction d as [|[k0 v0] d IH]; simpl.
  - rewrite decide_False; [done | congruence].
  - destruct (decide (k = k0)) as [->|Hk]; simpl.
    + rewrite !decide_False; [done | congruence | congruence].
    + destruct (decide (k' = k0)); done.
Qed.

Lemma dict_get_alter_eq (f : V → V) d k :
  dict_get k (dict_alter f k d) = f <$> dict_get k d.
Proof.
  induction d as [|[k' v'] d IH]; simpl; [done|].
  destruct (decide (k = k')) as [->|Hne]; simpl.
  - by rewrite decide_True.
  - by rewrite decide_False.
Qed.

Lemma dict_get_alter_ne (f : V → V) d k k' :
  k ≠ k' → dict_get k' (dict_alter f k d) = dict_get k' d.
Proof.
  intros Hne. induction d as [|[k0 v0] d IH]; simpl; [done|].
  destruct (decide (k = k0)) as [->|Hk]; simpl.
  - rewrite !decide_False; [done | congruence | congruence].
  - destruct (decide (k' = k0)); done.
Qed.

Lemma dict_get_del_eq d k : dict_get k (dict_del k d) = None.
Proof.
  induction d as [|[k' v'] d IH]; simpl; [done|].
  destruct (decide (k = k')) as [->|Hne]; simpl; [done|].
  by rewrite decide_False.
Qed.

Lemma dict_get_del_ne d k k' :
  k ≠ k' → dict_get k' (dict_del k d) = dict_get k' d.
Proof.
  intros Hne. induction d as [|[k0 v0] d IH]; simpl; [done|].
  destruct (decide (k = k0)) as [->|Hk]; simpl.
  - rewrite decide_False; [done | congruence].
  - destruct (decide (k' = k0)); done.
Qed.

Lemma dict_get_Some_elem d k v : dict_get k d = Some v → (k, v) ∈ d.
Proof.
  induction d as [|[k' v'] d IH]; simpl; [done|].
  destruct (decide (k = k')) as [->|Hne].
  - intros [= ->]. left.
  - intros H. right. by apply IH.
Qed.

Lemma dict_elem_get_is_Some d k v : (k, v) ∈ d → is_Some (dict_get k d).
Proof.
  induction d as [|[k' v'] d IH]; simpl.
  - by intros ?%elem_of_nil.
  - intros [[= -> ->]|Hin]%elem_of_cons.
    + rewrite decide_True; eauto.
    + destruct (decide (k = k')); eauto.
Qed.

(** The keys of a dictionary after the three kinds of update. *)
Lemma dict_set_keys d k v k' v' :
  (k', v') ∈ dict_set k v d → k' = k ∨ (k', v') ∈ d.
Proof.
  induction d as [|[k0 v0] d IH]; simpl.
  - intros [= -> ->]%list_elem_of_singleton. by left.
  - destruct (decide (k = k0)) as [->|Hk].
    + intros [[= -> ->]|Hin]%elem_of_cons; [by left|]. right. by right.
    + intros [[= -> ->]|Hin]%elem_of_cons; [right; left|].
      destruct (IH Hin) as [->|?]; [by left|]. right. by right.
Qed.

Lemma dict_alter_keys (f : V → V) d k k' v' :
  (k', v') ∈ dict_alter f k d → ∃ v0, (k', v0) ∈ d.
Proof.
  induction d as [|[k0 v0] d IH]; simpl.
  - by intros ?%elem_of_nil.
  - destruct (decide (k = k0)) as [->|Hk].
    + intros [Heq|Hin]%elem_of_cons.
      * injection Heq as -> _. exists v0. left.
      * exists v'. by right.
    + intros [Heq|Hin]%elem_of_cons.
      * injection Heq as -> ->. exists v0. left.
      * destruct (IH Hin) as [v1 ?]. exists v1. by right.
Qed.

Lemma dict_del_keys d k k' v' : (k', v') ∈ dict_del k d → (k', v') ∈ d.
Proof.
  induction d as [|[k0 v0] d IH]; simpl.
  - done.
  - destruct (decide (k = k0)) as [->|Hk].
    + intros Hin. right. by apply IH.
    + intros [[= -> ->]|Hin]%elem_of_cons; [left|]. right. by apply IH.
Qed.

End DictLemmas.

(** ** Registering a crossing *)

Lemma lee_incrementar_mismo d c : lee d (incrementar d c) = lee d c + 1.
Proof. by destruct d. Qed.

Lemma lee_incrementar_otro d d' c :
  d ≠ NINGUNA → d' ≠ NINGUNA → d' ≠ d → lee d' (incrementar d c) = lee d' c.
Proof. by destruct d, d'. Qed.

Lemma registrar_cruce_tracks st tid d :
  tracks (_registrar_cruce st tid d)
  = dict_alter (marcar_cruzado d) tid (tracks st).
Proof.
  unfold _registrar_cruce.
  destruct (dict_get tid (tracks st)) as [t|] eqn:Hget.
  - by destruct (contadores st !! categoria t).
  - clear -Hget. induction (tracks st) as [|[k v] l IH]; simpl in *; [done|].
    destruct (decide (tid = k)); [done|]. by rewrite <- IH.
Qed.

Lemma registrar_cruce_config st tid d :
  linea_x (_registrar_cruce st tid d) = linea_x st
  ∧ margen_cruce (_registrar_cruce st tid d) = margen_cruce st
  ∧ siguiente_track_id (_registrar_cruce st tid d) = siguiente_track_id st
  ∧ callback_cruce (_registrar_cruce st tid d) = callback_cruce st.
Proof.
  unfold _registrar_cruce.
  destruct (dict_get tid (tracks st)) as [t|]; [|done].
  by destruct (contadores st !! categoria t).
Qed.

Lemma registrar_cruce_contadores st tid t d :
  dict_get tid (tracks st) = Some t →
  contadores (_registrar_cruce st tid d)
  = match contadores st !! categoria t with
    | Some c => <[categoria t := incrementar d c]> (contadores st)
    | None => contadores st
    end.
Proof.
  intros Hget. unfold _registrar_cruce. rewrite Hget.
  by destruct (contadores st !! categoria t).
Qed.

Lemma registrar_cruce_llamadas st tid t d :
  dict_get tid (tracks st) = Some t →
  llamadas_callback (_registrar_cruce st tid d)
  = match contadores st !! categoria t with
    | Some _ =>
        if callback_cruce st
        then llamadas_callback st ++ [(categoria t, d, tid)]
        else llamadas_callback st
    | None => llamadas_callback st
    end.
Proof.
  intros Hget. unfold _registrar_cruce. rewrite Hget.
  by destruct (contadores st !! categoria t).
Qed.

(** C3, as the code has it.  Registering a crossing of direction [d]
    (left-to-right or right-to-left) for an existing track marks the
    track as crossed with that direction.  When the track's category is
    a key of the counters, exactly the cell (category, [d]) grows by
    one, every other cell keeps its value, and a configured callback
    receives (category, [d], track id).  When the category is not a key
    of the counters, no cell changes and the callback is not called. *)
Theorem registrar_cruce_efecto (st : BidirectionalCounter) (tid : Z)
    (t : TrackInfo) (d : Direccion) :
  dict_get tid (tracks st) = Some t →
  d ≠ NINGUNA →
  let st' := _registrar_cruce st tid d in
  (∃ t', dict_get tid (tracks st') = Some t'
         ∧ cruzado t' = true ∧ direccion_cruce t' = Some d
         ∧ categoria t' = categoria t)
  ∧ (∀ c, contadores st !! categoria t = Some c →
       lee d <$> contadores st' !! categoria t = Some (lee d c + 1)
       ∧ (∀ cat' d', d' ≠ NINGUNA → (cat', d') ≠ (categoria t, d) →
            lee d' <$> contadores st' !! cat' = lee d' <$> contadores st !! cat')
       ∧ llamadas_callback st'
         = if callback_cruce st
           then llamadas_callback st ++ [(categoria t, d, tid)]
           else llamadas_callback st)
  ∧ (contadores st !! categoria t = None →
       contadores st' = contadores st
       ∧ llamadas_callback st' = llamadas_callback st).
Proof.
  intros Hget Hd st'. subst st'. repeat split.
  - exists (marcar_cruzado d t).
    rewrite registrar_cruce_tracks, dict_get_alter_eq, Hget. done.
  - rewrite (registrar_cruce_contadores _ _ _ _ Hget), H.
    rewrite lookup_insert_eq. simpl. by rewrite lee_incrementar_mismo.
  - intros cat' d' Hd' Hne.
    rewrite (registrar_cruce_contadores _ _ _ _ Hget), H.
    destruct (decide (cat' = categoria t)) as [->|Hcat].
    + rewrite lookup_insert_eq, H. simpl.
      rewrite lee_incrementar_otro; [done..|]. congruence.
    + by rewrite lookup_insert_ne.
  - by rewrite (registrar_cruce_llamadas _ _ _ _ Hget), H.
  - by rewrite (registrar_cruce_contadores _ _ _ _ Hget), H.
  - by rewrite (registrar_cruce_llamadas _ _ _ _ Hget), H.
Qed.

(** ** The crossing check *)

Lemma dos_ultimas_x_app h prev py cur cy :
  dos_ultimas_x (h ++ [(prev, py); (cur, cy)]) = Some (prev, cur).
Proof. unfold dos_ultimas_x. by rewrite reverse_app. Qed.

Lemma dos_ultimas_x_corta h :
  (length h < 2)%nat → dos_ultimas_x h = None.
Proof.
  destruct h as [|[x y] [|[x' y'] h]]; simpl; try done; intros; lia.
Qed.

Lemma incrementar_distinto c :
  incrementar IZQUIERDA_A_DERECHA c ≠ c
  ∧ incrementar DERECHA_A_IZQUIERDA c ≠ c
  ∧ incrementar IZQUIERDA_A_DERECHA c ≠ incrementar DERECHA_A_IZQUIERDA c.
Proof.
  destruct c as [a b]. unfold incrementar; simpl.
  repeat split; intros [= ]; lia.
Qed.

(** The three branches of [_verificar_cruce] on a track with two
    samples. *)
Lemma verificar_cruce_izq_der st tid t prev cur :
  dict_get tid (tracks st) = Some t →
  dos_ultimas_x (historial_posiciones t) = Some (prev, cur) →
  prev < linea_x st → linea_x st ≤ cur → puede_cruzar t = true →
  _verificar_cruce st tid
  = let st1 := _registrar_cruce st tid IZQUIERDA_A_DERECHA in
    con_tracks st1 (dict_alter (desarmar "derecha") tid (tracks st1)).
Proof.
  intros Hget Hdos H1 H2 Hp. unfold _verificar_cruce.
  rewrite Hget, Hdos, Hp.
  rewrite (proj2 (Z.ltb_lt _ _) H1), (proj2 (Z.leb_le _ _) H2). done.
Qed.

Lemma verificar_cruce_der_izq st tid t prev cur :
  dict_get tid (tracks st) = Some t →
  dos_ultimas_x (historial_posiciones t) = Some (prev, cur) →
  linea_x st < prev → cur ≤ linea_x st → puede_cruzar t = true →
  _verificar_cruce st tid
  = let st1 := _registrar_cruce st tid DERECHA_A_IZQUIERDA in
    con_tracks st1 (dict_alter (desarmar "izquierda") tid (tracks st1)).
Proof.
  intros Hget Hdos H1 H2 Hp. unfold _verificar_cruce.
  rewrite Hget, Hdos, Hp.
  rewrite (proj2 (Z.ltb_lt _ _) H1), (proj2 (Z.leb_le _ _) H2).
  replace (prev <? linea_x st) with false by (symmetry; apply Z.ltb_ge; lia).
  done.
Qed.

Lemma verificar_cruce_resto st tid t prev cur :
  dict_get tid (tracks st) = Some t →
  dos_ultimas_x (historial_posiciones t) = Some (prev, cur) →
  ¬ (prev < linea_x st ∧ linea_x st ≤ cur ∧ puede_cruzar t = true) →
  ¬ (linea_x st < prev ∧ cur ≤ linea_x st ∧ puede_cruzar t = true) →
  _verificar_cruce st tid = st
  ∨ (¬ (prev < linea_x st ∧ linea_x st ≤ cur)
     ∧ ¬ (linea_x st < prev ∧ cur ≤ linea_x st)
     ∧ margen_cruce st < Z.abs (cur - linea_x st)
     ∧ _verificar_cruce st tid
       = con_tracks st (dict_alter (con_puede_cruzar true) tid (tracks st))).
Proof.
  intros Hget Hdos Hn1 Hn2. unfold _verificar_cruce. rewrite Hget, Hdos.
  destruct (Z.ltb_spec prev (linea_x st)), (Z.leb_spec (linea_x st) cur);
    destruct (Z.ltb_spec (linea_x st) prev), (Z.leb_spec cur (linea_x st));
    destruct (puede_cruzar t) eqn:Hp; simpl; try (by left); try lia;
    try (exfalso; apply Hn1; done); try (exfalso; apply Hn2; done);
    destruct (Z.ltb_spec (margen_cruce st) (Z.abs (cur - linea_x st)));
    try (by left); right; repeat split; try done; lia.
Qed.

Lemma registrado_de_rama st tid t d lado :
  dict_get tid (tracks st) = Some t →
  registrado st tid d lado
    (con_tracks (_registrar_cruce st tid d)
       (dict_alter (desarmar lado) tid (tracks (_registrar_cruce st tid d)))).
Proof.
  intros Hget. repeat split.
  exists (desarmar lado (marcar_cruzado d t)). simpl.
  rewrite dict_get_alter_eq, registrar_cruce_tracks, dict_get_alter_eq, Hget.
  done.
Qed.

Lemma sin_registro_de_resto st tid t prev cur :
  dict_get tid (tracks st) = Some t →
  dos_ultimas_x (historial_posiciones t) = Some (prev, cur) →
  ¬ (prev < linea_x st ∧ linea_x st ≤ cur ∧ puede_cruzar t = true) →
  ¬ (linea_x st < prev ∧ cur ≤ linea_x st ∧ puede_cruzar t = true) →
  sin_registro st tid t (_verificar_cruce st tid).
Proof.
  intros Hget Hdos Hn1 Hn2.
  destruct (verificar_cruce_resto _ _ _ _ _ Hget Hdos Hn1 Hn2)
    as [->|(_ & _ & _ & ->)].
  - repeat split. by exists t.
  - repeat split. exists (con_puede_cruzar true t). simpl.
    by rewrite dict_get_alter_eq, Hget.
Qed.

(** C1.  One crossing check on an existing track.  With fewer than two
    samples the state is left as it is.  With [prev_x], [cur_x] the x of
    the last two samples: a left-to-right crossing is registered (and
    the track disarmed, last side right) when [prev_x < line_x],
    [cur_x >= line_x] and the track is armed; a right-to-left crossing
    is registered (disarmed, last side left) when [prev_x > line_x],
    [cur_x <= line_x] and the track is armed; nothing is registered in
    every other case.  On the counter cell of the track's category the
    two increments are seen exactly under these conditions. *)
Theorem verificar_cruce_decision (st : BidirectionalCounter) (tid : Z)
    (t : TrackInfo) :
  dict_get tid (tracks st) = Some t →
  let st' := _verificar_cruce st tid in
  let linea := linea_x st in
  ((length (historial_posiciones t) < 2)%nat → st' = st)
  ∧ (∀ h prev py cur cy,
       historial_posiciones t = h ++ [(prev, py); (cur, cy)] →
       (prev < linea ∧ cur >= linea ∧ puede_cruzar t = true →
          registrado st tid IZQUIERDA_A_DERECHA "derecha" st')
       ∧ (prev > linea ∧ cur <= linea ∧ puede_cruzar t = true →
          registrado st tid DERECHA_A_IZQUIERDA "izquierda" st')
       ∧ (¬ (prev < linea ∧ cur >= linea ∧ puede_cruzar t = true) →
          ¬ (prev > linea ∧ cur <= linea ∧ puede_cruzar t = true) →
          sin_registro st tid t st')
       ∧ (∀ c, contadores st !! categoria t = Some c →
            (contadores st' !! categoria t
             = Some (incrementar IZQUIERDA_A_DERECHA c)
             ↔ prev < linea ∧ cur >= linea ∧ puede_cruzar t = true)
            ∧ (contadores st' !! categoria t
               = Some (incrementar DERECHA_A_IZQUIERDA c)
               ↔ prev > linea ∧ cur <= linea ∧ puede_cruzar t = true))).
Proof.
  intros Hget st' linea. subst st' linea. split.
  { intros Hlen. unfold _verificar_cruce.
    by rewrite Hget, (dos_ultimas_x_corta _ Hlen). }
  intros h prev py cur cy Hh.
  pose proof (dos_ultimas_x_app h prev py cur cy) as Hdos. rewrite <- Hh in Hdos.
  assert (Hizq : prev < linea_x st ∧ cur >= linea_x st ∧ puede_cruzar t = true →
    _verificar_cruce st tid
    = con_tracks (_registrar_cruce st tid IZQUIERDA_A_DERECHA)
        (dict_alter (desarmar "derecha") tid
           (tracks (_registrar_cruce st tid IZQUIERDA_A_DERECHA)))).
  { intros (? & ? & ?).
    rewrite (verificar_cruce_izq_der _ _ _ _ _ Hget Hdos); [done|lia..|done]. }
  assert (Hder : prev > linea_x st ∧ cur <= linea_x st ∧ puede_cruzar t = true →
    _verificar_cruce st tid
    = con_tracks (_registrar_cruce st tid DERECHA_A_IZQUIERDA)
        (dict_alter (desarmar "izquierda") tid
           (tracks (_registrar_cruce st tid DERECHA_A_IZQUIERDA)))).
  { intros (? & ? & ?).
    rewrite (verificar_cruce_der_izq _ _ _ _ _ Hget Hdos); [done|lia..|done]. }
  assert (Hres : ¬ (prev < linea_x st ∧ cur >= linea_x st ∧ puede_cruzar t = true) →
    ¬ (prev > linea_x st ∧ cur <= linea_x st ∧ puede_cruzar t = true) →
    sin_registro st tid t (_verificar_cruce st tid)).
  { intros Hn1 Hn2. apply (sin_registro_de_resto _ _ _ prev cur Hget Hdos).
    - intros (? & ? & ?). apply Hn1. repeat split; [lia..|done].
    - intros (? & ? & ?). apply Hn2. repeat split; [lia..|done]. }
  split; [|split; [|split]].
  - intros Hc. rewrite (Hizq Hc). by apply (registrado_de_rama _ _ t).
  - intros Hc. rewrite (Hder Hc). by apply (registrado_de_rama _ _ t).
  - done.
  - intros c Hcat.
    destruct (incrementar_distinto c) as (Hi1 & Hi2 & Hi3).
    destruct (decide (prev < linea_x st ∧ cur >= linea_x st
                      ∧ puede_cruzar t = true)) as [Hc1|Hn1].
    { rewrite (Hizq Hc1). cbn [con_tracks contadores].
      rewrite (registrar_cruce_contadores _ _ _ _ Hget), Hcat, lookup_insert_eq.
      split; split; try done; try (intros Heq; exfalso; congruence).
      intros (? & ? & ?). lia. }
    destruct (decide (prev > linea_x st ∧ cur <= linea_x st
                      ∧ puede_cruzar t = true)) as [Hc2|Hn2].
    { rewrite (Hder Hc2). cbn [con_tracks contadores].
      rewrite (registrar_cruce_contadores _ _ _ _ Hget), Hcat, lookup_insert_eq.
      split; split; try done; intros Heq; exfalso; congruence. }
    destruct (Hres Hn1 Hn2) as (Hcont & _ & _). rewrite Hcont, Hcat.
    split; split; try done; intros Heq; exfalso; congruence.
Qed.

(** ** The operations of the class as a transition system *)

Lemma dos_ultimas_x_Some h prev cur :
  dos_ultimas_x h = Some (prev, cur) →
  ∃ h0 py cy, h = h0 ++ [(prev, py); (cur, cy)].
Proof.
  unfold dos_ultimas_x. intros H.
  destruct (reverse h) as [|[c cy] [|[p py] r]] eqn:Hr; try done.
  injection H as -> ->.
  exists (reverse r), py, cy.
  rewrite <- (reverse_involutive h), Hr.
  rewrite !reverse_cons, <- app_assoc. done.
Qed.

Lemma verificar_cruce_otros st tid tid' :
  tid ≠ tid' →
  dict_get tid' (tracks (_verificar_cruce st tid)) = dict_get tid' (tracks st).
Proof.
  intros Hne. unfold _verificar_cruce.
  destruct (dict_get tid (tracks st)) as [t|]; [|done].
  destruct (dos_ultimas_x (historial_posiciones t)) as [[prev cur]|]; [|done].
  repeat case_match; try done; simpl;
    rewrite ?dict_get_alter_ne, ?registrar_cruce_tracks, ?dict_get_alter_ne;
    done.
Qed.

Lemma limpiar_get_aux (d : list (Z * TrackInfo)) (l : list Z) tid :
  dict_get tid (foldl (fun d k => dict_del k d) d l)
  = if decide (tid ∈ l) then None else dict_get tid d.
Proof.
  revert d. induction l as [|k l IH]; intros d.
  - destruct (decide (tid ∈ [])) as [Hin|_]; [|done].
    by apply elem_of_nil in Hin.
  - cbn [foldl]. rewrite IH.
    destruct (decide (tid ∈ l)) as [Hin|Hnin];
      destruct (decide (tid ∈ k :: l)) as [Hin'|Hnin']; try done.
    + exfalso. apply Hnin'. by right.
    + apply elem_of_cons in Hin' as [->|?]; [|done].
      apply dict_get_del_eq.
    + apply dict_get_del_ne. intros ->. apply Hnin'. left.
Qed.

(** What [_limpiar_tracks_antiguos] leaves under each id. *)
Lemma limpiar_tracks_get st activos tid :
  dict_get tid (tracks (_limpiar_tracks_antiguos st activos))
  = match dict_get tid (tracks st) with
    | Some t =>
        if decide (tid ∈ tracks_a_eliminar (tracks st) activos)
        then None else Some t
    | None => None
    end.
Proof.
  unfold _limpiar_tracks_antiguos. simpl. rewrite limpiar_get_aux.
  destruct (dict_get tid (tracks st)); by case_decide.
Qed.

Lemma actualizar_track_get st tid cat cx cy tid' :
  dict_get tid' (tracks (_actualizar_track st tid cat cx cy))
  = if decide (tid = tid')
    then Some (match dict_get tid (tracks st) with
               | Some t => avanzar_track cx cy t
               | None => nuevo_track tid cat cx cy
               end)
    else dict_get tid' (tracks st).
Proof.
  unfold _actualizar_track.
  destruct (dict_get tid (tracks st)) as [t|] eqn:Hget; simpl;
    destruct (decide (tid = tid')) as [<-|Hne].
  - by rewrite dict_get_alter_eq, Hget.
  - by rewrite dict_get_alter_ne.
  - by rewrite dict_get_set_eq.
  - by rewrite dict_get_set_ne.
Qed.

Lemma crear_track_get st cat cx cy tid' :
  dict_get tid' (tracks (crear_track st cat cx cy))
  = if decide (siguiente_track_id st = tid')
    then Some (nuevo_track (siguiente_track_id st) cat cx cy)
    else dict_get tid' (tracks st).
Proof.
  unfold crear_track; simpl. case_decide as Hd.
  - subst. by rewrite dict_get_set_eq.
  - by rewrite dict_get_set_ne.
Qed.

Lemma verificar_cruce_mismo st tid t :
  dict_get tid (tracks st) = Some t →
  dict_get tid (tracks (_verificar_cruce st tid))
  = Some (track_verificado st t).
Proof.
  intros Hget. unfold _verificar_cruce, track_verificado. rewrite Hget.
  destruct (dos_ultimas_x (historial_posiciones t)) as [[prev cur]|]; [|done].
  repeat case_match; try done; simpl;
    rewrite ?dict_get_alter_eq, ?registrar_cruce_tracks, ?dict_get_alter_eq,
      Hget; done.
Qed.

Lemma actualizar_linea_tracks st p st' :
  actualizar_posicion_linea st p = Some st' → tracks st' = tracks st.
Proof.
  unfold actualizar_posicion_linea. case_match; [|done]. by intros [= <-].
Qed.

Lemma actualizar_dimensiones_tracks st w h st' :
  actualizar_dimensiones st w h = Some st' → tracks st' = tracks st.
Proof.
  unfold actualizar_dimensiones. case_match; [|done]. by intros [= <-].
Qed.

(** C4.  The gate [puede_cruzar] along any operation of the class, for
    any track id.  (1) A track that enters the map is armed.  For a
    track present before and after the operation: (2) a crossing check
    that finds a crossing geometry on an armed track leaves it disarmed
    and counted; (3) the gate goes from armed to disarmed only in that
    way; (4) the gate goes from disarmed to armed only on a crossing
    check whose last two samples satisfy neither crossing geometry and
    whose current x is farther than the margin from the line -- or when
    the built-in tracker stores a newly created track under that id. *)
Theorem puede_cruzar_invariante (op : Operacion)
    (st st' : BidirectionalCounter) (tid : Z) :
  ejecutar op st = Some st' →
  (∀ t', dict_get tid (tracks st) = None →
         dict_get tid (tracks st') = Some t' → puede_cruzar t' = true)
  ∧ (∀ t t', dict_get tid (tracks st) = Some t →
       dict_get tid (tracks st') = Some t' →
       (∀ h prev py cur cy,
          op = OpVerificarCruce tid →
          historial_posiciones t = h ++ [(prev, py); (cur, cy)] →
          puede_cruzar t = true →
          (prev < linea_x st ∧ cur >= linea_x st)
          ∨ (prev > linea_x st ∧ cur <= linea_x st) →
          puede_cruzar t' = false ∧ cruzado t' = true)
       ∧ (puede_cruzar t = true → puede_cruzar t' = false →
          op = OpVerificarCruce tid
          ∧ ∃ h prev py cur cy,
              historial_posiciones t = h ++ [(prev, py); (cur, cy)]
              ∧ ((prev < linea_x st ∧ cur >= linea_x st)
                 ∨ (prev > linea_x st ∧ cur <= linea_x st))
              ∧ cruzado t' = true)
       ∧ (puede_cruzar t = false → puede_cruzar t' = true →
          (op = OpVerificarCruce tid
           ∧ ∃ h prev py cur cy,
               historial_posiciones t = h ++ [(prev, py); (cur, cy)]
               ∧ ¬ (prev < linea_x st ∧ cur >= linea_x st)
               ∧ ¬ (prev > linea_x st ∧ cur <= linea_x st)
               ∧ Z.abs (cur - linea_x st) > margen_cruce st)
          ∨ (∃ cat cx cy,
               op = OpCrearTrack cat cx cy
               ∧ tid = siguiente_track_id st
               ∧ t' = nuevo_track tid cat cx cy))).
Proof.
  intros Hej.
  assert (Hver : ∀ t t', dict_get tid (tracks st) = Some t →
            t' = track_verificado st t →
       (∀ h prev py cur cy,
          historial_posiciones t = h ++ [(prev, py); (cur, cy)] →
          puede_cruzar t = true →
          (prev < linea_x st ∧ cur >= linea_x st)
          ∨ (prev > linea_x st ∧ cur <= linea_x st) →
          puede_cruzar t' = false ∧ cruzado t' = true)
       ∧ (puede_cruzar t = true → puede_cruzar t' = false →
          ∃ h prev py cur cy,
              historial_posiciones t = h ++ [(prev, py); (cur, cy)]
              ∧ ((prev < linea_x st ∧ cur >= linea_x st)
                 ∨ (prev > linea_x st ∧ cur <= linea_x st))
              ∧ cruzado t' = true)
       ∧ (puede_cruzar t = false → puede_cruzar t' = true →
          ∃ h prev py cur cy,
               historial_posiciones t = h ++ [(prev, py); (cur, cy)]
               ∧ ¬ (prev < linea_x st ∧ cur >= linea_x st)
               ∧ ¬ (prev > linea_x st ∧ cur <= linea_x st)
               ∧ Z.abs (cur - linea_x st) > margen_cruce st)).
  { intros t t' Hget ->. unfold track_verificado. split; [|split].
    - intros h prev py cur cy Hh Hp Hgeo.
      rewrite Hh, dos_ultimas_x_app, Hp.
      destruct (Z.ltb_spec prev (linea_x st)), (Z.leb_spec (linea_x st) cur);
        destruct (Z.ltb_spec (linea_x st) prev), (Z.leb_spec cur (linea_x st));
        simpl; try done; lia.
    - intros Hp.
      destruct (dos_ultimas_x (historial_posiciones t)) as [[prev cur]|] eqn:Hd;
        [|congruence].
      destruct (dos_ultimas_x_Some _ _ _ Hd) as (h & py & cy & Hh).
      rewrite Hp.
      destruct (Z.ltb_spec prev (linea_x st)), (Z.leb_spec (linea_x st) cur);
        destruct (Z.ltb_spec (linea_x st) prev), (Z.leb_spec cur (linea_x st));
        simpl; try congruence;
        try (destruct (margen_cruce st <? Z.abs (cur - linea_x st)); simpl;
             congruence);
        intros _; exists h, prev, py, cur, cy; (split; [done|]);
        (split; [|done]); lia.
    - intros Hp.
      destruct (dos_ultimas_x (historial_posiciones t)) as [[prev cur]|] eqn:Hd;
        [|congruence].
      destruct (dos_ultimas_x_Some _ _ _ Hd) as (h & py & cy & Hh).
      rewrite Hp.
      destruct (Z.ltb_spec prev (linea_x st)), (Z.leb_spec (linea_x st) cur);
        destruct (Z.ltb_spec (linea_x st) prev), (Z.leb_spec cur (linea_x st));
        simpl; try congruence;
        destruct (Z.ltb_spec (margen_cruce st) (Z.abs (cur - linea_x st)));
        simpl; try congruence;
        intros _; exists h, prev, py, cur, cy; (split; [done|]);
        repeat split; lia. }
  destruct op as [p|w hh|cat cx cy|tid0 cat cx cy|tid0|tid0 d|activos|];
    simpl in Hej.
  - (* line position *)
    rewrite (actualizar_linea_tracks _ _ _ Hej).
    split; [congruence|]. intros t t' H1 H2.
    assert (t' = t) as -> by congruence.
    repeat split; try congruence; try done.
  - (* frame size *)
    rewrite (actualizar_dimensiones_tracks _ _ _ _ Hej).
    split; [congruence|]. intros t t' H1 H2.
    assert (t' = t) as -> by congruence.
    repeat split; try congruence; try done.
  - (* creation by the built-in tracker *)
    injection Hej as <-. split.
    + intros t' Hnone. rewrite crear_track_get. case_decide; [|congruence].
      by intros [= <-].
    + intros t t' Hget. rewrite crear_track_get.
      case_decide as Hd.
      * intros [= <-]. repeat split; try done.
        intros _ _. right. exists cat, cx, cy. by subst.
      * rewrite Hget. intros [= <-]. repeat split; try congruence; try done.
  - (* update of a track *)
    injection Hej as <-. split.
    + intros t' Hnone. rewrite actualizar_track_get.
      case_decide as Hd; [|congruence]. subst. rewrite Hnone. by intros [= <-].
    + intros t t' Hget. rewrite actualizar_track_get.
      case_decide as Hd.
      * subst. rewrite Hget. intros [= <-]. simpl.
        repeat split; try congruence; try done.
      * rewrite Hget. intros [= <-]. repeat split; try congruence; try done.
  - (* crossing check *)
    injection Hej as <-.
    destruct (decide (tid0 = tid)) as [->|Hne].
    + split.
      * intros t' Hnone. unfold _verificar_cruce. rewrite Hnone. congruence.
      * intros t t' Hget. rewrite (verificar_cruce_mismo _ _ _ Hget).
        intros [= <-].
        destruct (Hver t _ Hget eq_refl) as (Ha & Hb & Hc).
        split; [|split].
        -- intros h prev py cur cy _. apply Ha.
        -- intros H1 H2. split; [done|]. by apply Hb.
        -- intros H1 H2. left. split; [done|]. by apply Hc.
    + rewrite (verificar_cruce_otros _ _ _ Hne).
      split; [congruence|]. intros t t' H1 H2.
      assert (t' = t) as -> by congruence.
      repeat split; try congruence; try done.
  - (* registration *)
    injection Hej as <-. rewrite registrar_cruce_tracks.
    destruct (decide (tid0 = tid)) as [->|Hne].
    + rewrite dict_get_alter_eq. split.
      * intros t' ->. done.
      * intros t t' ->. intros [= <-]. simpl.
        repeat split; try congruence; try done.
    + rewrite dict_get_alter_ne by done.
      split; [congruence|]. intros t t' H1 H2.
      assert (t' = t) as -> by congruence.
      repeat split; try congruence; try done.
  - (* eviction *)
    injection Hej as <-. rewrite limpiar_tracks_get. split.
    + intros t' ->. done.
    + intros t t' ->. case_decide; [done|]. intros [= <-].
      repeat split; try congruence; try done.
  - (* reset *)
    injection Hej as <-. simpl. split; [done|]. done.
Qed.

(** ** One physical pass of a track *)

Lemma avanzar_track_historial cx cy t h0 a :
  historial_posiciones t = h0 ++ [a] →
  ∃ h1, historial_posiciones (avanzar_track cx cy t) = h1 ++ [a; (cx, cy)].
Proof.
  intros Hh. unfold avanzar_track; simpl. rewrite Hh, <- app_assoc. simpl.
  destruct (50 <? length (h0 ++ [a; (cx, cy)]))%nat eqn:Hlen.
  - apply Nat.ltb_lt in Hlen. rewrite length_app in Hlen. simpl in Hlen.
    rewrite length_app. simpl. rewrite drop_app_le by lia. eauto.
  - eauto.
Qed.

Lemma avanzar_track_dos_ultimas cx cy t xl yl :
  last (historial_posiciones t) = Some (xl, yl) →
  dos_ultimas_x (historial_posiciones (avanzar_track cx cy t)) = Some (xl, cx).
Proof.
  intros [h0 Hh]%last_Some.
  destruct (avanzar_track_historial cx cy t h0 _ Hh) as [h1 ->].
  apply dos_ultimas_x_app.
Qed.

Lemma avanzar_track_last cx cy t xl yl :
  last (historial_posiciones t) = Some (xl, yl) →
  last (historial_posiciones (avanzar_track cx cy t)) = Some (cx, cy).
Proof.
  intros [h0 Hh]%last_Some.
  destruct (avanzar_track_historial cx cy t h0 _ Hh) as [h1 ->].
  replace (h1 ++ [(xl, yl); (cx, cy)])
    with ((h1 ++ [(xl, yl)]) ++ [(cx, cy)]) by (by rewrite <- app_assoc).
  apply last_snoc.
Qed.

Lemma actualizar_track_config st tid cat cx cy :
  let st1 := _actualizar_track st tid cat cx cy in
  contadores st1 = contadores st
  ∧ llamadas_callback st1 = llamadas_callback st
  ∧ linea_x st1 = linea_x st
  ∧ margen_cruce st1 = margen_cruce st
  ∧ callback_cruce st1 = callback_cruce st
  ∧ siguiente_track_id st1 = siguiente_track_id st.
Proof.
  unfold _actualizar_track. by destruct (dict_get tid (tracks st)).
Qed.

(** A sample that produces no count. *)
Lemma paso_sin_cruce st tid cat cx cy t xl yl :
  dict_get tid (tracks st) = Some t →
  last (historial_posiciones t) = Some (xl, yl) →
  ¬ (xl < linea_x st ∧ linea_x st <= cx ∧ puede_cruzar t = true) →
  ¬ (linea_x st < xl ∧ cx <= linea_x st ∧ puede_cruzar t = true) →
  let st2 := _verificar_cruce (_actualizar_track st tid cat cx cy) tid in
  contadores st2 = contadores st
  ∧ llamadas_callback st2 = llamadas_callback st
  ∧ linea_x st2 = linea_x st
  ∧ callback_cruce st2 = callback_cruce st
  ∧ ∃ t2, dict_get tid (tracks st2) = Some t2
          ∧ last (historial_posiciones t2) = Some (cx, cy)
          ∧ categoria t2 = categoria t
          ∧ (puede_cruzar t = true → puede_cruzar t2 = true).
Proof.
  intros Hget Hlast Hn1 Hn2 st2. subst st2.
  set (st1 := _actualizar_track st tid cat cx cy).
  destruct (actualizar_track_config st tid cat cx cy)
    as (Hc & Hl & Hlin & Hm & Hcb & _). fold st1 in Hc, Hl, Hlin, Hm, Hcb.
  assert (Hget1 : dict_get tid (tracks st1) = Some (avanzar_track cx cy t)).
  { unfold st1. rewrite actualizar_track_get, decide_True by done.
    by rewrite Hget. }
  pose proof (avanzar_track_dos_ultimas cx cy t xl yl Hlast) as Hdos.
  pose proof (avanzar_track_last cx cy t xl yl Hlast) as Hlast1.
  destruct (verificar_cruce_resto st1 tid _ xl cx Hget1 Hdos)
    as [->|(_ & _ & _ & ->)].
  - rewrite Hlin. exact Hn1.
  - rewrite Hlin. exact Hn2.
  - repeat split; try done. by exists (avanzar_track cx cy t).
  - repeat split; try done.
    exists (con_puede_cruzar true (avanzar_track cx cy t)). simpl.
    by rewrite dict_get_alter_eq, Hget1.
Qed.

(** A sample that takes an armed track from the left of the line to the
    line or beyond. *)
Lemma paso_cruce_izq_der st tid cat cx cy t xl yl c :
  dict_get tid (tracks st) = Some t →
  last (historial_posiciones t) = Some (xl, yl) →
  xl < linea_x st → linea_x st <= cx → puede_cruzar t = true →
  contadores st !! categoria t = Some c →
  let st2 := _verificar_cruce (_actualizar_track st tid cat cx cy) tid in
  contadores st2
  = <[categoria t := incrementar IZQUIERDA_A_DERECHA c]> (contadores st)
  ∧ llamadas_callback st2
    = (if callback_cruce st
       then llamadas_callback st ++ [(categoria t, IZQUIERDA_A_DERECHA, tid)]
       else llamadas_callback st)
  ∧ linea_x st2 = linea_x st
  ∧ callback_cruce st2 = callback_cruce st
  ∧ ∃ t2, dict_get tid (tracks st2) = Some t2
          ∧ last (historial_posiciones t2) = Some (cx, cy)
          ∧ categoria t2 = categoria t.
Proof.
  intros Hget Hlast H1 H2 Hp Hcat st2. subst st2.
  set (st1 := _actualizar_track st tid cat cx cy).
  destruct (actualizar_track_config st tid cat cx cy)
    as (Hc & Hl & Hlin & Hm & Hcb & _). fold st1 in Hc, Hl, Hlin, Hm, Hcb.
  assert (Hget1 : dict_get tid (tracks st1) = Some (avanzar_track cx cy t)).
  { unfold st1. rewrite actualizar_track_get, decide_True by done.
    by rewrite Hget. }
  pose proof (avanzar_track_dos_ultimas cx cy t xl yl Hlast) as Hdos.
  pose proof (avanzar_track_last cx cy t xl yl Hlast) as Hlast1.
  rewrite (verificar_cruce_izq_der st1 tid _ xl cx Hget1 Hdos);
    [|lia|lia|done].
  cbn [con_tracks contadores llamadas_callback linea_x callback_cruce tracks].
  rewrite (registrar_cruce_contadores _ _ _ _ Hget1).
  rewrite (registrar_cruce_llamadas _ _ _ _ Hget1).
  destruct (registrar_cruce_config st1 tid IZQUIERDA_A_DERECHA)
    as (-> & _ & _ & ->).
  cbn [avanzar_track categoria]. rewrite Hc, Hcat, Hl, Hcb, Hlin.
  repeat split.
  exists (desarmar "derecha"
            (marcar_cruzado IZQUIERDA_A_DERECHA (avanzar_track cx cy t))).
  rewrite dict_get_alter_eq, registrar_cruce_tracks, dict_get_alter_eq, Hget1.
  done.
Qed.

(** Once the track is on the line or to its right, further samples that
    never move left change no counter. *)
Lemma seguir_a_la_derecha tid cat muestras :
  ∀ st t xl yl,
    dict_get tid (tracks st) = Some t →
    last (historial_posiciones t) = Some (xl, yl) →
    linea_x st <= xl →
    monotona xl (fst <$> muestras) →
    contadores (seguir tid cat st muestras) = contadores st
    ∧ llamadas_callback (seguir tid cat st muestras) = llamadas_callback st.
Proof.
  induction muestras as [|[cx cy] ms IH]; intros st t xl yl Hget Hlast Hx Hmono.
  - done.
  - destruct Hmono as [Hle Hmono]. simpl in Hle. cbn [seguir foldl fst snd].
    destruct (paso_sin_cruce st tid cat cx cy t xl yl Hget Hlast)
      as (Hc & Hl & Hlin & _ & t2 & Hget2 & Hlast2 & _).
    { intros (? & ? & ?). lia. }
    { intros (? & ? & ?). lia. }
    destruct (IH _ t2 cx cy Hget2 Hlast2) as [Hc' Hl'].
    { rewrite Hlin. lia. }
    { done. }
    unfold seguir in Hc', Hl'. rewrite Hc', Hl'. done.
Qed.

(** An armed track that starts left of the line and never moves left is
    counted once, at the first sample on the line or beyond. *)
Lemma seguir_pasada_armada tid cat muestras :
  ∀ st t x0 y0 c,
    dict_get tid (tracks st) = Some t →
    last (historial_posiciones t) = Some (x0, y0) →
    puede_cruzar t = true →
    contadores st !! categoria t = Some c →
    x0 < linea_x st →
    monotona x0 (fst <$> muestras) →
    (∃ xn yn, last muestras = Some (xn, yn) ∧ linea_x st <= xn) →
    contadores (seguir tid cat st muestras)
    = <[categoria t := incrementar IZQUIERDA_A_DERECHA c]> (contadores st)
    ∧ llamadas_callback (seguir tid cat st muestras)
      = (if callback_cruce st
         then llamadas_callback st ++ [(categoria t, IZQUIERDA_A_DERECHA, tid)]
         else llamadas_callback st).
Proof.
  induction muestras as [|[cx cy] ms IH];
    intros st t x0 y0 c Hget Hlast Hp Hcat Hx Hmono (xn & yn & Hfin & Hxn).
  - done.
  - destruct Hmono as [Hle Hmono]. simpl in Hle. cbn [seguir foldl fst snd].
    destruct (decide (cx < linea_x st)) as [Hizq|Hder].
    + destruct (paso_sin_cruce st tid cat cx cy t x0 y0 Hget Hlast)
        as (Hc & Hl & Hlin & Hcb & t2 & Hget2 & Hlast2 & Hcat2 & Hp2).
      { intros (? & ? & ?). lia. }
      { intros (? & ? & ?). lia. }
      destruct ms as [|m ms'].
      { simpl in Hfin. injection Hfin as -> ->. lia. }
      destruct (IH _ t2 cx cy c Hget2 Hlast2 (Hp2 Hp)) as [Hc' Hl'].
      { by rewrite Hcat2, Hc. }
      { by rewrite Hlin. }
      { done. }
      { exists xn, yn. rewrite Hlin. split; [|done].
        by rewrite last_cons_cons in Hfin. }
      unfold seguir in Hc', Hl'. rewrite Hc', Hl', Hc, Hl, Hcb, Hcat2. done.
    + destruct (paso_cruce_izq_der st tid cat cx cy t x0 y0 c Hget Hlast)
        as (Hc & Hl & Hlin & Hcb & t2 & Hget2 & Hlast2 & Hcat2);
        [lia|lia|done|done|].
      destruct (seguir_a_la_derecha tid cat ms _ t2 cx cy Hget2 Hlast2)
        as [Hc' Hl'].
      { rewrite Hlin. lia. }
      { done. }
      unfold seguir in Hc', Hl'. rewrite Hc', Hl', Hc, Hl. done.
Qed.

(** C2.  A track created at [x0], strictly left of the line, whose
    further samples never move left and end strictly right of the line
    and beyond the margin: handling the samples in order adds one to
    the cell (category, left-to-right) and changes no other cell; a
    configured callback is called once.  The category is one of the
    keys of the counters. *)
Theorem una_pasada_un_conteo (st : BidirectionalCounter) (tid : Z)
    (cat cat' : string) (c : Celda) (x0 y0 xn yn : Z)
    (muestras : list (Z * Z)) :
  dict_get tid (tracks st) = Some (nuevo_track tid cat x0 y0) →
  contadores st !! cat = Some c →
  x0 < linea_x st →
  monotona x0 (fst <$> muestras) →
  last muestras = Some (xn, yn) →
  linea_x st < xn →
  margen_cruce st < xn - linea_x st →
  let st' := seguir tid cat' st muestras in
  contadores st'
  = <[cat := {| izq_der := izq_der c + 1; der_izq := der_izq c |}]>
      (contadores st)
  ∧ (∀ cat2, cat2 ≠ cat → contadores st' !! cat2 = contadores st !! cat2)
  ∧ llamadas_callback st'
    = (if callback_cruce st
       then llamadas_callback st ++ [(cat, IZQUIERDA_A_DERECHA, tid)]
       else llamadas_callback st).
Proof.
  intros Hget Hcat Hx Hmono Hfin Hxn _ st'. subst st'.
  destruct (seguir_pasada_armada tid cat' muestras st _ x0 y0 c Hget)
    as [Hc Hl]; try done.
  { exists xn, yn. split; [done|lia]. }
  simpl in Hc, Hl. rewrite Hc, Hl. repeat split.
  intros cat2 Hne. by rewrite lookup_insert_ne.
Qed.

(** ** The built-in matcher *)

Lemma paso_busqueda_inv cx cy cat usados l acc e :
  busqueda_inv cx cy cat usados l acc →
  busqueda_inv cx cy cat usados (l ++ [e])
    (paso_busqueda cx cy cat usados acc e).
Proof.
  intros Hinv. destruct e as [tid info]. unfold paso_busqueda.
  (* an entry that is no candidate adds nothing *)
  assert (Hskip : (∀ ux uy, ¬ candidato cat usados (tid, info) ux uy) →
                  busqueda_inv cx cy cat usados (l ++ [(tid, info)]) acc).
  { intros Hno. destruct acc as [[d|] [t0|]]; simpl in *; try done.
    - destruct Hinv as (Hd & (i0 & ux & uy & Hin & Hc & Heq) & Hmin).
      split; [done|]. split.
      + exists i0, ux, uy. split; [|done]. apply elem_of_app. by left.
      + intros e ux' uy' [Hin'|Hin']%elem_of_app Hc'; [by eapply Hmin|].
        apply list_elem_of_singleton in Hin' as ->. by destruct (Hno ux' uy').
    - intros e ux' uy' [Hin'|Hin']%elem_of_app Hc'; [by eapply Hinv|].
      apply list_elem_of_singleton in Hin' as ->. by destruct (Hno ux' uy'). }
  destruct (decide (tid ∈ usados)) as [Hus|Hus].
  { apply Hskip. intros ux uy (Hc & _). done. }
  destruct (bool_decide (categoria info = cat)) eqn:Hcat; simpl.
  2:{ apply Hskip. intros ux uy (_ & Hc & _). simpl in Hc.
      apply bool_decide_eq_false in Hcat. done. }
  apply bool_decide_eq_true in Hcat.
  destruct (last (historial_posiciones info)) as [[ux uy]|] eqn:Hlast.
  2:{ apply Hskip. intros ux uy (_ & _ & Hc). simpl in Hc. congruence. }
  assert (Hcand : candidato cat usados (tid, info) ux uy) by done.
  assert (Huniq : ∀ ux' uy', candidato cat usados (tid, info) ux' uy' →
                             ux' = ux ∧ uy' = uy).
  { intros ux' uy' (_ & _ & Hc). simpl in Hc. split; congruence. }
  set (d2 := distancia2 cx cy ux uy).
  destruct (Z.ltb_spec d2 (umbral_distancia ^ 2)) as [Hthr|Hthr].
  - destruct acc as [[d|] [t0|]]; simpl in *; try done.
    + destruct Hinv as (Hd & (i0 & ux0 & uy0 & Hin & Hc & Heq) & Hmin).
      destruct (Z.ltb_spec d2 d) as [Hlt|Hge]; simpl.
      * split; [done|]. split.
        -- exists info, ux, uy. split; [|done]. apply elem_of_app. right.
           by apply list_elem_of_singleton.
        -- intros e ux' uy' [Hin'|Hin']%elem_of_app Hc'.
           ++ specialize (Hmin _ _ _ Hin' Hc'). lia.
           ++ apply list_elem_of_singleton in Hin' as ->.
              destruct (Huniq _ _ Hc') as [-> ->]. fold d2. lia.
      * split; [done|]. split.
        -- exists i0, ux0, uy0. split; [|done]. apply elem_of_app. by left.
        -- intros e ux' uy' [Hin'|Hin']%elem_of_app Hc'; [by eapply Hmin|].
           apply list_elem_of_singleton in Hin' as ->.
           destruct (Huniq _ _ Hc') as [-> ->]. fold d2. lia.
    + split; [done|]. split.
      * exists info, ux, uy. split; [|done]. apply elem_of_app. right.
        by apply list_elem_of_singleton.
      * intros e ux' uy' [Hin'|Hin']%elem_of_app Hc'.
        -- specialize (Hinv _ _ _ Hin' Hc'). lia.
        -- apply list_elem_of_singleton in Hin' as ->.
           destruct (Huniq _ _ Hc') as [-> ->]. fold d2. lia.
  - rewrite andb_false_r.
    destruct acc as [[d|] [t0|]]; simpl in *; try done.
    + destruct Hinv as (Hd & (i0 & ux0 & uy0 & Hin & Hc & Heq) & Hmin).
      split; [done|]. split.
      * exists i0, ux0, uy0. split; [|done]. apply elem_of_app. by left.
      * intros e ux' uy' [Hin'|Hin']%elem_of_app Hc'; [by eapply Hmin|].
        apply list_elem_of_singleton in Hin' as ->.
        destruct (Huniq _ _ Hc') as [-> ->]. fold d2. lia.
    + intros e ux' uy' [Hin'|Hin']%elem_of_app Hc'; [by eapply Hinv|].
      apply list_elem_of_singleton in Hin' as ->.
      destruct (Huniq _ _ Hc') as [-> ->]. by fold d2.
Qed.

Lemma foldl_busqueda_inv cx cy cat usados l :
  ∀ l0 acc,
    busqueda_inv cx cy cat usados l0 acc →
    busqueda_inv cx cy cat usados (l0 ++ l)
      (foldl (paso_busqueda cx cy cat usados) acc l).
Proof.
  induction l as [|e l IH]; intros l0 acc Hinv; simpl.
  - by rewrite app_nil_r.
  - replace (l0 ++ e :: l) with ((l0 ++ [e]) ++ l) by (by rewrite <- app_assoc).
    apply IH. by apply paso_busqueda_inv.
Qed.

Lemma encontrar_track_cercano_inv st cx cy cat usados :
  busqueda_inv cx cy cat usados (tracks st)
    (foldl (paso_busqueda cx cy cat usados) (None, None) (tracks st)).
Proof.
  apply (foldl_busqueda_inv cx cy cat usados (tracks st) [] (None, None)).
  intros e ux uy Hin. by apply elem_of_nil in Hin.
Qed.



(** ** Eviction *)

Section DictNoDup.
Context {V : Type}.
Implicit Types (d : list (Z * V)) (k : Z) (v : V).

Lemma dict_alter_claves (f : V → V) d k :
  fst <$> dict_alter f k d = fst <$> d.
Proof.
  induction d as [|[k' v'] d IH]; simpl; [done|].
  destruct (decide (k = k')); simpl; [done|]. f_equal. apply IH.
Qed.

Lemma dict_set_claves d k v k' :
  k' ∈ fst <$> dict_set k v d → k' = k ∨ k' ∈ fst <$> d.
Proof.
  intros ([k0 v0] & -> & Hin)%list_elem_of_fmap.
  apply dict_set_keys in Hin as [->|Hin]; [by left|]. right.
  apply list_elem_of_fmap. by exists (k0, v0).
Qed.

Lemma dict_set_diccionario d k v :
  diccionario d → diccionario (dict_set k v d).
Proof.
  unfold diccionario. induction d as [|[k' v'] d IH]; simpl.
  - intros _. apply NoDup_singleton.
  - intros [Hnin Hnd]%NoDup_cons. destruct (decide (k = k')) as [->|Hne]; simpl.
    + by apply NoDup_cons.
    + apply NoDup_cons. split; [|by apply IH].
      intros [->|Hin]%dict_set_claves; done.
Qed.

Lemma dict_del_claves d k k' :
  k' ∈ fst <$> dict_del k d → k' ∈ fst <$> d.
Proof.
  intros ([k0 v0] & -> & Hin)%list_elem_of_fmap.
  apply dict_del_keys in Hin. apply list_elem_of_fmap. by exists (k0, v0).
Qed.

Lemma dict_del_diccionario d k :
  diccionario d → diccionario (dict_del k d).
Proof.
  unfold diccionario. induction d as [|[k' v'] d IH]; simpl; [done|].
  intros [Hnin Hnd]%NoDup_cons. destruct (decide (k = k')); [by apply IH|].
  simpl. apply NoDup_cons. split; [|by apply IH].
  intros Hin%dict_del_claves. done.
Qed.

Lemma dict_elem_get d k v :
  diccionario d → (k, v) ∈ d → dict_get k d = Some v.
Proof.
  unfold diccionario. induction d as [|[k' v'] d IH]; simpl.
  - by intros _ ?%elem_of_nil.
  - intros [Hnin Hnd]%NoDup_cons [Heq|Hin]%elem_of_cons.
    + injection Heq as -> ->. by rewrite decide_True.
    + destruct (decide (k = k')) as [->|Hne]; [|by apply IH].
      exfalso. apply Hnin. apply list_elem_of_fmap. by exists (k', v).
Qed.

End DictNoDup.

Lemma tracks_a_eliminar_elem ts activos tid :
  tid ∈ tracks_a_eliminar ts activos
  ↔ ∃ info, (tid, info) ∈ ts ∧ (tid ∉ activos) ∧ cruzado info = true.
Proof.
  unfold tracks_a_eliminar. rewrite list_elem_of_fmap. split.
  - intros ([k info] & -> & Hin).
    apply list_elem_of_filter in Hin as [[Hact Hcr] Hin]. simpl in *.
    by exists info.
  - intros (info & Hin & Hact & Hcr). exists (tid, info). split; [done|].
    apply list_elem_of_filter. done.
Qed.

(** What eviction does to a track of a well-formed map. *)
Lemma limpiar_tracks_politica st activos tid t :
  diccionario (tracks st) →
  dict_get tid (tracks st) = Some t →
  dict_get tid (tracks (_limpiar_tracks_antiguos st activos))
  = if decide ((tid ∉ activos) ∧ cruzado t = true) then None else Some t.
Proof.
  intros Hd Hget. rewrite limpiar_tracks_get, Hget.
  destruct (decide (tid ∈ tracks_a_eliminar (tracks st) activos)) as [Hin|Hnin].
  - apply tracks_a_eliminar_elem in Hin as (info & Hin & Hact & Hcr).
    rewrite (dict_elem_get _ _ _ Hd Hin) in Hget. injection Hget as ->.
    by rewrite decide_True.
  - rewrite decide_False; [done|]. intros [Hact Hcr]. apply Hnin.
    apply tracks_a_eliminar_elem. exists t. split; [|done].
    by apply dict_get_Some_elem.
Qed.

Lemma verificar_cruce_claves st tid :
  fst <$> tracks (_verificar_cruce st tid) = fst <$> tracks st.
Proof.
  unfold _verificar_cruce.
  destruct (dict_get tid (tracks st)) as [t|]; [|done].
  destruct (dos_ultimas_x (historial_posiciones t)) as [[prev cur]|]; [|done].
  repeat case_match; try done; simpl;
    rewrite ?dict_alter_claves, ?registrar_cruce_tracks, ?dict_alter_claves;
    done.
Qed.

Lemma verificar_cruce_siguiente st tid :
  siguiente_track_id (_verificar_cruce st tid) = siguiente_track_id st.
Proof.
  unfold _verificar_cruce.
  destruct (dict_get tid (tracks st)) as [t|]; [|done].
  destruct (dos_ultimas_x (historial_posiciones t)) as [[prev cur]|]; [|done].
  repeat case_match; try done; simpl;
    exact (proj1 (proj2 (proj2 (registrar_cruce_config st tid _)))).
Qed.

Lemma actualizar_track_claves st tid cat cx cy k :
  k ∈ fst <$> tracks (_actualizar_track st tid cat cx cy) →
  k = tid ∨ k ∈ fst <$> tracks st.
Proof.
  unfold _actualizar_track. destruct (dict_get tid (tracks st)); simpl.
  - rewrite dict_alter_claves. by right.
  - apply dict_set_claves.
Qed.

Lemma actualizar_track_diccionario st tid cat cx cy :
  diccionario (tracks st) →
  diccionario (tracks (_actualizar_track st tid cat cx cy)).
Proof.
  unfold _actualizar_track, diccionario.
  destruct (dict_get tid (tracks st)); simpl.
  - by rewrite dict_alter_claves.
  - apply dict_set_diccionario.
Qed.

Lemma ids_menores_claves st :
  ids_menores st ↔ ∀ k, k ∈ fst <$> tracks st → k < siguiente_track_id st.
Proof.
  unfold ids_menores. split.
  - intros H k ([k0 v0] & -> & Hin)%list_elem_of_fmap. by eapply H.
  - intros H tid info Hin. apply H. apply list_elem_of_fmap.
    by exists (tid, info).
Qed.

(** One iteration of the loop of the built-in tracker. *)
Lemma paso_tracker_simple_efecto st usados out det :
  ∃ tid st',
    paso_tracker_simple (st, usados, out) det
    = (st', {[tid]} ∪ usados, out ++ [con_track_id det tid])
    ∧ (∀ tid', tid' ≠ tid →
         dict_get tid' (tracks st') = dict_get tid' (tracks st))
    ∧ is_Some (dict_get tid (tracks st'))
    ∧ (diccionario (tracks st) → diccionario (tracks st'))
    ∧ (ids_menores st → ids_menores st')
    ∧ siguiente_track_id st <= siguiente_track_id st'.
Proof.
  unfold paso_tracker_simple, asociar. destruct (centro det) as [cx cy].
  destruct (_encontrar_track_cercano st cx cy (det_categoria det) usados)
    as [tid|] eqn:Henc.
  - exists tid, (_verificar_cruce
                   (_actualizar_track st tid (det_categoria det) cx cy) tid).
    split; [done|]. split; [|split; [|split; [|split]]].
    + intros tid' Hne. rewrite verificar_cruce_otros by done.
      rewrite actualizar_track_get. by rewrite decide_False.
    + assert (Hk : tid ∈ fst <$> tracks (_verificar_cruce
                (_actualizar_track st tid (det_categoria det) cx cy) tid)).
      { rewrite verificar_cruce_claves.
        pose proof (actualizar_track_get st tid (det_categoria det) cx cy tid)
          as Hg. rewrite decide_True in Hg by done.
        apply dict_get_Some_elem in Hg. apply list_elem_of_fmap.
        by eexists (tid, _). }
      apply list_elem_of_fmap in Hk as ([k v] & -> & Hin).
      by eapply dict_elem_get_is_Some.
    + intros Hd. unfold diccionario. rewrite verificar_cruce_claves.
      by apply actualizar_track_diccionario.
    + intros Hids. apply ids_menores_claves. intros k.
      rewrite verificar_cruce_claves, verificar_cruce_siguiente.
      destruct (actualizar_track_config st tid (det_categoria det) cx cy)
        as (_ & _ & _ & _ & _ & ->).
      intros [->|Hin]%actualizar_track_claves.
      * (* the matched id is an id of the map *)
        pose proof (encontrar_track_cercano_inv st cx cy (det_categoria det)
                      usados) as Hinv.
        unfold _encontrar_track_cercano in Henc.
        destruct (foldl _ _ _) as [[d|] [t0|]]; simpl in Hinv, Henc; try done.
        injection Henc as ->.
        destruct Hinv as (_ & (info & _ & _ & Hin & _) & _). by eapply Hids.
      * by apply (proj1 (ids_menores_claves st) Hids).
    + rewrite verificar_cruce_siguiente.
      by destruct (actualizar_track_config st tid (det_categoria det) cx cy)
        as (_ & _ & _ & _ & _ & ->).
  - exists (siguiente_track_id st),
      (_verificar_cruce (crear_track st (det_categoria det) cx cy)
         (siguiente_track_id st)).
    split; [done|]. split; [|split; [|split; [|split]]].
    + intros tid' Hne. rewrite verificar_cruce_otros by done.
      rewrite crear_track_get. by rewrite decide_False.
    + assert (Hk : siguiente_track_id st ∈ fst <$> tracks (_verificar_cruce
                (crear_track st (det_categoria det) cx cy)
                (siguiente_track_id st))).
      { rewrite verificar_cruce_claves.
        pose proof (crear_track_get st (det_categoria det) cx cy
                      (siguiente_track_id st)) as Hg.
        rewrite decide_True in Hg by done.
        apply dict_get_Some_elem in Hg. apply list_elem_of_fmap.
        by eexists (_, _). }
      apply list_elem_of_fmap in Hk as ([k v] & -> & Hin).
      by eapply dict_elem_get_is_Some.
    + intros Hd. unfold diccionario. rewrite verificar_cruce_claves. simpl.
      by apply dict_set_diccionario.
    + intros Hids. apply ids_menores_claves. intros k.
      rewrite verificar_cruce_claves, verificar_cruce_siguiente. simpl.
      intros [->|Hin]%dict_set_claves; [lia|].
      apply (proj1 (ids_menores_claves st) Hids) in Hin. lia.
    + rewrite verificar_cruce_siguiente. simpl. lia.
Qed.

Lemma bucle_inv_inicio st0 : bucle_inv st0 (st0, ∅, []).
Proof.
  repeat split; try done.
  intros Hin. by apply elem_of_nil in Hin.
Qed.

Lemma bucle_inv_paso st0 acc det :
  bucle_inv st0 acc → bucle_inv st0 (paso_tracker_simple acc det).
Proof.
  destruct acc as [[st usados] out].
  intros (Hus & Hno & Hsi & Hd & Hids & Hsig).
  destruct (paso_tracker_simple_efecto st usados out det)
    as (tid1 & st' & -> & Hotros & Hsome & Hd' & Hids' & Hsig').
  repeat split.
  - intros [->%elem_of_singleton|Hin]%elem_of_union.
    + rewrite fmap_app. apply elem_of_app. right. simpl. left.
    + rewrite fmap_app. apply elem_of_app. left. by apply Hus.
  - rewrite fmap_app. intros [Hin|Hin]%elem_of_app.
    + apply elem_of_union. right. by apply Hus.
    + simpl in Hin. apply list_elem_of_singleton in Hin. injection Hin as ->.
      apply elem_of_union. left. by apply elem_of_singleton.
  - intros tid Hnin. rewrite Hotros.
    + apply Hno. intros Hin. apply Hnin. apply elem_of_union. by right.
    + intros ->. apply Hnin. apply elem_of_union. left.
      by apply elem_of_singleton.
  - intros tid Hin. destruct (decide (tid = tid1)) as [->|Hne]; [done|].
    rewrite Hotros by done. apply Hsi.
    apply elem_of_union in Hin as [Hin%elem_of_singleton|Hin]; done.
  - intros H0. by apply Hd', Hd.
  - intros H0. by apply Hids', Hids.
  - lia.
Qed.

Lemma bucle_inv_foldl st0 dets :
  ∀ acc, bucle_inv st0 acc →
         bucle_inv st0 (foldl paso_tracker_simple acc dets).
Proof.
  induction dets as [|det dets IH]; intros acc Hinv; simpl; [done|].
  by apply IH, bucle_inv_paso.
Qed.

(** C6, as the code has it.  A frame with at least one detection, handled
    by the built-in tracker: a track of the map that no detection of the
    frame is attached to is removed when it has crossed and is kept,
    unchanged, when it has not; a track some detection is attached to is
    kept. *)
Theorem desalojo_tracker_simple (Frame : Type)
    (update_tracks :
       list ((Z * Z * Z * Z) * float * string) → Frame → list DSTrack)
    (st st' : BidirectionalCounter) (detecciones out : list Deteccion)
    (frame : option Frame) :
  diccionario (tracks st) →
  detecciones ≠ [] →
  usar_deepsort st = false ∨ frame = None →
  procesar_detecciones Frame update_tracks st detecciones frame = (st', out) →
  (∀ tid t,
     dict_get tid (tracks st) = Some t →
     Some tid ∉ det_track_id <$> out →
     (cruzado t = true → dict_get tid (tracks st') = None)
     ∧ (cruzado t = false → dict_get tid (tracks st') = Some t))
  ∧ (∀ tid, Some tid ∈ det_track_id <$> out →
            is_Some (dict_get tid (tracks st'))).
Proof.
  intros Hd Hne Hsimple Hproc.
  assert (Hs : _procesar_con_tracker_simple st detecciones = (st', out)).
  { unfold procesar_detecciones in Hproc.
    destruct detecciones as [|det dets]; [done|].
    destruct Hsimple as [Hds| ->].
    - rewrite Hds in Hproc. done.
    - by destruct (usar_deepsort st). }
  clear Hproc. unfold _procesar_con_tracker_simple in Hs.
  pose proof (bucle_inv_foldl st detecciones _ (bucle_inv_inicio st)) as Hinv.
  destruct (foldl paso_tracker_simple (st, ∅, []) detecciones)
    as [[st1 usados] out1].
  injection Hs as <- <-.
  destruct Hinv as (Hus & Hno & Hsi & Hd1 & _ & _).
  split.
  - intros tid t Hget Hnout.
    assert (Hnin : tid ∉ usados) by (intros Hin; by apply Hnout, Hus).
    assert (Hget1 : dict_get tid (tracks st1) = Some t)
      by (by rewrite Hno).
    rewrite (limpiar_tracks_politica st1 usados tid t (Hd1 Hd) Hget1).
    split; intros Hc.
    + by rewrite decide_True.
    + rewrite decide_False; [done|]. intros [_ ?]. congruence.
  - intros tid Hin. apply Hus in Hin.
    destruct (Hsi tid Hin) as [t Hget].
    rewrite (limpiar_tracks_politica st1 usados tid t (Hd1 Hd) Hget).
    rewrite decide_False; [by eexists|]. intros [? _]. done.
Qed.

(** ** Reset *)

Lemma inicializar_contadores_aux cats :
  ∀ (m : gmap string Celda) cat,
    foldl (fun m c => <[c := celda_cero]> m) m cats !! cat
    = if decide (cat ∈ cats) then Some celda_cero else m !! cat.
Proof.
  induction cats as [|c cats IH]; intros m cat; simpl.
  - destruct (decide (cat ∈ [])) as [Hin|_]; [|done].
    by apply elem_of_nil in Hin.
  - rewrite IH.
    destruct (decide (cat ∈ cats)) as [Hin|Hnin];
      destruct (decide (cat ∈ c :: cats)) as [Hin'|Hnin']; try done.
    + exfalso. apply Hnin'. by right.
    + apply elem_of_cons in Hin' as [->|?]; [|done]. apply lookup_insert_eq.
    + apply lookup_insert_ne. intros ->. apply Hnin'. left.
Qed.

(** The counters built by [_inicializar_contadores]: a zeroed cell for
    each category of the list, nothing else. *)
Lemma inicializar_contadores_lookup cats cat :
  _inicializar_contadores cats !! cat
  = if decide (cat ∈ cats) then Some celda_cero else None.
Proof.
  unfold _inicializar_contadores. rewrite inicializar_contadores_aux.
  by rewrite lookup_empty.
Qed.

Lemma suma_cero (f : Celda → Z) (m : gmap string Celda) :
  (∀ cat c, m !! cat = Some c → f c = 0) → suma f m = 0.
Proof.
  unfold suma.
  apply (map_fold_weak_ind
           (fun r m => (∀ cat c, m !! cat = Some c → f c = 0) → r = 0)).
  - done.
  - intros cat c m' r Hnone IH Hall.
    rewrite (Hall cat c) by apply lookup_insert_eq.
    rewrite IH; [done|]. intros cat' c' Hget. apply (Hall cat' c').
    rewrite lookup_insert_ne; [done|]. intros ->. congruence.
Qed.

(** C7.  After [reiniciar_contadores], from any state: the counters
    hold exactly one cell per configured category and every cell is
    zero in both directions, the totals are (0, 0, 0), the track map is
    empty, the next id is 1; and a second reset changes nothing. *)
Theorem reiniciar_contadores_completo (st : BidirectionalCounter) :
  let st' := reiniciar_contadores st in
  (∀ cat, contadores st' !! cat
          = if decide (cat ∈ categorias st) then Some celda_cero else None)
  ∧ (∀ cat c, contadores st' !! cat = Some c → izq_der c = 0 ∧ der_izq c = 0)
  ∧ (∀ cat, obtener_contador_categoria st' cat = celda_cero)
  ∧ obtener_total_cruces st'
    = {| total_izq_der := 0; total_der_izq := 0; total := 0 |}
  ∧ tracks st' = []
  ∧ siguiente_track_id st' = 1
  ∧ reiniciar_contadores st' = st'.
Proof.
  intros st'. subst st'.
  assert (Hcero : ∀ cat c,
            contadores (reiniciar_contadores st) !! cat = Some c →
            c = celda_cero).
  { intros cat c. simpl. rewrite inicializar_contadores_lookup.
    case_decide; congruence. }
  split; [|split; [|split; [|split; [|split; [|split]]]]]; try done.
  - intros cat. simpl. apply inicializar_contadores_lookup.
  - intros cat c Hget. by rewrite (Hcero _ _ Hget).
  - intros cat. unfold obtener_contador_categoria.
    destruct (contadores (reiniciar_contadores st) !! cat) as [c|] eqn:Hget;
      [|done]. simpl. by apply (Hcero cat).
  - unfold obtener_total_cruces.
    rewrite !suma_cero; [done| |].
    + intros cat c Hget. by rewrite (Hcero _ _ Hget).
    + intros cat c Hget. by rewrite (Hcero _ _ Hget).
Qed.

(** ** The empty frame *)

(** C10.  [procesar_detecciones([])] returns the empty list and the
    object is left exactly as it was, whatever the frame argument and
    the tracker in use: every counter cell, every track with its flags
    and history -- also a track that has crossed, which an eviction
    would remove -- the callback log and the next id are unchanged. *)
Theorem procesar_detecciones_vacia (Frame : Type)
    (update_tracks :
       list ((Z * Z * Z * Z) * float * string) → Frame → list DSTrack)
    (st : BidirectionalCounter) (frame : option Frame) :
  let r := procesar_detecciones Frame update_tracks st [] frame in
  snd r = []
  ∧ fst r = st
  ∧ contadores (fst r) = contadores st
  ∧ (∀ tid t, dict_get tid (tracks st) = Some t →
              dict_get tid (tracks (fst r)) = Some t)
  ∧ (∀ tid, dict_get tid (tracks st) = None →
            dict_get tid (tracks (fst r)) = None)
  ∧ siguiente_track_id (fst r) = siguiente_track_id st
  ∧ llamadas_callback (fst r) = llamadas_callback st.
Proof.
  intros r. subst r. cbn [procesar_detecciones fst snd].
  split; [reflexivity|]. split; [reflexivity|]. split; [reflexivity|].
  split; [intros tid t Hget; exact Hget|].
  split; [intros tid Hget; exact Hget|].
  split; reflexivity.
Qed.

(** Called on an empty list, the built-in tracker's own loop would
    evict: the guard in [procesar_detecciones] is what keeps a crossed
    track on an empty frame. *)
Example tracker_simple_vacio_desaloja :
  dict_get 1 (tracks (fst (_procesar_con_tracker_simple estado_dos_tracks [])))
  = None
  ∧ dict_get 1 (tracks (fst (procesar_detecciones unit (fun _ _ => [])
                               estado_dos_tracks [] None)))
    = Some track_cruzado.
Proof. vm_compute. done. Qed.

(** ** The category of a track *)

(** C9, as the code has it.  The category given to [_actualizar_track]
    is stored only when the call creates the track; for an existing
    track it is ignored, the stored category stays the one of creation,
    and a crossing registered after the update goes to the cell of that
    stored category. *)
Theorem categoria_fijada_al_crear (st : BidirectionalCounter) (tid : Z)
    (t : TrackInfo) (cat : string) (cx cy : Z) (d : Direccion) :
  dict_get tid (tracks st) = Some t →
  let st1 := _actualizar_track st tid cat cx cy in
  (∃ t1, dict_get tid (tracks st1) = Some t1 ∧ categoria t1 = categoria t)
  ∧ contadores (_registrar_cruce st1 tid d)
    = match contadores st !! categoria t with
      | Some c => <[categoria t := incrementar d c]> (contadores st)
      | None => contadores st
      end
  ∧ (∀ c, contadores st !! categoria t = Some c → cat ≠ categoria t →
          contadores (_registrar_cruce st1 tid d) !! cat
          = contadores st !! cat).
Proof.
  intros Hget st1. subst st1.
  assert (Hget1 : dict_get tid (tracks (_actualizar_track st tid cat cx cy))
                  = Some (avanzar_track cx cy t)).
  { rewrite actualizar_track_get, decide_True by done. by rewrite Hget. }
  destruct (actualizar_track_config st tid cat cx cy) as (Hc & _).
  split; [by exists (avanzar_track cx cy t)|]. split.
  - rewrite (registrar_cruce_contadores _ _ _ _ Hget1). simpl. by rewrite Hc.
  - intros c Hcat Hne.
    rewrite (registrar_cruce_contadores _ _ _ _ Hget1). simpl.
    rewrite Hc, Hcat. by rewrite lookup_insert_ne.
Qed.

(** A track that does not exist yet is created with the category given
    to [_actualizar_track]. *)
Lemma actualizar_track_crea st tid cat cx cy :
  dict_get tid (tracks st) = None →
  dict_get tid (tracks (_actualizar_track st tid cat cx cy))
  = Some (nuevo_track tid cat cx cy).
Proof.
  intros Hget. rewrite actualizar_track_get, decide_True by done.
  by rewrite Hget.
Qed.

(** ** The counting line *)

(** What [max(0.1, min(0.9, p))] returns: one of the two bounds, or [p]
    itself when it lies strictly between them. *)
Lemma acotar_posicion (p : float) :
  let r := PyFloat.py_max 0.1 (PyFloat.py_min 0.9 p) in
  r = 0.1%float ∨ r = 0.9%float
  ∨ (r = p ∧ PrimFloat.ltb 0.1 p = true ∧ PrimFloat.ltb p 0.9 = true).
Proof.
  unfold PyFloat.py_max, PyFloat.py_min.
  destruct (PrimFloat.ltb p 0.9) eqn:H9.
  - destruct (PrimFloat.ltb 0.1 p) eqn:H1.
    + right. right. done.
    + by left.
  - right. left. reflexivity.
Qed.

(** The setter clamps the relative position and re-derives the pixel
    position from the clamped value and the stored width. *)
Lemma actualizar_posicion_linea_efecto st p st' :
  actualizar_posicion_linea st p = Some st' →
  linea_posicion_relativa st' = PyFloat.py_max 0.1 (PyFloat.py_min 0.9 p)
  ∧ ancho_frame st' = ancho_frame st
  ∧ linea_en_pixeles (ancho_frame st') (linea_posicion_relativa st')
    = Some (linea_x st').
Proof.
  unfold actualizar_posicion_linea.
  destruct (linea_en_pixeles _ _) as [lx|] eqn:Hlx; [|done].
  by intros [= <-].
Qed.

(** A change of frame size keeps the stored relative position and
    re-derives the pixel position from the new width. *)
Lemma actualizar_dimensiones_efecto st w h st' :
  actualizar_dimensiones st w h = Some st' →
  linea_posicion_relativa st' = linea_posicion_relativa st
  ∧ ancho_frame st' = w ∧ alto_frame st' = h
  ∧ linea_en_pixeles (ancho_frame st') (linea_posicion_relativa st')
    = Some (linea_x st').
Proof.
  unfold actualizar_dimensiones.
  destruct (linea_en_pixeles _ _) as [lx|] eqn:Hlx; [|done].
  by intros [= <-].
Qed.

(** The constructor stores the relative position as given and derives
    the pixel position from it. *)
Lemma init_efecto w h rel margen cats ds cb ok st :
  __init__ w h rel margen cats ds cb ok = Some st →
  linea_posicion_relativa st = rel
  ∧ ancho_frame st = w
  ∧ linea_en_pixeles (ancho_frame st) (linea_posicion_relativa st)
    = Some (linea_x st)
  ∧ tracks st = [] ∧ siguiente_track_id st = 1.
Proof.
  unfold __init__.
  destruct (linea_en_pixeles _ _) as [lx|] eqn:Hlx; [|done].
  by intros [= <-].
Qed.

(** C8 at the constructor.  [BidirectionalCounter(ancho_frame=640,
    alto_frame=480, linea_posicion_relativa=0.95)] stores 0.95, which
    is above 0.9, and puts the line at pixel 608; with
    [linea_posicion_relativa=0.0] the stored position is 0.0 and the
    line is the left edge, pixel 0.  The setter given the same values
    stores 0.9 and 0.1. *)
Theorem init_no_acota_posicion :
  (∃ st, __init__ 640 480 0.95 30 None true true true = Some st
         ∧ linea_posicion_relativa st = 0.95%float
         ∧ PrimFloat.ltb 0.9 (linea_posicion_relativa st) = true
         ∧ linea_x st = 608)
  ∧ (∃ st, __init__ 640 480 0 30 None true true true = Some st
           ∧ linea_posicion_relativa st = 0%float
           ∧ PrimFloat.ltb (linea_posicion_relativa st) 0.1 = true
           ∧ linea_x st = 0
           ∧ (∃ st', actualizar_posicion_linea st 0 = Some st'
                     ∧ linea_posicion_relativa st' = 0.1%float
                     ∧ linea_x st' = 64)
           ∧ (∃ st', actualizar_posicion_linea st 0.95 = Some st'
                     ∧ linea_posicion_relativa st' = 0.9%float
                     ∧ linea_x st' = 576)).
Proof.
  split.
  - eexists. split; [vm_compute; reflexivity|]. vm_compute. done.
  - eexists. split; [vm_compute; reflexivity|].
    split; [reflexivity|]. split; [reflexivity|]. split; [reflexivity|].
    split; eexists; (split; [vm_compute; reflexivity|]); vm_compute; done.
Qed.

(** * Concrete runs *)

Example init_estado_ej :
  __init__ 300 480 0.5 30 None false true true = Some estado_ej.
Proof. vm_compute. reflexivity. Qed.

(** The direction examples of the specification: line at 150, previous
    x 100 and current x 200 count left-to-right; previous x 200 and
    current x 100 count right-to-left. *)
Example direccion_izq_der :
  let st' := _verificar_cruce (con_tracks estado_ej [(1, track_izq_der)]) 1 in
  contadores st' !! "adulto" = Some {| izq_der := 1; der_izq := 0 |}
  ∧ llamadas_callback st' = [("adulto", IZQUIERDA_A_DERECHA, 1)].
Proof. vm_compute. done. Qed.

Example direccion_der_izq :
  let st' := _verificar_cruce (con_tracks estado_ej [(1, track_der_izq)]) 1 in
  contadores st' !! "adulto" = Some {| izq_der := 0; der_izq := 1 |}
  ∧ llamadas_callback st' = [("adulto", DERECHA_A_IZQUIERDA, 1)].
Proof. vm_compute. done. Qed.

(** The end-to-end scenario of the specification: a detection at x = 100
    creates track 1, the next frame's detection at x = 190 is attached
    to it and counts one adult left-to-right. *)
Example escenario_completo :
  let f1 := _procesar_con_tracker_simple estado_ej [deteccion_ej "adulto" 100 50] in
  let f2 := _procesar_con_tracker_simple (fst f1) [deteccion_ej "adulto" 190 50] in
  det_track_id <$> snd f1 = [Some 1]
  ∧ det_track_id <$> snd f2 = [Some 1]
  ∧ contadores (fst f2) !! "adulto" = Some {| izq_der := 1; der_izq := 0 |}
  ∧ obtener_total_cruces (fst f2)
    = {| total_izq_der := 1; total_der_izq := 0; total := 1 |}.
Proof. vm_compute. done. Qed.

(** [verificar_cruce_decision] at the track seen at 100 and then 200,
    line at 150. *)
Lemma verificar_cruce_decision_witness :
  registrado (con_tracks estado_ej [(1, track_izq_der)]) 1
    IZQUIERDA_A_DERECHA "derecha"
    (_verificar_cruce (con_tracks estado_ej [(1, track_izq_der)]) 1).
Proof.
  refine (proj1 (proj2 (verificar_cruce_decision
                          (con_tracks estado_ej [(1, track_izq_der)]) 1
                          track_izq_der eq_refl)
                   [] 100 50 200 50 eq_refl) _).
  simpl. repeat split; lia.
Defined.

(** [una_pasada_un_conteo] at a track created at x = 100 and sampled
    at 120, 149, 150, 151 and 200, line at 150, margin 30. *)
Lemma una_pasada_un_conteo_witness :
  contadores
    (seguir 1 "adulto"
       (con_tracks estado_ej [(1, nuevo_track 1 "adulto" 100 50)])
       [(120, 50); (149, 51); (150, 52); (151, 52); (200, 50)])
  = <["adulto" := {| izq_der := 1; der_izq := 0 |}]> (contadores estado_ej).
Proof.
  refine (proj1 (una_pasada_un_conteo
                   (con_tracks estado_ej [(1, nuevo_track 1 "adulto" 100 50)])
                   1 "adulto" "adulto" celda_cero 100 50 200 50
                   [(120, 50); (149, 51); (150, 52); (151, 52); (200, 50)]
                   eq_refl eq_refl _ _ eq_refl _ _)).
  - simpl. lia.
  - simpl. lia.
  - simpl. lia.
  - simpl. lia.
Defined.

(** [registrar_cruce_efecto] at an adult track of a counter that counts
    adults. *)
Lemma registrar_cruce_efecto_witness :
  lee IZQUIERDA_A_DERECHA
    <$> contadores (_registrar_cruce (con_tracks estado_ej [(1, track_izq_der)])
                      1 IZQUIERDA_A_DERECHA) !! "adulto"
  = Some 1.
Proof.
  refine (proj1 (proj1 (proj2 (registrar_cruce_efecto
                   (con_tracks estado_ej [(1, track_izq_der)]) 1
                   track_izq_der IZQUIERDA_A_DERECHA eq_refl _))
                   celda_cero eq_refl)).
  discriminate.
Defined.

(** C3 as stated fails on a track whose category has no cell: the
    counter below counts bicycles only and has a callback; registering
    a crossing of its adult track marks the track as crossed, changes no
    cell and makes no call. *)
Lemma registrar_cruce_sin_celda :
  dict_get 1 (tracks estado_solo_bici) = Some track_izq_der
  ∧ categoria track_izq_der = "adulto"
  ∧ callback_cruce estado_solo_bici = true
  ∧ (let st' := _registrar_cruce estado_solo_bici 1 IZQUIERDA_A_DERECHA in
     cruzado <$> dict_get 1 (tracks st') = Some true
     ∧ contadores st' = contadores estado_solo_bici
     ∧ (∀ cat c, contadores st' !! cat = Some c → c = celda_cero)
     ∧ llamadas_callback st' = []).
Proof.
  split; [reflexivity|]. split; [reflexivity|]. split; [reflexivity|].
  split; [reflexivity|]. split; [reflexivity|]. split; [|reflexivity].
  intros cat c. change (contadores _) with (_inicializar_contadores ["bicicleta"]).
  rewrite inicializar_contadores_lookup. case_decide; congruence.
Qed.

(** [puede_cruzar_invariante] at the crossing check of the track seen
    at 100 and then 200. *)
Lemma puede_cruzar_invariante_witness :
  puede_cruzar (track_verificado (con_tracks estado_ej [(1, track_izq_der)])
                  track_izq_der) = false
  ∧ cruzado (track_verificado (con_tracks estado_ej [(1, track_izq_der)])
               track_izq_der) = true.
Proof.
  refine (proj1 (proj2 (puede_cruzar_invariante (OpVerificarCruce 1)
                          (con_tracks estado_ej [(1, track_izq_der)])
                          (_verificar_cruce
                             (con_tracks estado_ej [(1, track_izq_der)]) 1)
                          1 eq_refl)
                   track_izq_der _ eq_refl eq_refl)
            [] 100 50 200 50 eq_refl eq_refl eq_refl _).
  left. simpl. lia.
Defined.

(** [desalojo_tracker_simple] at a frame with one bicycle far from the
    two tracks of the map: the adult that has crossed is removed, the
    bicycle that has not is kept. *)
Lemma desalojo_tracker_simple_witness :
  let r := procesar_detecciones unit (fun _ _ => []) estado_dos_tracks
             [deteccion_ej "bicicleta" 250 200] None in
  dict_get 1 (tracks (fst r)) = None
  ∧ dict_get 2 (tracks (fst r)) = Some track_quieto.
Proof.
  intros r.
  assert (Hd : diccionario (tracks estado_dos_tracks)).
  { unfold diccionario. simpl. apply NoDup_cons. split.
    - intros Hin. apply list_elem_of_singleton in Hin. discriminate Hin.
    - apply NoDup_singleton. }
  assert (Hne : [deteccion_ej "bicicleta" 250 200] ≠ []) by discriminate.
  destruct (desalojo_tracker_simple unit (fun _ _ => []) estado_dos_tracks
              (fst r) [deteccion_ej "bicicleta" 250 200] (snd r) None
              Hd Hne (or_introl eq_refl) eq_refl) as [H _].
  split.
  - refine (proj1 (H 1 track_cruzado eq_refl _) eq_refl).
    vm_compute. intros Hin. apply list_elem_of_singleton in Hin.
    discriminate Hin.
  - refine (proj2 (H 2 track_quieto eq_refl _) eq_refl).
    vm_compute. intros Hin. apply list_elem_of_singleton in Hin.
    discriminate Hin.
Defined.

(** C6 as stated fails on an empty frame: track 1 has crossed and no
    detection is attached to it, and it stays in the map. *)
Lemma frame_vacio_no_desaloja :
  let r := procesar_detecciones unit (fun _ _ => []) estado_dos_tracks
             [] None in
  snd r = []
  ∧ dict_get 1 (tracks estado_dos_tracks) = Some track_cruzado
  ∧ cruzado track_cruzado = true
  ∧ dict_get 1 (tracks (fst r)) = Some track_cruzado.
Proof. repeat split. Qed.

(** [categoria_fijada_al_crear] at an adult track updated with the
    category of a child. *)
Lemma categoria_fijada_al_crear_witness :
  contadores
    (_registrar_cruce
       (_actualizar_track
          (con_tracks estado_ej [(7, nuevo_track 7 "adulto" 100 50)])
          7 "nino" 200 50)
       7 IZQUIERDA_A_DERECHA)
  = <["adulto" := {| izq_der := 1; der_izq := 0 |}]> (contadores estado_ej).
Proof.
  exact (proj1 (proj2 (categoria_fijada_al_crear
           (con_tracks estado_ej [(7, nuevo_track 7 "adulto" 100 50)])
           7 (nuevo_track 7 "adulto" 100 50) "nino" 200 50
           IZQUIERDA_A_DERECHA eq_refl))).
Defined.

(** C9 as stated fails: track 7 is created as an adult at x = 100, the
    next update supplies the category of a child at x = 200, and the
    crossing that follows is counted for adults, not for children. *)
Lemma cruce_cuenta_categoria_inicial :
  let st1 := _actualizar_track estado_ej 7 "adulto" 100 50 in
  let st2 := _verificar_cruce (_actualizar_track st1 7 "nino" 200 50) 7 in
  contadores st2 !! "nino" = Some {| izq_der := 0; der_izq := 0 |}
  ∧ contadores st2 !! "adulto" = Some {| izq_der := 1; der_izq := 0 |}
  ∧ categoria <$> dict_get 7 (tracks st2) = Some "adulto"
  ∧ llamadas_callback st2 = [("adulto", IZQUIERDA_A_DERECHA, 7)].
Proof. vm_compute. done. Qed.

(** ** Frame processing as a sequence of operations *)

Lemma ejecutar_todas_app ops1 ops2 st st1 :
  ejecutar_todas ops1 st = Some st1 →
  ejecutar_todas (ops1 ++ ops2) st = ejecutar_todas ops2 st1.
Proof.
  revert st. induction ops1 as [|op ops1 IH]; intros st; simpl.
  - by intros [= ->].
  - destruct (ejecutar op st) as [st0|]; [|done]. apply IH.
Qed.

Lemma bucle_simple_es_secuencia dets :
  ∀ st usados out,
    ∃ ops, ejecutar_todas ops st
           = Some (fst (fst (foldl paso_tracker_simple (st, usados, out) dets))).
Proof.
  induction dets as [|det dets IH]; intros st usados out.
  - by exists [].
  - cbn [foldl].
    assert (∃ ops st1 u1 o1,
              paso_tracker_simple (st, usados, out) det = (st1, u1, o1)
              ∧ ejecutar_todas ops st = Some st1)
      as (ops1 & st1 & u1 & o1 & -> & Hops1).
    { unfold paso_tracker_simple, asociar. destruct (centro det) as [cx cy].
      destruct (_encontrar_track_cercano st cx cy (det_categoria det) usados)
        as [tid|].
      - exists [OpActualizarTrack tid (det_categoria det) cx cy;
                OpVerificarCruce tid]. by repeat eexists.
      - exists [OpCrearTrack (det_categoria det) cx cy;
                OpVerificarCruce (siguiente_track_id st)]. by repeat eexists. }
    destruct (IH st1 u1 o1) as [ops2 Hops2].
    exists (ops1 ++ ops2). by rewrite (ejecutar_todas_app _ _ _ _ Hops1).
Qed.

(** The built-in tracker's frame processing is a run of the operations
    of [Operacion]. *)
Lemma procesar_simple_es_secuencia st dets :
  ∃ ops, ejecutar_todas ops st
         = Some (fst (_procesar_con_tracker_simple st dets)).
Proof.
  unfold _procesar_con_tracker_simple.
  destruct (bucle_simple_es_secuencia dets st ∅ []) as [ops Hops].
  destruct (foldl paso_tracker_simple (st, ∅, []) dets) as [[st1 u1] o1].
  exists (ops ++ [OpLimpiarTracks u1]).
  by rewrite (ejecutar_todas_app _ _ _ _ Hops).
Qed.

Lemma bucle_deepsort_es_secuencia ts :
  ∀ st out,
    ∃ ops, ejecutar_todas ops st
           = Some (fst (foldl paso_deepsort (st, out) ts)).
Proof.
  induction ts as [|track ts IH]; intros st out.
  - by exists [].
  - cbn [foldl]. unfold paso_deepsort at 2.
    destruct (is_confirmed track); simpl; [|apply IH].
    destruct (to_ltrb track) as [[[x1 y1] x2] y2].
    match goal with
    | |- context [foldl paso_deepsort (?s, ?o) ts] =>
        destruct (IH s o) as [ops2 Hops2]
    end.
    exists ([OpActualizarTrack (ds_track_id track)
               (default "adulto" (get_det_class track))
               ((x1 + x2) `div` 2) ((y1 + y2) `div` 2);
             OpVerificarCruce (ds_track_id track)] ++ ops2).
    cbn [app ejecutar_todas ejecutar]. exact Hops2.
Qed.

(** Every call of [procesar_detecciones] is a run of the operations of
    [Operacion], so a property of every operation is a property of
    every step of every frame. *)
Lemma procesar_detecciones_es_secuencia (Frame : Type)
    (update_tracks :
       list ((Z * Z * Z * Z) * float * string) → Frame → list DSTrack)
    (st : BidirectionalCounter) (dets : list Deteccion)
    (frame : option Frame) :
  ∃ ops, ejecutar_todas ops st
         = Some (fst (procesar_detecciones Frame update_tracks st dets frame)).
Proof.
  unfold procesar_detecciones. destruct dets as [|det dets]; [by exists []|].
  destruct (usar_deepsort st), frame as [f|];
    try apply procesar_simple_es_secuencia.
  apply bucle_deepsort_es_secuencia.
Qed.

(** ** Ids assigned by the built-in tracker *)

Lemma limpiar_tracks_claves st activos tid info :
  (tid, info) ∈ tracks (_limpiar_tracks_antiguos st activos) →
  (tid, info) ∈ tracks st.
Proof.
  unfold _limpiar_tracks_antiguos. simpl.
  generalize (tracks_a_eliminar (tracks st) activos) as l.
  generalize (tracks st) as d. intros d l. revert d.
  induction l as [|k l IH]; intros d; simpl; [done|].
  intros Hin. apply IH in Hin. by apply dict_del_keys in Hin.
Qed.

(** The invariant [ids_menores] holds of a new object, after a reset,
    and is kept by the built-in tracker, which never lowers the next
    id. *)
Lemma ids_menores_tracker_simple st dets :
  ids_menores st →
  ids_menores (fst (_procesar_con_tracker_simple st dets))
  ∧ siguiente_track_id st
    <= siguiente_track_id (fst (_procesar_con_tracker_simple st dets)).
Proof.
  intros Hids. unfold _procesar_con_tracker_simple.
  pose proof (bucle_inv_foldl st dets _ (bucle_inv_inicio st)) as Hinv.
  destruct (foldl paso_tracker_simple (st, ∅, []) dets) as [[st1 u1] o1].
  destruct Hinv as (_ & _ & _ & _ & Hids1 & Hsig). simpl. split; [|done].
  intros tid info Hin%limpiar_tracks_claves. exact (Hids1 Hids _ _ Hin).
Qed.

Lemma ids_menores_reiniciar st : ids_menores (reiniciar_contadores st).
Proof. intros tid info Hin. by apply elem_of_nil in Hin. Qed.

Lemma ids_menores_init w h rel margen cats ds cb ok st :
  __init__ w h rel margen cats ds cb ok = Some st → ids_menores st.
Proof.
  intros (_ & _ & _ & Ht & _)%init_efecto tid info Hin.
  rewrite Ht in Hin. by apply elem_of_nil in Hin.
Qed.

(** * Further properties of the counter *)

(** ** Runs of operations *)

Lemma ejecutar_todas_rel (P : BidirectionalCounter → BidirectionalCounter → Prop)
    (Q : Operacion → Prop) :
  (∀ st, P st st) →
  (∀ st1 st2 st3, P st1 st2 → P st2 st3 → P st1 st3) →
  (∀ op st st', Q op → ejecutar op st = Some st' → P st st') →
  ∀ ops st st',
    Forall Q ops → ejecutar_todas ops st = Some st' → P st st'.
Proof.
  intros Hrefl Htrans Hpaso ops.
  induction ops as [|op ops IH]; intros st st' Hall; simpl.
  - intros [= ->]. apply Hrefl.
  - apply Forall_cons in Hall as [Hq Hall].
    destruct (ejecutar op st) as [st1|] eqn:Hop; [|done].
    intros Hrest. eapply Htrans; [by eapply Hpaso|by apply IH].
Qed.

Lemma bucle_simple_ops dets :
  ∀ st usados out,
    ∃ ops, Forall op_de_frame ops
           ∧ ejecutar_todas ops st
             = Some (fst (fst (foldl paso_tracker_simple (st, usados, out)
                                 dets))).
Proof.
  induction dets as [|det dets IH]; intros st usados out.
  - exists []. by split.
  - cbn [foldl].
    assert (∃ ops st1 u1 o1,
              paso_tracker_simple (st, usados, out) det = (st1, u1, o1)
              ∧ Forall op_de_frame ops
              ∧ ejecutar_todas ops st = Some st1)
      as (ops1 & st1 & u1 & o1 & -> & Hall1 & Hops1).
    { unfold paso_tracker_simple, asociar. destruct (centro det) as [cx cy].
      destruct (_encontrar_track_cercano st cx cy (det_categoria det) usados)
        as [tid|].
      - exists [OpActualizarTrack tid (det_categoria det) cx cy;
                OpVerificarCruce tid].
        repeat eexists. by repeat constructor.
      - exists [OpCrearTrack (det_categoria det) cx cy;
                OpVerificarCruce (siguiente_track_id st)].
        repeat eexists. by repeat constructor. }
    destruct (IH st1 u1 o1) as (ops2 & Hall2 & Hops2).
    exists (ops1 ++ ops2). split; [by apply Forall_app|].
    by rewrite (ejecutar_todas_app _ _ _ _ Hops1).
Qed.

Lemma bucle_deepsort_ops ts :
  ∀ st out,
    ∃ ops, Forall op_de_frame ops
           ∧ ejecutar_todas ops st
             = Some (fst (foldl paso_deepsort (st, out) ts)).
Proof.
  induction ts as [|track ts IH]; intros st out.
  - exists []. by split.
  - cbn [foldl]. unfold paso_deepsort at 2.
    destruct (is_confirmed track); simpl; [|apply IH].
    destruct (to_ltrb track) as [[[x1 y1] x2] y2].
    match goal with
    | |- context [foldl paso_deepsort (?s, ?o) ts] =>
        destruct (IH s o) as (ops2 & Hall2 & Hops2)
    end.
    exists ([OpActualizarTrack (ds_track_id track)
               (default "adulto" (get_det_class track))
               ((x1 + x2) `div` 2) ((y1 + y2) `div` 2);
             OpVerificarCruce (ds_track_id track)] ++ ops2).
    split.
    + apply Forall_app. split; [by repeat constructor|done].
    + cbn [app ejecutar_todas ejecutar]. exact Hops2.
Qed.

(** A call of [procesar_detecciones], with either tracker, is a run of
    track creations, track updates, crossing checks and evictions. *)
Lemma procesar_detecciones_ops (Frame : Type)
    (update_tracks :
       list ((Z * Z * Z * Z) * float * string) → Frame → list DSTrack)
    (st : BidirectionalCounter) (dets : list Deteccion)
    (frame : option Frame) :
  ∃ ops, Forall op_de_frame ops
         ∧ ejecutar_todas ops st
           = Some (fst (procesar_detecciones Frame update_tracks st dets
                          frame)).
Proof.
  assert (Hsimple : ∃ ops, Forall op_de_frame ops
            ∧ ejecutar_todas ops st
              = Some (fst (_procesar_con_tracker_simple st dets))).
  { unfold _procesar_con_tracker_simple.
    destruct (bucle_simple_ops dets st ∅ []) as (ops & Hall & Hops).
    destruct (foldl paso_tracker_simple (st, ∅, []) dets) as [[st1 u1] o1].
    exists (ops ++ [OpLimpiarTracks u1]). split.
    - apply Forall_app. split; [done|]. by repeat constructor.
    - by rewrite (ejecutar_todas_app _ _ _ _ Hops). }
  unfold procesar_detecciones. destruct dets as [|det dets].
  { exists []. by split. }
  destruct (usar_deepsort st), frame as [f|]; try exact Hsimple.
  apply bucle_deepsort_ops.
Qed.

Lemma op_de_frame_sin_reinicio op : op_de_frame op → op_sin_reinicio op.
Proof. by destruct op. Qed.

(** ** Counting along operations *)

Lemma registrar_cruce_conteo st tid d :
  callback_cruce (_registrar_cruce st tid d) = callback_cruce st
  ∧ ((contadores (_registrar_cruce st tid d) = contadores st
      ∧ llamadas_callback (_registrar_cruce st tid d) = llamadas_callback st)
     ∨ (∃ cat c,
          contadores st !! cat = Some c
          ∧ contadores (_registrar_cruce st tid d)
            = <[cat := incrementar d c]> (contadores st)
          ∧ llamadas_callback (_registrar_cruce st tid d)
            = (if callback_cruce st
               then llamadas_callback st ++ [(cat, d, tid)]
               else llamadas_callback st))).
Proof.
  split; [apply registrar_cruce_config|].
  destruct (dict_get tid (tracks st)) as [t|] eqn:Hget.
  - rewrite (registrar_cruce_contadores _ _ _ _ Hget).
    rewrite (registrar_cruce_llamadas _ _ _ _ Hget).
    destruct (contadores st !! categoria t) as [c|] eqn:Hcat; [|by left].
    right. by exists (categoria t), c.
  - left. unfold _registrar_cruce. by rewrite Hget.
Qed.

(** What a crossing check does to the counters and to the callback: it
    leaves them, or it is one registration. *)
Lemma verificar_cruce_conteo st tid :
  callback_cruce (_verificar_cruce st tid) = callback_cruce st
  ∧ ((contadores (_verificar_cruce st tid) = contadores st
      ∧ llamadas_callback (_verificar_cruce st tid) = llamadas_callback st)
     ∨ (∃ d, d ≠ NINGUNA
             ∧ contadores (_verificar_cruce st tid)
               = contadores (_registrar_cruce st tid d)
             ∧ llamadas_callback (_verificar_cruce st tid)
               = llamadas_callback (_registrar_cruce st tid d))).
Proof.
  unfold _verificar_cruce.
  destruct (dict_get tid (tracks st)) as [t|]; [|by split; [|left]].
  destruct (dos_ultimas_x (historial_posiciones t)) as [[prev cur]|];
    [|by split; [|left]].
  repeat case_match; simpl; (split; [try done; apply registrar_cruce_config|]);
    try (by left).
  - right. by exists IZQUIERDA_A_DERECHA.
  - right. by exists DERECHA_A_IZQUIERDA.
Qed.

Lemma actualizar_linea_conteo st p st' :
  actualizar_posicion_linea st p = Some st' →
  contadores st' = contadores st
  ∧ llamadas_callback st' = llamadas_callback st
  ∧ callback_cruce st' = callback_cruce st
  ∧ siguiente_track_id st' = siguiente_track_id st
  ∧ categorias st' = categorias st.
Proof.
  unfold actualizar_posicion_linea. case_match; [|done]. by intros [= <-].
Qed.

Lemma actualizar_dimensiones_conteo st w h st' :
  actualizar_dimensiones st w h = Some st' →
  contadores st' = contadores st
  ∧ llamadas_callback st' = llamadas_callback st
  ∧ callback_cruce st' = callback_cruce st
  ∧ siguiente_track_id st' = siguiente_track_id st
  ∧ categorias st' = categorias st.
Proof.
  unfold actualizar_dimensiones. case_match; [|done]. by intros [= <-].
Qed.

(** Every operation but the reset leaves the counters and the callback
    log, or adds one to one cell of an existing category and, with a
    callback configured, one call for that category. *)
Lemma ejecutar_conteo op st st' :
  op_sin_reinicio op →
  ejecutar op st = Some st' →
  callback_cruce st' = callback_cruce st
  ∧ ((contadores st' = contadores st
      ∧ llamadas_callback st' = llamadas_callback st)
     ∨ (∃ cat c d tid,
          contadores st !! cat = Some c
          ∧ contadores st' = <[cat := incrementar d c]> (contadores st)
          ∧ llamadas_callback st'
            = (if callback_cruce st
               then llamadas_callback st ++ [(cat, d, tid)]
               else llamadas_callback st))).
Proof.
  intros Hop Hej.
  destruct op as [p|w hh|cat cx cy|tid0 cat cx cy|tid0|tid0 d|activos|];
    simpl in Hej; try (injection Hej as <-).
  - destruct (actualizar_linea_conteo _ _ _ Hej) as (-> & -> & -> & _).
    split; [done|by left].
  - destruct (actualizar_dimensiones_conteo _ _ _ _ Hej) as (-> & -> & -> & _).
    split; [done|by left].
  - split; [done|by left].
  - destruct (actualizar_track_config st tid0 cat cx cy)
      as (-> & -> & _ & _ & -> & _). split; [done|by left].
  - destruct (verificar_cruce_conteo st tid0) as [-> [H|(d & _ & -> & ->)]].
    + split; [done|by left].
    + split; [done|].
      destruct (registrar_cruce_conteo st tid0 d)
        as [_ [H|(cat & c & H1 & H2 & H3)]]; [by left|].
      right. by exists cat, c, d, tid0.
  - destruct (registrar_cruce_conteo st tid0 d)
      as [-> [H|(cat & c & H1 & H2 & H3)]]; (split; [done|]); [by left|].
    right. by exists cat, c, d, tid0.
  - split; [done|by left].
  - by destruct Hop.
Qed.

Lemma contadores_crecen_refl m : contadores_crecen m m.
Proof. intros cat. destruct (m !! cat); [lia|done]. Qed.

Lemma contadores_crecen_trans m1 m2 m3 :
  contadores_crecen m1 m2 → contadores_crecen m2 m3 → contadores_crecen m1 m3.
Proof.
  intros H12 H23 cat. specialize (H12 cat). specialize (H23 cat).
  destruct (m1 !! cat), (m2 !! cat), (m3 !! cat); try done. lia.
Qed.

Lemma contadores_crecen_incrementar m cat c d :
  m !! cat = Some c → contadores_crecen m (<[cat := incrementar d c]> m).
Proof.
  intros Hcat cat'. destruct (decide (cat' = cat)) as [->|Hne].
  - rewrite Hcat, lookup_insert_eq. destruct d; simpl; lia.
  - rewrite lookup_insert_ne by done. destruct (m !! cat'); [lia|done].
Qed.

(** Along every run of operations without a reset the counters keep
    their keys and no cell decreases. *)
Lemma contadores_crecen_run ops st st' :
  Forall op_sin_reinicio ops →
  ejecutar_todas ops st = Some st' →
  contadores_crecen (contadores st) (contadores st').
Proof.
  revert ops st st'.
  apply (ejecutar_todas_rel
           (fun st st' => contadores_crecen (contadores st) (contadores st'))).
  - intros st. apply contadores_crecen_refl.
  - intros st1 st2 st3. apply contadores_crecen_trans.
  - intros op st st' Hop Hej.
    destruct (ejecutar_conteo op st st' Hop Hej)
      as [_ [[-> _]|(cat & c & d & tid & Hcat & -> & _)]].
    + apply contadores_crecen_refl.
    + by apply contadores_crecen_incrementar.
Qed.

(** Counters only grow.  Whatever the detections, the frame and the
    tracker in use, a call of [procesar_detecciones] leaves the
    counters with the same categories and no cell, in either direction,
    below its value before the call. *)
Theorem contadores_solo_crecen (Frame : Type)
    (update_tracks :
       list ((Z * Z * Z * Z) * float * string) → Frame → list DSTrack)
    (st : BidirectionalCounter) (dets : list Deteccion)
    (frame : option Frame) :
  contadores_crecen (contadores st)
    (contadores (fst (procesar_detecciones Frame update_tracks st dets
                        frame))).
Proof.
  destruct (procesar_detecciones_ops Frame update_tracks st dets frame)
    as (ops & Hall & Hops).
  apply (contadores_crecen_run ops); [|done].
  eapply Forall_impl; [exact Hall|]. apply op_de_frame_sin_reinicio.
Qed.

(** ** Counters and notifications *)

Lemma suma_insert (f : Celda → Z) (m : gmap string Celda) k c c' :
  m !! k = Some c → suma f (<[k := c']> m) = suma f m - f c + f c'.
Proof.
  intros Hk. unfold suma.
  assert (Hcomm : ∀ x : Celda, ∀ (j1 j2 : string) (z1 z2 : Celda) (y : Z),
            j1 ≠ j2 → <[k := x]> (delete k m) !! j1 = Some z1 →
            <[k := x]> (delete k m) !! j2 = Some z2 →
            f z1 + (f z2 + y) = f z2 + (f z1 + y)) by (intros; lia).
  rewrite <- (insert_delete_eq m k c').
  rewrite (map_fold_insert_L _ _ _ _ _ (Hcomm c')) by apply lookup_delete_eq.
  rewrite <- (insert_delete_id m k c Hk) at 2.
  rewrite (map_fold_insert_L _ _ _ _ _ (Hcomm c)) by apply lookup_delete_eq.
  lia.
Qed.

Lemma ejecutar_conteo_frame op st st' :
  op_de_frame op →
  ejecutar op st = Some st' →
  callback_cruce st' = callback_cruce st
  ∧ ((contadores st' = contadores st
      ∧ llamadas_callback st' = llamadas_callback st)
     ∨ (∃ cat c d tid,
          d ≠ NINGUNA
          ∧ contadores st !! cat = Some c
          ∧ contadores st' = <[cat := incrementar d c]> (contadores st)
          ∧ llamadas_callback st'
            = (if callback_cruce st
               then llamadas_callback st ++ [(cat, d, tid)]
               else llamadas_callback st))).
Proof.
  intros Hop Hej.
  destruct op as [p|w hh|cat cx cy|tid0 cat cx cy|tid0|tid0 d|activos|];
    try (by destruct Hop); simpl in Hej; injection Hej as <-.
  - split; [done|by left].
  - destruct (actualizar_track_config st tid0 cat cx cy)
      as (-> & -> & _ & _ & -> & _). split; [done|by left].
  - destruct (verificar_cruce_conteo st tid0) as [-> [H|(d & Hd & -> & ->)]].
    + split; [done|by left].
    + split; [done|].
      destruct (registrar_cruce_conteo st tid0 d)
        as [_ [H|(cat & c & H1 & H2 & H3)]]; [by left|].
      right. by exists cat, c, d, tid0.
  - split; [done|by left].
Qed.

Lemma conteo_notificado_refl st : conteo_notificado st st.
Proof.
  split; [done|]. intros _. exists []. rewrite app_nil_r.
  repeat split; try done; intros; simpl; lia.
Qed.

Lemma conteo_notificado_trans st1 st2 st3 :
  conteo_notificado st1 st2 → conteo_notificado st2 st3 →
  conteo_notificado st1 st3.
Proof.
  intros [Hcb1 H1] [Hcb2 H2]. split; [congruence|]. intros Hcb.
  destruct (H1 Hcb) as (n1 & Hl1 & Hc1 & Hs1 & Hf1).
  destruct H2 as (n2 & Hl2 & Hc2 & Hs2 & Hf2); [congruence|].
  exists (n1 ++ n2). split; [by rewrite Hl2, Hl1, app_assoc|].
  split; [|split].
  - intros cat d Hd. rewrite (Hc2 cat d Hd), (Hc1 cat d Hd).
    unfold llamadas_de. rewrite filter_app, length_app. lia.
  - intros d Hd. rewrite (Hs2 d Hd), (Hs1 d Hd).
    unfold llamadas_en. rewrite filter_app, length_app. lia.
  - by apply Forall_app.
Qed.

Lemma conteo_notificado_paso op st st' :
  op_de_frame op → ejecutar op st = Some st' → conteo_notificado st st'.
Proof.
  intros Hop Hej.
  destruct (ejecutar_conteo_frame op st st' Hop Hej)
    as [Hcb [[Hc Hl]|(cat & c & d & tid & Hd & Hcat & Hc & Hl)]].
  - split; [done|]. intros _. exists []. rewrite app_nil_r.
    unfold obtener_contador_categoria. rewrite Hc.
    repeat split; try done; intros; simpl; lia.
  - split; [done|]. intros Hcb1. rewrite Hcb1 in Hl.
    exists [(cat, d, tid)]. split; [done|]. split; [|split].
    + intros cat' d' Hd'. unfold obtener_contador_categoria, llamadas_de.
      rewrite Hc. destruct (decide (cat' = cat)) as [->|Hne].
      * rewrite lookup_insert_eq, Hcat. simpl.
        destruct (decide (d' = d)) as [->|Hned].
        -- rewrite filter_cons_True by done. simpl.
           rewrite lee_incrementar_mismo. lia.
        -- rewrite filter_cons_False by (simpl; intros [_ ?]; congruence).
           simpl. rewrite lee_incrementar_otro by done. lia.
      * rewrite lookup_insert_ne by done.
        rewrite filter_cons_False by (simpl; intros [? _]; congruence).
        simpl. lia.
    + intros d' Hd'. rewrite Hc, (suma_insert _ _ _ _ _ Hcat).
      unfold llamadas_en. destruct (decide (d' = d)) as [->|Hned].
      * rewrite filter_cons_True by done. simpl.
        rewrite lee_incrementar_mismo. lia.
      * rewrite filter_cons_False by (simpl; congruence).
        simpl. rewrite lee_incrementar_otro by done. lia.
    + by repeat constructor.
Qed.

(** Every counted crossing is notified once.  Along a call of
    [procesar_detecciones] on an object with a callback, the callback
    log grows by a list of calls such that each cell (category,
    direction) grows by the number of calls made for that category and
    direction, each direction total by the number of calls for that
    direction, and the grand total by the number of calls. *)
Theorem cruces_notificados (Frame : Type)
    (update_tracks :
       list ((Z * Z * Z * Z) * float * string) → Frame → list DSTrack)
    (st : BidirectionalCounter) (dets : list Deteccion)
    (frame : option Frame) :
  callback_cruce st = true →
  let st' := fst (procesar_detecciones Frame update_tracks st dets frame) in
  ∃ nuevas,
    llamadas_callback st' = llamadas_callback st ++ nuevas
    ∧ (∀ cat d, d ≠ NINGUNA →
         lee d (obtener_contador_categoria st' cat)
         = lee d (obtener_contador_categoria st cat)
           + Z.of_nat (length (llamadas_de cat d nuevas)))
    ∧ total_izq_der (obtener_total_cruces st')
      = total_izq_der (obtener_total_cruces st)
        + Z.of_nat (length (llamadas_en IZQUIERDA_A_DERECHA nuevas))
    ∧ total_der_izq (obtener_total_cruces st')
      = total_der_izq (obtener_total_cruces st)
        + Z.of_nat (length (llamadas_en DERECHA_A_IZQUIERDA nuevas))
    ∧ total (obtener_total_cruces st')
      = total (obtener_total_cruces st) + Z.of_nat (length nuevas).
Proof.
  intros Hcb st'. subst st'.
  destruct (procesar_detecciones_ops Frame update_tracks st dets frame)
    as (ops & Hall & Hops).
  destruct (ejecutar_todas_rel conteo_notificado op_de_frame
              conteo_notificado_refl conteo_notificado_trans
              conteo_notificado_paso ops st _ Hall Hops) as [_ H].
  destruct (H Hcb) as (nuevas & Hl & Hc & Hs & Hf).
  exists nuevas. split; [done|]. split; [done|].
  pose proof (Hs IZQUIERDA_A_DERECHA ltac:(done)) as Hi.
  pose proof (Hs DERECHA_A_IZQUIERDA ltac:(done)) as Hd.
  change (suma (lee IZQUIERDA_A_DERECHA)) with (suma izq_der) in Hi.
  change (suma (lee DERECHA_A_IZQUIERDA)) with (suma der_izq) in Hd.
  unfold obtener_total_cruces. cbn [total_izq_der total_der_izq total].
  split; [done|]. split; [done|].
  rewrite Hi, Hd.
  assert (Hlen : (length nuevas
                  = length (llamadas_en IZQUIERDA_A_DERECHA nuevas)
                    + length (llamadas_en DERECHA_A_IZQUIERDA nuevas))%nat).
  { clear -Hf. unfold llamadas_en.
    induction nuevas as [|[[cat d] tid] l IH]; [done|].
    apply Forall_cons in Hf as [Hd Hf]. simpl in Hd. specialize (IH Hf).
    destruct d; try done.
    - rewrite filter_cons_True by done.
      rewrite (filter_cons_False (fun x => x.1.2 = DERECHA_A_IZQUIERDA))
        by done. simpl. lia.
    - rewrite (filter_cons_False (fun x => x.1.2 = IZQUIERDA_A_DERECHA))
        by done.
      rewrite filter_cons_True by done. simpl. lia. }
  lia.
Qed.

(** [cruces_notificados] at the second frame of the end-to-end
    scenario: one adult counted left-to-right, one call. *)
Lemma cruces_notificados_witness :
  ∃ nuevas,
    llamadas_callback
      (fst (procesar_detecciones unit (fun _ _ => []) estado_un_track
              [deteccion_ej "adulto" 190 50] None))
    = llamadas_callback estado_un_track ++ nuevas
    ∧ total (obtener_total_cruces
               (fst (procesar_detecciones unit (fun _ _ => []) estado_un_track
                       [deteccion_ej "adulto" 190 50] None)))
      = total (obtener_total_cruces estado_un_track)
        + Z.of_nat (length nuevas).
Proof.
  destruct (cruces_notificados unit (fun _ _ => []) estado_un_track
              [deteccion_ej "adulto" 190 50] None eq_refl)
    as (nuevas & Hl & _ & _ & _ & Ht).
  exists nuevas. split; [exact Hl|exact Ht].
Defined.

(** ** Well-formed tracks *)

Lemma nuevo_track_bien_formado tid cat cx cy :
  track_bien_formado tid (nuevo_track tid cat cx cy).
Proof.
  unfold track_bien_formado; simpl. repeat split; try lia; try done.
  by exists cy.
Qed.

Lemma avanzar_track_length cx cy t :
  (length (historial_posiciones t) <= 50)%nat →
  length (historial_posiciones (avanzar_track cx cy t))
  = Nat.min (length (historial_posiciones t) + 1) 50.
Proof.
  intros Hlen. unfold avanzar_track; simpl.
  destruct (50 <? length (historial_posiciones t ++ [(cx, cy)]))%nat eqn:Hc.
  - apply Nat.ltb_lt in Hc. rewrite length_drop.
    rewrite length_app in *. simpl in *. lia.
  - apply Nat.ltb_ge in Hc. rewrite length_app in *. simpl in *. lia.
Qed.

Lemma avanzar_track_bien_formado tid cx cy t :
  track_bien_formado tid t → track_bien_formado tid (avanzar_track cx cy t).
Proof.
  intros (Hid & Hl1 & Hl50 & [y Hlast] & Hfr & Hcr & Hpc).
  pose proof (avanzar_track_length cx cy t Hl50) as Hlen.
  pose proof (avanzar_track_last cx cy t _ _ Hlast) as Hlast'.
  unfold track_bien_formado. rewrite Hlen.
  split; [done|]. split; [lia|]. split; [lia|].
  split; [by exists cy|]. split; [simpl; lia|]. done.
Qed.

Lemma marcar_cruzado_bien_formado tid d t :
  track_bien_formado tid t → track_bien_formado tid (marcar_cruzado d t).
Proof.
  intros (Hid & Hl1 & Hl50 & Hlast & Hfr & Hcr & Hpc).
  unfold track_bien_formado; simpl. repeat split; try done; eauto.
Qed.

Lemma track_verificado_bien_formado st tid t :
  track_bien_formado tid t → track_bien_formado tid (track_verificado st t).
Proof.
  intros Hwf. pose proof Hwf as (Hid & Hl1 & Hl50 & Hlast & Hfr & Hcr & Hpc).
  unfold track_verificado.
  destruct (dos_ultimas_x (historial_posiciones t)) as [[prev cur]|]; [|done].
  repeat case_match; try done;
    unfold track_bien_formado; simpl; repeat split; try done; eauto;
    apply Hcr.
Qed.

(** Every operation of the class keeps the tracks well formed. *)
Lemma tracks_bien_formados_paso op st st' :
  ejecutar op st = Some st' →
  tracks_bien_formados st → tracks_bien_formados st'.
Proof.
  intros Hej Hwf.
  destruct op as [p|w hh|cat cx cy|tid0 cat cx cy|tid0|tid0 d|activos|];
    simpl in Hej; try (injection Hej as <-).
  - unfold tracks_bien_formados. by rewrite (actualizar_linea_tracks _ _ _ Hej).
  - unfold tracks_bien_formados.
    by rewrite (actualizar_dimensiones_tracks _ _ _ _ Hej).
  - intros tid t. rewrite crear_track_get. case_decide as Hd.
    + intros [= <-]. subst. apply nuevo_track_bien_formado.
    + apply Hwf.
  - intros tid t. rewrite actualizar_track_get. case_decide as Hd.
    + subst. intros [= <-].
      destruct (dict_get tid (tracks st)) as [t0|] eqn:Hget.
      * by apply avanzar_track_bien_formado, Hwf.
      * apply nuevo_track_bien_formado.
    + apply Hwf.
  - intros tid t. destruct (decide (tid0 = tid)) as [->|Hne].
    + destruct (dict_get tid (tracks st)) as [t0|] eqn:Hget.
      * rewrite (verificar_cruce_mismo _ _ _ Hget). intros [= <-].
        by apply track_verificado_bien_formado, Hwf.
      * unfold _verificar_cruce. rewrite Hget. congruence.
    + rewrite verificar_cruce_otros by done. apply Hwf.
  - intros tid t. rewrite registrar_cruce_tracks.
    destruct (decide (tid0 = tid)) as [->|Hne].
    + rewrite dict_get_alter_eq.
      destruct (dict_get tid (tracks st)) as [t0|] eqn:Hget; [|done].
      intros [= <-]. by apply marcar_cruzado_bien_formado, Hwf.
    + rewrite dict_get_alter_ne by done. apply Hwf.
  - intros tid t. rewrite limpiar_tracks_get.
    destruct (dict_get tid (tracks st)) as [t0|] eqn:Hget; [|done].
    case_decide; [done|]. intros [= <-]. by apply Hwf.
  - intros tid t. done.
Qed.

(** Tracks are always well formed.  In every state reached from the
    constructor by operations of the class -- frames included -- every
    track of the map is stored under its own id, holds between 1 and 50
    samples, has [ultima_posicion_x] equal to the x of its last sample
    and [frames_vistos] at least the number of samples, is flagged as
    crossed exactly when a direction is recorded, and is disarmed only
    if it has crossed. *)
Theorem tracks_siempre_bien_formados (w h : Z) (rel : float) (margen : Z)
    (cats : option (list string)) (ds cb ok : bool)
    (st0 st : BidirectionalCounter) (ops : list Operacion) :
  __init__ w h rel margen cats ds cb ok = Some st0 →
  ejecutar_todas ops st0 = Some st →
  tracks_bien_formados st.
Proof.
  intros Hinit Hops.
  assert (H0 : tracks_bien_formados st0).
  { apply init_efecto in Hinit as (_ & _ & _ & Ht & _).
    intros tid t. by rewrite Ht. }
  clear Hinit. revert st0 Hops H0.
  induction ops as [|op ops IH]; intros st0; simpl.
  - by intros [= ->].
  - destruct (ejecutar op st0) as [st1|] eqn:Hop; [|done].
    intros Hops H0. apply (IH st1 Hops).
    by apply (tracks_bien_formados_paso op st0).
Qed.

(** [tracks_siempre_bien_formados] after two frames of one adult, the
    second of which counts a crossing. *)
Lemma tracks_siempre_bien_formados_witness :
  tracks_bien_formados
    (_verificar_cruce
       (_actualizar_track (crear_track estado_ej "adulto" 100 50)
          1 "adulto" 190 50) 1).
Proof.
  apply (tracks_siempre_bien_formados 300 480 0.5 30 None false true true
           estado_ej _
           [OpCrearTrack "adulto" 100 50;
            OpActualizarTrack 1 "adulto" 190 50;
            OpVerificarCruce 1]).
  - vm_compute. reflexivity.
  - reflexivity.
Defined.

(** ** The frames of the built-in tracker *)

(** The track chosen in one iteration of the loop: a track of the map
    not yet used in the frame, or the next id. *)
Lemma paso_tracker_simple_eleccion st usados out det :
  ∃ tid st',
    paso_tracker_simple (st, usados, out) det
    = (st', {[tid]} ∪ usados, out ++ [con_track_id det tid])
    ∧ ((is_Some (dict_get tid (tracks st)) ∧ (tid ∉ usados)
        ∧ siguiente_track_id st' = siguiente_track_id st)
       ∨ (tid = siguiente_track_id st
          ∧ siguiente_track_id st' = siguiente_track_id st + 1)).
Proof.
  unfold paso_tracker_simple, asociar. destruct (centro det) as [cx cy].
  pose proof (encontrar_track_cercano_inv st cx cy (det_categoria det) usados)
    as Hinv.
  unfold _encontrar_track_cercano.
  destruct (foldl (paso_busqueda cx cy (det_categoria det) usados)
              (None, None) (tracks st)) as [[d|] [t0|]];
    simpl in Hinv; try done; simpl.
  - eexists t0, _. split; [done|]. left.
    destruct Hinv as (_ & (info & ux & uy & Hin & (Hus & _) & _) & _).
    split; [by eapply dict_elem_get_is_Some|]. split; [done|].
    rewrite verificar_cruce_siguiente.
    by destruct (actualizar_track_config st t0 (det_categoria det) cx cy)
      as (_ & _ & _ & _ & _ & ->).
  - eexists (siguiente_track_id st), _. split; [done|]. right.
    split; [done|]. by rewrite verificar_cruce_siguiente.
Qed.

Lemma con_track_id_inj det tid det' tid' :
  con_track_id det tid = con_track_id det' tid' → tid = tid'.
Proof. unfold con_track_id. intros [= ]. done. Qed.

Lemma bucle_ids_inv_paso st0 acc det :
  bucle_inv st0 acc → bucle_ids_inv st0 acc →
  bucle_ids_inv st0 (paso_tracker_simple acc det).
Proof.
  destruct acc as [[st usados] out].
  intros (Hus & Hno & Hsi & Hd & Hids & Hsig) (Hnd & Hnuevo).
  destruct (paso_tracker_simple_eleccion st usados out det)
    as (tid & st' & Heq & Hcase).
  destruct (paso_tracker_simple_efecto st usados out det)
    as (tid1 & st1 & Heq1 & Hotros & Hsome & _).
  rewrite Heq in Heq1. injection Heq1 as <- _ Hout.
  apply app_inj_tail in Hout as [_ Hout]. apply con_track_id_inj in Hout as <-.
  rewrite Heq. split.
  - intros H0. rewrite fmap_app. simpl. apply NoDup_app.
    split; [by apply Hnd|]. split; [|apply NoDup_singleton].
    intros x Hx Hx'. apply list_elem_of_singleton in Hx' as ->.
    apply Hus in Hx.
    destruct Hcase as [(_ & Hnin & _)|(-> & _)]; [done|].
    destruct (Hsi _ Hx) as [t Hget]. apply dict_get_Some_elem in Hget.
    apply (Hids H0) in Hget. lia.
  - intros tid' Hin. destruct (decide (tid' = tid)) as [->|Hne].
    + destruct Hcase as [(Hold & _ & _)|(-> & _)].
      * by apply Hnuevo.
      * right. done.
    + rewrite Hotros in Hin by done. by apply Hnuevo.
Qed.

Lemma bucle_ids_inv_foldl st0 dets :
  ∀ acc, bucle_inv st0 acc → bucle_ids_inv st0 acc →
         bucle_ids_inv st0 (foldl paso_tracker_simple acc dets).
Proof.
  induction dets as [|det dets IH]; intros acc Hinv Hids; simpl; [done|].
  apply IH; [by apply bucle_inv_paso|by apply bucle_ids_inv_paso].
Qed.

Lemma bucle_ids_inv_inicio st0 : bucle_ids_inv st0 (st0, ∅, []).
Proof. split; [intros _; apply NoDup_nil_2|]. intros tid ?. by left. Qed.

(** The output of the loop is the input, each detection with a track
    id. *)
Lemma bucle_forma dets :
  ∀ st usados out,
    ∃ ids, length ids = length dets
           ∧ snd (foldl paso_tracker_simple (st, usados, out) dets)
             = out ++ zip_with con_track_id dets ids.
Proof.
  induction dets as [|det dets IH]; intros st usados out.
  - exists []. by rewrite app_nil_r.
  - cbn [foldl].
    destruct (paso_tracker_simple_eleccion st usados out det)
      as (tid & st' & -> & _).
    destruct (IH st' ({[tid]} ∪ usados) (out ++ [con_track_id det tid]))
      as (ids & Hlen & ->).
    exists (tid :: ids). split; [simpl; by rewrite Hlen|].
    by rewrite <- app_assoc.
Qed.

(** Shape of a frame's result.  The built-in tracker returns the
    detections it was given, in the same order and with every field as
    it was, each with a track id; and every id it returns is an id of
    the track map when the call ends. *)
Theorem tracker_simple_salida (st : BidirectionalCounter)
    (dets : list Deteccion) :
  let r := _procesar_con_tracker_simple st dets in
  ∃ ids,
    length ids = length dets
    ∧ snd r = zip_with con_track_id dets ids
    ∧ length (snd r) = length dets
    ∧ Forall (fun tid => is_Some (dict_get tid (tracks (fst r)))) ids.
Proof.
  intros r. subst r. unfold _procesar_con_tracker_simple.
  destruct (bucle_forma dets st ∅ []) as (ids & Hlen & Hout).
  pose proof (bucle_inv_foldl st dets _ (bucle_inv_inicio st)) as Hinv.
  destruct (foldl paso_tracker_simple (st, ∅, []) dets) as [[st1 u1] o1].
  simpl in Hout. subst o1. destruct Hinv as (Hus & _ & Hsi & _).
  exists ids. split; [done|]. split; [done|]. split.
  - simpl. rewrite length_zip_with. lia.
  - apply Forall_forall. intros tid Hin. cbn [fst].
    assert (Hu : tid ∈ u1).
    { apply Hus. apply list_elem_of_fmap.
      apply list_elem_of_lookup in Hin as [i Hi].
      destruct (lookup_lt_is_Some_2 dets i) as [det Hdet].
      { rewrite <- Hlen. by eapply lookup_lt_Some. }
      exists (con_track_id det tid). split; [done|].
      apply list_elem_of_lookup. exists i.
      rewrite lookup_zip_with, Hdet. simpl. by rewrite Hi. }
    destruct (Hsi tid Hu) as [t Hget].
    rewrite limpiar_tracks_get, Hget.
    rewrite decide_False; [by eexists|].
    intros (info & _ & Hnu & _)%tracks_a_eliminar_elem. done.
Qed.

(** One track per detection.  In an object whose ids are below its next
    id, no two detections of a frame get the same track id. *)
Theorem tracker_simple_ids_distintos (st : BidirectionalCounter)
    (dets : list Deteccion) :
  ids_menores st →
  NoDup (det_track_id <$> snd (_procesar_con_tracker_simple st dets)).
Proof.
  intros Hids. unfold _procesar_con_tracker_simple.
  pose proof (bucle_ids_inv_foldl st dets _ (bucle_inv_inicio st)
                (bucle_ids_inv_inicio st)) as Hinv.
  destruct (foldl paso_tracker_simple (st, ∅, []) dets) as [[st1 u1] o1].
  destruct Hinv as [Hnd _]. simpl. by apply Hnd.
Qed.

(** Ids are not reused.  In an object whose ids are below its next id,
    an id that is in the map after a frame of the built-in tracker was
    in the map before it or is at least the next id of before the
    frame; the ids of the map stay below the new next id, which is
    never lower than the old one. *)
Theorem tracker_simple_ids_nuevos (st : BidirectionalCounter)
    (dets : list Deteccion) :
  ids_menores st →
  let st' := fst (_procesar_con_tracker_simple st dets) in
  (∀ tid, is_Some (dict_get tid (tracks st')) →
          is_Some (dict_get tid (tracks st))
          ∨ siguiente_track_id st <= tid < siguiente_track_id st')
  ∧ ids_menores st'
  ∧ siguiente_track_id st <= siguiente_track_id st'.
Proof.
  intros Hids st'. subst st'. unfold _procesar_con_tracker_simple.
  pose proof (bucle_inv_foldl st dets _ (bucle_inv_inicio st)) as Hinv.
  pose proof (bucle_ids_inv_foldl st dets _ (bucle_inv_inicio st)
                (bucle_ids_inv_inicio st)) as Hinv2.
  destruct (foldl paso_tracker_simple (st, ∅, []) dets) as [[st1 u1] o1].
  destruct Hinv as (_ & _ & _ & _ & Hids1 & Hsig).
  destruct Hinv2 as [_ Hnuevo]. cbn [fst].
  assert (Hids' : ids_menores (_limpiar_tracks_antiguos st1 u1)).
  { intros tid info Hin%limpiar_tracks_claves. exact (Hids1 Hids _ _ Hin). }
  split; [|split; [done|done]].
  intros tid [t Hget].
  assert (Hget1 : is_Some (dict_get tid (tracks st1))).
  { rewrite limpiar_tracks_get in Hget.
    destruct (dict_get tid (tracks st1)); [by eexists|done]. }
  destruct (Hnuevo tid Hget1) as [?|Hge]; [by left|]. right.
  split; [done|]. apply dict_get_Some_elem in Hget.
  by apply Hids' in Hget.
Qed.

Lemma ids_menores_estado_dos_tracks : ids_menores estado_dos_tracks.
Proof.
  intros tid info Hin. simpl in Hin.
  apply elem_of_cons in Hin as [Heq|Hin].
  - injection Heq as -> _. simpl. lia.
  - apply list_elem_of_singleton in Hin. injection Hin as -> _. simpl. lia.
Qed.

(** [tracker_simple_ids_distintos] at a frame with two bicycles near
    track 2: one is attached to it, the other gets the new id 3. *)
Lemma tracker_simple_ids_distintos_witness :
  NoDup (det_track_id
           <$> snd (_procesar_con_tracker_simple estado_dos_tracks
                      [deteccion_ej "bicicleta" 45 60;
                       deteccion_ej "bicicleta" 50 60])).
Proof.
  apply tracker_simple_ids_distintos. exact ids_menores_estado_dos_tracks.
Defined.

(** [tracker_simple_ids_nuevos] at the same frame. *)
Lemma tracker_simple_ids_nuevos_witness :
  ids_menores
    (fst (_procesar_con_tracker_simple estado_dos_tracks
            [deteccion_ej "bicicleta" 45 60;
             deteccion_ej "bicicleta" 50 60])).
Proof.
  exact (proj1 (proj2 (tracker_simple_ids_nuevos estado_dos_tracks
           [deteccion_ej "bicicleta" 45 60; deteccion_ej "bicicleta" 50 60]
           ids_menores_estado_dos_tracks))).
Defined.

Example frame_dos_bicicletas :
  det_track_id
    <$> snd (_procesar_con_tracker_simple estado_dos_tracks
               [deteccion_ej "bicicleta" 45 60;
                deteccion_ej "bicicleta" 50 60])
  = [Some 2; Some 3].
Proof. vm_compute. reflexivity. Qed.

(** ** Association in a frame of the built-in tracker *)

Lemma busqueda_exc_None cx cy cat usados l :
  foldl (paso_busqueda_exc cx cy cat usados) None l = None.
Proof. induction l as [|e l IH]; [done|]. simpl. exact IH. Qed.


(** The search raises when some distance it asks for is not defined. *)
Lemma busqueda_exc_falla cx cy cat usados l :
  ∀ acc,
    (∃ e ux uy, e ∈ l ∧ candidato cat usados e ux uy
                ∧ 2 ^ 64 <= distancia2 cx cy ux uy) →
    foldl (paso_busqueda_exc cx cy cat usados) acc l = None.
Proof.
  induction l as [|[tid info] l IH]; intros acc (e & ux & uy & Hin & Hc & Hd).
  - by apply elem_of_nil in Hin.
  - cbn [foldl]. apply elem_of_cons in Hin as [->|Hin].
    + destruct Hc as (Hus & Hcat & Hlast). simpl in Hus, Hcat, Hlast.
      destruct acc as [a|]; [|apply busqueda_exc_None].
      unfold paso_busqueda_exc.
      rewrite decide_False by done.
      rewrite bool_decide_eq_true_2 by done. cbn [negb].
      rewrite Hlast. unfold raiz_definida.
      destruct (Z.ltb_spec (distancia2 cx cy ux uy) (2 ^ 64)); [lia|].
      apply busqueda_exc_None.
    + apply IH. by exists e, ux, uy.
Qed.

(** When the search returns, it returns what
    [_encontrar_track_cercano] says. *)
Lemma busqueda_exc_acuerdo cx cy cat usados l :
  ∀ acc a',
    foldl (paso_busqueda_exc cx cy cat usados) acc l = Some a' →
    ∃ a, acc = Some a ∧ a' = foldl (paso_busqueda cx cy cat usados) a l.
Proof.
  induction l as [|[tid info] l IH]; intros acc a' Hf.
  - by exists a'.
  - cbn [foldl] in Hf. apply IH in Hf as (a1 & Hpaso & ->).
    destruct acc as [a|]; [|done]. exists a. split; [done|].
    cbn [foldl]. f_equal.
    unfold paso_busqueda_exc in Hpaso. unfold paso_busqueda.
    destruct (decide (tid ∈ usados)); [congruence|].
    destruct (negb (bool_decide (categoria info = cat))); [congruence|].
    destruct (last (historial_posiciones info)) as [[ux uy]|]; [|congruence].
    destruct (raiz_definida _); [|done].
    destruct (menor_que _ _ && _); congruence.
Qed.


Lemma encontrar_exc_falla st cx cy cat usados :
  (∃ e ux uy, e ∈ tracks st ∧ candidato cat usados e ux uy
              ∧ 2 ^ 64 <= distancia2 cx cy ux uy) →
  _encontrar_track_cercano_exc st cx cy cat usados = None.
Proof.
  intros Hbad. unfold _encontrar_track_cercano_exc.
  by rewrite busqueda_exc_falla.
Qed.

Lemma encontrar_exc_acuerdo st cx cy cat usados r :
  _encontrar_track_cercano_exc st cx cy cat usados = Some r →
  r = _encontrar_track_cercano st cx cy cat usados.
Proof.
  unfold _encontrar_track_cercano_exc, _encontrar_track_cercano.
  destruct (foldl (paso_busqueda_exc _ _ _ _) _ _) as [a'|] eqn:Hf; [|done].
  intros [= <-].
  apply busqueda_exc_acuerdo in Hf as (a & [= <-] & ->). done.
Qed.

Lemma paso_tracker_simple_exc_acuerdo acc det acc' :
  paso_tracker_simple_exc acc det = Some acc' →
  ∃ a, acc = Some a ∧ acc' = paso_tracker_simple a det.
Proof.
  destruct acc as [[[st usados] out]|]; [|done]. intros Hp.
  exists (st, usados, out). split; [done|].
  unfold paso_tracker_simple_exc in Hp. unfold paso_tracker_simple, asociar.
  destruct (centro det) as [cx cy].
  destruct (_encontrar_track_cercano_exc st cx cy (det_categoria det) usados)
    as [r|] eqn:Henc; [|done].
  apply encontrar_exc_acuerdo in Henc as ->.
  destruct (_encontrar_track_cercano st cx cy (det_categoria det) usados);
    by injection Hp as <-.
Qed.


Lemma bucle_exc_acuerdo dets :
  ∀ acc acc',
    foldl paso_tracker_simple_exc acc dets = Some acc' →
    ∃ a, acc = Some a ∧ acc' = foldl paso_tracker_simple a dets.
Proof.
  induction dets as [|det dets IH]; intros acc acc' Hf.
  - by exists acc'.
  - cbn [foldl] in Hf. apply IH in Hf as (a1 & Hpaso & ->).
    apply paso_tracker_simple_exc_acuerdo in Hpaso as (a & -> & ->).
    by exists a.
Qed.

(** On every call that returns, [_procesar_con_tracker_simple] is what
    the method does: the properties shown of it hold of every such
    call. *)
Lemma procesar_simple_exc_acuerdo st dets r :
  _procesar_con_tracker_simple_exc st dets = Some r →
  r = _procesar_con_tracker_simple st dets.
Proof.
  unfold _procesar_con_tracker_simple_exc, _procesar_con_tracker_simple.
  destruct (foldl paso_tracker_simple_exc _ _) as [[[st1 u1] o1]|] eqn:Hf;
    [|done].
  intros [= <-]. apply bucle_exc_acuerdo in Hf as (a & [= <-] & Heq).
  by rewrite <- Heq.
Qed.








(** The same frame: the first bicycle is attached to track 2, 5 pixels
    away, and the second, for which track 2 is taken, gets the new id
    3; an adult at the place of the bicycle track gets a new track as
    well. *)
Example frame_otra_categoria :
  det_track_id
    <$> snd (_procesar_con_tracker_simple estado_dos_tracks
               [deteccion_ej "adulto" 40 60])
  = [Some 3].
Proof. vm_compute. reflexivity. Qed.

(** Outside the domain of [np.sqrt]: an adult 2 ** 32 pixels from the
    only adult track makes the search, and with it the frame, raise. *)
Example frame_lejano_falla :
  distancia2 (centro deteccion_lejana).1 (centro deteccion_lejana).2 100 50
  = 2 ^ 64
  ∧ _encontrar_track_cercano_exc estado_un_track (100 + 2 ^ 32) 50 "adulto" ∅
    = None
  ∧ _procesar_con_tracker_simple_exc estado_un_track [deteccion_lejana]
    = None.
Proof.
  split; [by vm_compute|].
  assert (Hfalla : _encontrar_track_cercano_exc estado_un_track
                     (100 + 2 ^ 32) 50 "adulto" ∅ = None).
  { apply encontrar_exc_falla.
    exists (1, nuevo_track 1 "adulto" 100 50), 100, 50.
    split; [by left|]. split; [|by vm_compute].
    split; [apply not_elem_of_empty|done]. }
  split; [done|].
  unfold _procesar_con_tracker_simple_exc. cbn [foldl].
  unfold paso_tracker_simple_exc. cbn [centro deteccion_lejana deteccion_ej
    det_categoria]. by rewrite Hfalla.
Qed.

(** ** The DeepSort path *)

Lemma verificar_cruce_conserva st tid k :
  is_Some (dict_get k (tracks st)) →
  is_Some (dict_get k (tracks (_verificar_cruce st tid))).
Proof.
  intros [t Hget]. destruct (decide (tid = k)) as [->|Hne].
  - rewrite (verificar_cruce_mismo _ _ _ Hget). by eexists.
  - rewrite verificar_cruce_otros by done. by eexists.
Qed.

Lemma actualizar_track_conserva st tid cat cx cy k :
  is_Some (dict_get k (tracks st)) ∨ k = tid →
  is_Some (dict_get k (tracks (_actualizar_track st tid cat cx cy))).
Proof.
  rewrite actualizar_track_get. case_decide; [by eexists|].
  intros [?|?]; done.
Qed.

Lemma bucle_deepsort_efecto ts :
  ∀ st out,
    let r := foldl paso_deepsort (st, out) ts in
    det_track_id <$> snd r
    = (det_track_id <$> out)
      ++ ((fun t => Some (ds_track_id t))
            <$> filter (fun t => is_confirmed t = true) ts)
    ∧ siguiente_track_id (fst r) = siguiente_track_id st
    ∧ (∀ k, is_Some (dict_get k (tracks st)) →
            is_Some (dict_get k (tracks (fst r))))
    ∧ (∀ t, t ∈ ts → is_confirmed t = true →
            is_Some (dict_get (ds_track_id t) (tracks (fst r)))).
Proof.
  induction ts as [|track ts IH]; intros st out r; subst r.
  - simpl. rewrite app_nil_r. repeat split; try done.
    intros t Hin. by apply elem_of_nil in Hin.
  - cbn [foldl]. unfold paso_deepsort at 2 4 6 8.
    destruct (is_confirmed track) eqn:Hconf; simpl negb; cbv iota.
    + destruct (to_ltrb track) as [[[x1 y1] x2] y2].
      match goal with
      | |- context [foldl paso_deepsort (?s, ?o) ts] =>
          destruct (IH s o) as (Hids & Hsig & Hkeep & Hconfs);
          set (s1 := s) in *; set (o1 := o) in *
      end.
      split; [|split; [|split]].
      * rewrite Hids. unfold o1. rewrite fmap_app.
        rewrite filter_cons_True by done. simpl. by rewrite <- app_assoc.
      * rewrite Hsig. unfold s1. rewrite verificar_cruce_siguiente.
        by destruct (actualizar_track_config st (ds_track_id track)
                       (default "adulto" (get_det_class track))
                       ((x1 + x2) `div` 2) ((y1 + y2) `div` 2))
          as (_ & _ & _ & _ & _ & ->).
      * intros k Hk. apply Hkeep. unfold s1.
        apply verificar_cruce_conserva, actualizar_track_conserva. by left.
      * intros t [->|Hin]%elem_of_cons Ht; [|by apply Hconfs].
        apply Hkeep. unfold s1.
        apply verificar_cruce_conserva, actualizar_track_conserva. by right.
    + destruct (IH st out) as (Hids & Hsig & Hkeep & Hconfs).
      split; [|split; [done|split; [done|]]].
      * rewrite Hids. rewrite filter_cons_False; [done|]. congruence.
      * intros t [->|Hin]%elem_of_cons Ht; [congruence|by apply Hconfs].
Qed.

(** The DeepSort path.  The result lists the confirmed tracks of the
    external tracker, in its order and under its ids; unconfirmed
    tracks are skipped.  The call never removes a track from the map,
    leaves every confirmed track in the map, and does not touch the
    next id of the built-in tracker. *)
Theorem deepsort_salida (Frame : Type)
    (update_tracks :
       list ((Z * Z * Z * Z) * float * string) → Frame → list DSTrack)
    (st : BidirectionalCounter) (dets : list Deteccion) (frame : Frame) :
  let ts := update_tracks (a_deepsort <$> dets) frame in
  let r := _procesar_con_deepsort Frame update_tracks st dets frame in
  det_track_id <$> snd r
  = (fun t => Some (ds_track_id t))
      <$> filter (fun t => is_confirmed t = true) ts
  ∧ siguiente_track_id (fst r) = siguiente_track_id st
  ∧ (∀ k, is_Some (dict_get k (tracks st)) →
          is_Some (dict_get k (tracks (fst r))))
  ∧ (∀ t, t ∈ ts → is_confirmed t = true →
          is_Some (dict_get (ds_track_id t) (tracks (fst r)))).
Proof.
  intros ts r. subst ts r. unfold _procesar_con_deepsort.
  apply (bucle_deepsort_efecto _ st []).
Qed.

(** ** Staying near the line *)

Lemma paso_desarmado st tid cat cx cy t xl yl :
  dict_get tid (tracks st) = Some t →
  last (historial_posiciones t) = Some (xl, yl) →
  puede_cruzar t = false →
  Z.abs (cx - linea_x st) <= margen_cruce st →
  let st2 := _verificar_cruce (_actualizar_track st tid cat cx cy) tid in
  contadores st2 = contadores st
  ∧ llamadas_callback st2 = llamadas_callback st
  ∧ linea_x st2 = linea_x st
  ∧ margen_cruce st2 = margen_cruce st
  ∧ ∃ t2, dict_get tid (tracks st2) = Some t2
          ∧ last (historial_posiciones t2) = Some (cx, cy)
          ∧ puede_cruzar t2 = false
          ∧ cruzado t2 = cruzado t.
Proof.
  intros Hget Hlast Hp Hm st2. subst st2.
  set (st1 := _actualizar_track st tid cat cx cy).
  destruct (actualizar_track_config st tid cat cx cy)
    as (Hc & Hl & Hlin & Hmar & Hcb & _).
  fold st1 in Hc, Hl, Hlin, Hmar, Hcb.
  assert (Hget1 : dict_get tid (tracks st1) = Some (avanzar_track cx cy t)).
  { unfold st1. rewrite actualizar_track_get, decide_True by done.
    by rewrite Hget. }
  pose proof (avanzar_track_dos_ultimas cx cy t xl yl Hlast) as Hdos.
  pose proof (avanzar_track_last cx cy t xl yl Hlast) as Hlast1.
  destruct (verificar_cruce_resto st1 tid _ xl cx Hget1 Hdos)
    as [->|(_ & _ & Hfar & _)].
  - intros (_ & _ & Hp'). simpl in Hp'. congruence.
  - intros (_ & _ & Hp'). simpl in Hp'. congruence.
  - repeat split; try done. by exists (avanzar_track cx cy t).
  - rewrite Hlin, Hmar in Hfar. lia.
Qed.

(** No count while the track lingers.  A disarmed track whose further
    samples all lie within the margin of the line, on either side and in
    any order, is not counted again, triggers no callback and stays
    disarmed. *)
Theorem sin_conteo_dentro_del_margen (tid : Z) (cat : string)
    (muestras : list (Z * Z)) (st : BidirectionalCounter) (t : TrackInfo)
    (xl yl : Z) :
  dict_get tid (tracks st) = Some t →
  last (historial_posiciones t) = Some (xl, yl) →
  puede_cruzar t = false →
  Forall (fun m => Z.abs (fst m - linea_x st) <= margen_cruce st) muestras →
  let st' := seguir tid cat st muestras in
  contadores st' = contadores st
  ∧ llamadas_callback st' = llamadas_callback st
  ∧ ∃ t', dict_get tid (tracks st') = Some t'
          ∧ puede_cruzar t' = false
          ∧ cruzado t' = cruzado t.
Proof.
  revert st t xl yl.
  induction muestras as [|[cx cy] ms IH]; intros st t xl yl Hget Hlast Hp Hall.
  - simpl. repeat split. by exists t.
  - apply Forall_cons in Hall as [Hm Hall]. simpl in Hm.
    cbn [seguir foldl fst snd].
    destruct (paso_desarmado st tid cat cx cy t xl yl Hget Hlast Hp Hm)
      as (Hc & Hl & Hlin & Hmar & t2 & Hget2 & Hlast2 & Hp2 & Hcr2).
    destruct (IH _ t2 cx cy Hget2 Hlast2 Hp2) as (Hc' & Hl' & t' & Hg' & Hp' & Hcr').
    { by rewrite Hlin, Hmar. }
    unfold seguir in Hc', Hl', Hg'. rewrite Hc', Hl', Hc, Hl.
    repeat split. exists t'. repeat split; [done|done|congruence].
Qed.

(** [sin_conteo_dentro_del_margen] at the adult counted at x = 200,
    line at 150 and margin 30, then seen at 160, 140, 170 and 125. *)
Lemma sin_conteo_dentro_del_margen_witness :
  contadores
    (seguir 1 "adulto" (con_tracks estado_ej [(1, track_cruzado)])
       [(160, 50); (140, 50); (170, 50); (125, 50)])
  = contadores estado_ej.
Proof.
  refine (proj1 (sin_conteo_dentro_del_margen 1 "adulto"
                   [(160, 50); (140, 50); (170, 50); (125, 50)]
                   (con_tracks estado_ej [(1, track_cruzado)]) track_cruzado
                   200 50 eq_refl eq_refl eq_refl _)).
  repeat constructor; simpl; lia.
Defined.

(** ** A right-to-left pass *)

Lemma paso_cruce_der_izq st tid cat cx cy t xl yl c :
  dict_get tid (tracks st) = Some t →
  last (historial_posiciones t) = Some (xl, yl) →
  linea_x st < xl → cx <= linea_x st → puede_cruzar t = true →
  contadores st !! categoria t = Some c →
  let st2 := _verificar_cruce (_actualizar_track st tid cat cx cy) tid in
  contadores st2
  = <[categoria t := incrementar DERECHA_A_IZQUIERDA c]> (contadores st)
  ∧ llamadas_callback st2
    = (if callback_cruce st
       then llamadas_callback st ++ [(categoria t, DERECHA_A_IZQUIERDA, tid)]
       else llamadas_callback st)
  ∧ linea_x st2 = linea_x st
  ∧ callback_cruce st2 = callback_cruce st
  ∧ ∃ t2, dict_get tid (tracks st2) = Some t2
          ∧ last (historial_posiciones t2) = Some (cx, cy)
          ∧ categoria t2 = categoria t.
Proof.
  intros Hget Hlast H1 H2 Hp Hcat st2. subst st2.
  set (st1 := _actualizar_track st tid cat cx cy).
  destruct (actualizar_track_config st tid cat cx cy)
    as (Hc & Hl & Hlin & Hm & Hcb & _). fold st1 in Hc, Hl, Hlin, Hm, Hcb.
  assert (Hget1 : dict_get tid (tracks st1) = Some (avanzar_track cx cy t)).
  { unfold st1. rewrite actualizar_track_get, decide_True by done.
    by rewrite Hget. }
  pose proof (avanzar_track_dos_ultimas cx cy t xl yl Hlast) as Hdos.
  pose proof (avanzar_track_last cx cy t xl yl Hlast) as Hlast1.
  rewrite (verificar_cruce_der_izq st1 tid _ xl cx Hget1 Hdos);
    [|lia|lia|done].
  cbn [con_tracks contadores llamadas_callback linea_x callback_cruce tracks].
  rewrite (registrar_cruce_contadores _ _ _ _ Hget1).
  rewrite (registrar_cruce_llamadas _ _ _ _ Hget1).
  destruct (registrar_cruce_config st1 tid DERECHA_A_IZQUIERDA)
    as (-> & _ & _ & ->).
  cbn [avanzar_track categoria]. rewrite Hc, Hcat, Hl, Hcb, Hlin.
  repeat split.
  exists (desarmar "izquierda"
            (marcar_cruzado DERECHA_A_IZQUIERDA (avanzar_track cx cy t))).
  rewrite dict_get_alter_eq, registrar_cruce_tracks, dict_get_alter_eq, Hget1.
  done.
Qed.

Lemma seguir_a_la_izquierda tid cat muestras :
  ∀ st t xl yl,
    dict_get tid (tracks st) = Some t →
    last (historial_posiciones t) = Some (xl, yl) →
    xl <= linea_x st →
    monotona_desc xl (fst <$> muestras) →
    contadores (seguir tid cat st muestras) = contadores st
    ∧ llamadas_callback (seguir tid cat st muestras) = llamadas_callback st.
Proof.
  induction muestras as [|[cx cy] ms IH]; intros st t xl yl Hget Hlast Hx Hmono.
  - done.
  - destruct Hmono as [Hle Hmono]. simpl in Hle. cbn [seguir foldl fst snd].
    destruct (paso_sin_cruce st tid cat cx cy t xl yl Hget Hlast)
      as (Hc & Hl & Hlin & _ & t2 & Hget2 & Hlast2 & _).
    { intros (? & ? & ?). lia. }
    { intros (? & ? & ?). lia. }
    destruct (IH _ t2 cx cy Hget2 Hlast2) as [Hc' Hl'].
    { rewrite Hlin. lia. }
    { done. }
    unfold seguir in Hc', Hl'. rewrite Hc', Hl'. done.
Qed.

Lemma seguir_pasada_armada_der_izq tid cat muestras :
  ∀ st t x0 y0 c,
    dict_get tid (tracks st) = Some t →
    last (historial_posiciones t) = Some (x0, y0) →
    puede_cruzar t = true →
    contadores st !! categoria t = Some c →
    linea_x st < x0 →
    monotona_desc x0 (fst <$> muestras) →
    (∃ xn yn, last muestras = Some (xn, yn) ∧ xn <= linea_x st) →
    contadores (seguir tid cat st muestras)
    = <[categoria t := incrementar DERECHA_A_IZQUIERDA c]> (contadores st)
    ∧ llamadas_callback (seguir tid cat st muestras)
      = (if callback_cruce st
         then llamadas_callback st ++ [(categoria t, DERECHA_A_IZQUIERDA, tid)]
         else llamadas_callback st).
Proof.
  induction muestras as [|[cx cy] ms IH];
    intros st t x0 y0 c Hget Hlast Hp Hcat Hx Hmono (xn & yn & Hfin & Hxn).
  - done.
  - destruct Hmono as [Hle Hmono]. simpl in Hle. cbn [seguir foldl fst snd].
    destruct (decide (linea_x st < cx)) as [Hder|Hizq].
    + destruct (paso_sin_cruce st tid cat cx cy t x0 y0 Hget Hlast)
        as (Hc & Hl & Hlin & Hcb & t2 & Hget2 & Hlast2 & Hcat2 & Hp2).
      { intros (? & ? & ?). lia. }
      { intros (? & ? & ?). lia. }
      destruct ms as [|m ms'].
      { simpl in Hfin. injection Hfin as -> ->. lia. }
      destruct (IH _ t2 cx cy c Hget2 Hlast2 (Hp2 Hp)) as [Hc' Hl'].
      { by rewrite Hcat2, Hc. }
      { by rewrite Hlin. }
      { done. }
      { exists xn, yn. rewrite Hlin. split; [|done].
        by rewrite last_cons_cons in Hfin. }
      unfold seguir in Hc', Hl'. rewrite Hc', Hl', Hc, Hl, Hcb, Hcat2. done.
    + destruct (paso_cruce_der_izq st tid cat cx cy t x0 y0 c Hget Hlast)
        as (Hc & Hl & Hlin & Hcb & t2 & Hget2 & Hlast2 & Hcat2);
        [lia|lia|done|done|].
      destruct (seguir_a_la_izquierda tid cat ms _ t2 cx cy Hget2 Hlast2)
        as [Hc' Hl'].
      { rewrite Hlin. lia. }
      { done. }
      unfold seguir in Hc', Hl'. rewrite Hc', Hl', Hc, Hl. done.
Qed.

(** One count per right-to-left pass.  A track created at [x0],
    strictly right of the line, whose further samples never move right
    and end on the line or left of it: handling the samples in order
    adds one to the cell (category, right-to-left), changes no other
    cell, and calls a configured callback once.  The category is one of
    the keys of the counters. *)
Theorem una_pasada_der_izq (st : BidirectionalCounter) (tid : Z)
    (cat cat' : string) (c : Celda) (x0 y0 xn yn : Z)
    (muestras : list (Z * Z)) :
  dict_get tid (tracks st) = Some (nuevo_track tid cat x0 y0) →
  contadores st !! cat = Some c →
  linea_x st < x0 →
  monotona_desc x0 (fst <$> muestras) →
  last muestras = Some (xn, yn) →
  xn <= linea_x st →
  let st' := seguir tid cat' st muestras in
  contadores st'
  = <[cat := {| izq_der := izq_der c; der_izq := der_izq c + 1 |}]>
      (contadores st)
  ∧ llamadas_callback st'
    = (if callback_cruce st
       then llamadas_callback st ++ [(cat, DERECHA_A_IZQUIERDA, tid)]
       else llamadas_callback st).
Proof.
  intros Hget Hcat Hx Hmono Hfin Hxn st'. subst st'.
  destruct (seguir_pasada_armada_der_izq tid cat' muestras st _ x0 y0 c Hget)
    as [Hc Hl]; try done; by exists xn, yn.
Qed.

(** [una_pasada_der_izq] at a track created at x = 200 and sampled at
    180, 151, 150, 150 and 90, line at 150. *)
Lemma una_pasada_der_izq_witness :
  contadores
    (seguir 1 "adulto"
       (con_tracks estado_ej [(1, nuevo_track 1 "adulto" 200 50)])
       [(180, 50); (151, 51); (150, 52); (150, 52); (90, 50)])
  = <["adulto" := {| izq_der := 0; der_izq := 1 |}]> (contadores estado_ej).
Proof.
  refine (proj1 (una_pasada_der_izq
                   (con_tracks estado_ej [(1, nuevo_track 1 "adulto" 200 50)])
                   1 "adulto" "adulto" celda_cero 200 50 90 50
                   [(180, 50); (151, 51); (150, 52); (150, 52); (90, 50)]
                   eq_refl eq_refl _ _ eq_refl _)).
  - simpl. lia.
  - simpl. lia.
  - simpl. lia.
Defined.

(** ** Crossed tracks kept in memory *)

Lemma sublist_fmap_fst {A B : Type} (l1 l2 : list (A * B)) :
  l1 `sublist_of` l2 → (fst <$> l1) `sublist_of` (fst <$> l2).
Proof.
  induction 1 as [|x l1 l2 _ IH|x l1 l2 _ IH]; simpl.
  - constructor.
  - by constructor.
  - by constructor.
Qed.

Lemma limpiar_tracks_diccionario st activos :
  diccionario (tracks st) →
  diccionario (tracks (_limpiar_tracks_antiguos st activos)).
Proof.
  unfold _limpiar_tracks_antiguos. simpl.
  generalize (tracks_a_eliminar (tracks st) activos) as l.
  generalize (tracks st) as d. intros d l. revert d.
  induction l as [|k l IH]; intros d Hd; simpl; [done|].
  by apply IH, dict_del_diccionario.
Qed.

(** A track left in the map by the eviction is active or has not
    crossed. *)
Lemma limpiar_tracks_restantes st activos tid t :
  diccionario (tracks st) →
  (tid, t) ∈ tracks (_limpiar_tracks_antiguos st activos) →
  tid ∈ activos ∨ cruzado t = false.
Proof.
  intros Hd Hin.
  pose proof (dict_elem_get _ _ _ (limpiar_tracks_diccionario st activos Hd)
                Hin) as Hget.
  rewrite limpiar_tracks_get in Hget.
  destruct (dict_get tid (tracks st)) as [t0|] eqn:Hget0; [|done].
  case_decide as Hel; [done|]. injection Hget as ->.
  destruct (decide (tid ∈ activos)) as [?|Hna]; [by left|]. right.
  destruct (cruzado t) eqn:Hcr; [|done]. exfalso. apply Hel.
  apply tracks_a_eliminar_elem. exists t.
  split; [by apply dict_get_Some_elem|done].
Qed.

(** Crossed tracks do not pile up.  After a frame of the built-in
    tracker, the number of crossed tracks reported by
    [obtener_estadisticas] is at most the number of detections of that
    frame, and never more than the number of tracks. *)
Theorem tracks_cruzados_acotados (st : BidirectionalCounter)
    (dets : list Deteccion) :
  diccionario (tracks st) →
  let e := obtener_estadisticas (fst (_procesar_con_tracker_simple st dets)) in
  tracks_que_cruzaron e <= Z.of_nat (length dets)
  ∧ 0 <= tracks_que_cruzaron e <= tracks_activos e.
Proof.
  intros Hd e. subst e. unfold obtener_estadisticas.
  cbn [tracks_que_cruzaron tracks_activos]. split.
  2:{ split; [lia|]. apply inj_le, length_filter. }
  unfold _procesar_con_tracker_simple.
  destruct (bucle_forma dets st ∅ []) as (ids & Hlen & Hout).
  pose proof (bucle_inv_foldl st dets _ (bucle_inv_inicio st)) as Hinv.
  destruct (foldl paso_tracker_simple (st, ∅, []) dets) as [[st1 u1] o1].
  simpl in Hout. destruct Hinv as (Hus & _ & _ & Hd1 & _). cbn [fst].
  set (L := tracks (_limpiar_tracks_antiguos st1 u1)).
  set (C := filter (fun e => cruzado (snd e) = true) L).
  assert (HdL : diccionario L)
    by (apply limpiar_tracks_diccionario; by apply Hd1).
  assert (Hnd : NoDup (Some <$> (fst <$> C))).
  { apply NoDup_fmap_2; [apply _|].
    apply (sublist_NoDup (fst <$> C) (fst <$> L)).
    - exact HdL.
    - apply sublist_fmap_fst. unfold C. apply sublist_filter. }
  assert (Hsub : ∀ x, x ∈ Some <$> (fst <$> C) → x ∈ det_track_id <$> o1).
  { intros x (tid & -> & Hx)%list_elem_of_fmap.
    apply list_elem_of_fmap in Hx as ([tid' t] & -> & Hin).
    apply list_elem_of_filter in Hin as [Hcr Hin]. simpl in *.
    apply Hus.
    destruct (limpiar_tracks_restantes st1 u1 tid' t (Hd1 Hd) Hin); [done|].
    congruence. }
  pose proof (submseteq_length _ _ (NoDup_submseteq _ _ Hnd Hsub)) as Hle.
  rewrite !length_fmap in Hle. rewrite Hout, length_zip_with in Hle. lia.
Qed.

(** [tracks_cruzados_acotados] at a frame with one bicycle and two
    tracks in the map. *)
Lemma tracks_cruzados_acotados_witness :
  tracks_que_cruzaron
    (obtener_estadisticas
       (fst (_procesar_con_tracker_simple estado_dos_tracks
               [deteccion_ej "bicicleta" 250 200])))
  <= 1.
Proof.
  refine (proj1 (tracks_cruzados_acotados estado_dos_tracks
                   [deteccion_ej "bicicleta" 250 200] _)).
  unfold diccionario. simpl. apply NoDup_cons. split.
  - intros Hin. apply list_elem_of_singleton in Hin. discriminate Hin.
  - apply NoDup_singleton.
Defined.

(** ** The clamped line position *)

Lemma float_ltb_leb (x y : float) :
  PrimFloat.ltb x y = true → PrimFloat.leb x y = true.
Proof.
  rewrite ltb_spec, leb_spec. unfold SFltb, SFleb.
  destruct (SFcompare (Prim2SF x) (Prim2SF y)) as [[]|]; congruence.
Qed.

(** The setter keeps the line off the edges.  Whatever float it is
    given -- out of range, infinite or NaN -- [actualizar_posicion_linea]
    stores a relative position [r] with [0.1 <= r <= 0.9], and calling
    it again with the same argument, or with the stored [r], changes
    nothing. *)
Theorem posicion_linea_acotada (st st' : BidirectionalCounter) (p : float) :
  actualizar_posicion_linea st p = Some st' →
  let r := linea_posicion_relativa st' in
  PrimFloat.leb 0.1 r = true
  ∧ PrimFloat.leb r 0.9 = true
  ∧ actualizar_posicion_linea st' p = Some st'
  ∧ actualizar_posicion_linea st' r = Some st'.
Proof.
  intros Hact r. subst r.
  destruct (actualizar_posicion_linea_efecto _ _ _ Hact) as (Hr & Hw & Hlx).
  assert (Hfix : ∀ q,
            PyFloat.py_max 0.1 (PyFloat.py_min 0.9 q)
            = linea_posicion_relativa st' →
            actualizar_posicion_linea st' q = Some st').
  { intros q Hq. unfold actualizar_posicion_linea. rewrite Hq, Hlx.
    by destruct st'. }
  destruct (acotar_posicion p) as [H|[H|(H & H1 & H9)]]; simpl in H;
    rewrite <- Hr in H.
  - rewrite H. split; [reflexivity|]. split; [reflexivity|].
    split; [by apply Hfix|]. apply Hfix. by rewrite H.
  - rewrite H. split; [reflexivity|]. split; [reflexivity|].
    split; [by apply Hfix|]. apply Hfix. by rewrite H.
  - rewrite H. split; [by apply float_ltb_leb|].
    split; [by apply float_ltb_leb|].
    split; by apply Hfix.
Qed.

(** [posicion_linea_acotada] at a request for position 7.5 on a frame
    300 pixels wide: 0.9 is stored and the line is at pixel 270. *)
Lemma posicion_linea_acotada_witness :
  ∃ st', actualizar_posicion_linea estado_ej 7.5 = Some st'
         ∧ PrimFloat.leb (linea_posicion_relativa st') 0.9 = true
         ∧ linea_x st' = 270.
Proof.
  destruct (actualizar_posicion_linea estado_ej 7.5) as [st'|] eqn:Hact.
  - exists st'. split; [reflexivity|].
    split; [exact (proj1 (proj2 (posicion_linea_acotada estado_ej st' 7.5 Hact)))|].
    vm_compute in Hact. injection Hact as <-. reflexivity.
  - vm_compute in Hact. discriminate Hact.
Defined.

(** ** The keys of the counters *)

Lemma ejecutar_categorias op st st' :
  ejecutar op st = Some st' → categorias st' = categorias st.
Proof.
  destruct op as [p|w hh|cat cx cy|tid0 cat cx cy|tid0|tid0 d|activos|];
    simpl; intros Hej; try (injection Hej as <-); try done.
  - by destruct (actualizar_linea_conteo _ _ _ Hej) as (_ & _ & _ & _ & ->).
  - by destruct (actualizar_dimensiones_conteo _ _ _ _ Hej)
      as (_ & _ & _ & _ & ->).
  - unfold _actualizar_track. by destruct (dict_get tid0 (tracks st)).
  - unfold _verificar_cruce.
    destruct (dict_get tid0 (tracks st)) as [t|] eqn:Hget; [|done].
    destruct (dos_ultimas_x (historial_posiciones t)) as [[prev cur]|]; [|done].
    unfold _registrar_cruce. rewrite Hget.
    repeat case_match; done.
  - unfold _registrar_cruce.
    destruct (dict_get tid0 (tracks st)) as [t|]; [|done].
    by destruct (contadores st !! categoria t).
Qed.

Lemma ejecutar_claves op st st' :
  ejecutar op st = Some st' →
  (∀ cat, is_Some (contadores st !! cat) ↔ cat ∈ categorias st) →
  (∀ cat, is_Some (contadores st' !! cat) ↔ cat ∈ categorias st').
Proof.
  intros Hej Hk cat. rewrite (ejecutar_categorias _ _ _ Hej).
  assert (op = OpReiniciarContadores ∨ op_sin_reinicio op) as [->|Hop]
    by (destruct op; (by left) || (by right)).
  - simpl in Hej. injection Hej as <-. simpl.
    rewrite inicializar_contadores_lookup. case_decide; [|by split; [intros []|]].
    split; [done|]. by eexists.
  - rewrite <- Hk.
    destruct (ejecutar_conteo op st st' Hop Hej)
      as [_ [[-> _]|(cat0 & c & d & tid & Hcat & -> & _)]]; [done|].
    destruct (decide (cat = cat0)) as [->|Hne].
    + rewrite lookup_insert_eq, Hcat. split; by eexists.
    + by rewrite lookup_insert_ne.
Qed.

(** From the constructor on, the categories are fixed and the counters
    have exactly their cells. *)
Lemma claves_fijas_run (w h : Z) (rel : float) (margen : Z)
    (cats : option (list string)) (ds cb ok : bool)
    (st0 st : BidirectionalCounter) (ops : list Operacion) :
  __init__ w h rel margen cats ds cb ok = Some st0 →
  ejecutar_todas ops st0 = Some st →
  categorias st = match cats with
                  | None | Some [] => categorias_por_defecto
                  | Some l => l
                  end
  ∧ (∀ cat, is_Some (contadores st !! cat) ↔ cat ∈ categorias st).
Proof.
  intros Hinit Hops.
  assert (H0 : categorias st0 = match cats with
                                | None | Some [] => categorias_por_defecto
                                | Some l => l
                                end
               ∧ (∀ cat, is_Some (contadores st0 !! cat)
                         ↔ cat ∈ categorias st0)).
  { unfold __init__ in Hinit.
    destruct (linea_en_pixeles w rel) as [lx|]; [|done].
    injection Hinit as <-. simpl. split; [done|]. intros cat.
    rewrite inicializar_contadores_lookup.
    case_decide; [|by split; [intros []|]]. split; [done|]. by eexists. }
  clear Hinit. revert st0 Hops H0.
  induction ops as [|op ops IH]; intros st0; simpl.
  - by intros [= ->].
  - destruct (ejecutar op st0) as [st1|] eqn:Hop; [|done].
    intros Hops [Hc Hk]. apply (IH st1 Hops). split.
    + by rewrite (ejecutar_categorias _ _ _ Hop).
    + by apply (ejecutar_claves op st0).
Qed.

(** The counters always hold the configured categories.  In every state
    reached from the constructor by operations of the class, resets and
    frames included, the list of categories is the one fixed at
    construction (the given list, or the five default categories when
    none or an empty list is given) and the counters map has a cell for
    a category exactly when the category is in that list. *)
Theorem contadores_claves_fijas (w h : Z) (rel : float) (margen : Z)
    (cats : option (list string)) (ds cb ok : bool)
    (st0 st : BidirectionalCounter) (ops : list Operacion) :
  __init__ w h rel margen cats ds cb ok = Some st0 →
  ejecutar_todas ops st0 = Some st →
  categorias st = match cats with
                  | None | Some [] => categorias_por_defecto
                  | Some l => l
                  end
  ∧ (∀ cat, is_Some (contadores st !! cat) ↔ cat ∈ categorias st).
Proof. apply claves_fijas_run. Qed.

(** [contadores_claves_fijas] at a counter for bicycles and adults,
    after a reset. *)
Lemma contadores_claves_fijas_witness :
  ∃ st0, __init__ 300 480 0.5 30 (Some ["bicicleta"; "adulto"]) false true true
         = Some st0
         ∧ categorias (reiniciar_contadores st0) = ["bicicleta"; "adulto"].
Proof.
  destruct (__init__ 300 480 0.5 30 (Some ["bicicleta"; "adulto"])
              false true true) as [st0|] eqn:Hinit.
  - exists st0. split; [reflexivity|].
    exact (proj1 (contadores_claves_fijas 300 480 0.5 30
                    (Some ["bicicleta"; "adulto"]) false true true st0
                    (reiniciar_contadores st0) [OpReiniciarContadores]
                    Hinit eq_refl)).
  - vm_compute in Hinit. discriminate Hinit.
Defined.

(** * The detector *)

(** ** Substrings *)

Lemma prefix_spec (s t : string) :
  String.prefix s t = true ↔ ∃ b, t = String.append s b.
Proof.
  revert t. induction s as [|a s IH]; intros t.
  - split; [|by destruct t]. intros _. by exists t.
  - destruct t as [|b t]; simpl.
    + split; [done|]. intros [b' [= ]].
    + destruct (Ascii.ascii_dec a b) as [->|Hne].
      * rewrite IH. split.
        -- intros [b' ->]. by exists b'.
        -- intros [b' [= ->]]. by exists b'.
      * split; [done|]. intros [b' [= ? ?]]. done.
Qed.

Lemma es_subcadena_spec (s t : string) :
  es_subcadena s t = true ↔ ocurre_en s t.
Proof.
  unfold ocurre_en. induction t as [|c t IH]; cbn [es_subcadena].
  - rewrite orb_false_r, prefix_spec. split.
    + intros [b Hb]. by exists EmptyString, b.
    + intros (a & b & Hab). destruct a as [|a0 a]; [by exists b|].
      simpl in Hab. discriminate Hab.
  - rewrite orb_true_iff, IH, prefix_spec. split.
    + intros [[b Hb]|(a & b & ->)].
      * by exists EmptyString, b.
      * by exists (String c a), b.
    + intros (a & b & Hab). destruct a as [|a0 a].
      * left. by exists b.
      * right. simpl in Hab. injection Hab as -> ->. by exists a, b.
Qed.

Lemma es_subcadena_refl s : es_subcadena s s = true.
Proof.
  apply es_subcadena_spec. exists EmptyString, EmptyString.
  induction s as [|a s IH]; [done|].
  change (String a s
          = String a (String.append EmptyString
                        (String.append s EmptyString))).
  by rewrite <- IH.
Qed.

Lemma es_subcadena_vacia t : es_subcadena EmptyString t = true.
Proof. by destruct t. Qed.

(** ** The category of a class name *)

Lemma str_get_Some k d v : str_get k d = Some v → (k, v) ∈ d.
Proof.
  induction d as [|[k' v'] d IH]; simpl; [done|].
  case_decide as Hk.
  - intros [= ->]. subst. left.
  - intros H. right. by apply IH.
Qed.

Lemma coincidencia_parcial_Some nombre d cat :
  coincidencia_parcial nombre d = Some cat →
  ∃ clave, (clave, cat) ∈ d
           ∧ (es_subcadena clave nombre = true
              ∨ es_subcadena nombre clave = true).
Proof.
  induction d as [|[clave c] d IH]; simpl; [done|].
  destruct (es_subcadena clave nombre || es_subcadena nombre clave) eqn:Hm.
  - intros [= ->]. exists clave. split; [left|]. by apply orb_true_iff.
  - intros H. destruct (IH H) as (k & Hin & Hk). exists k. split; [by right|done].
Qed.

Lemma coincidencia_parcial_None nombre d :
  coincidencia_parcial nombre d = None ↔
  ∀ clave cat, (clave, cat) ∈ d →
               es_subcadena clave nombre = false
               ∧ es_subcadena nombre clave = false.
Proof.
  induction d as [|[clave c] d IH]; simpl.
  - split; [|done]. intros _ k v Hin. by apply elem_of_nil in Hin.
  - destruct (es_subcadena clave nombre || es_subcadena nombre clave) eqn:Hm.
    + split; [done|]. intros H. destruct (H clave c) as [H1 H2]; [left|].
      rewrite H1, H2 in Hm. done.
    + rewrite IH. apply orb_false_iff in Hm. split.
      * intros H k v [Heq|Hin]%elem_of_cons; [|by apply (H k v)].
        injection Heq as -> ->. done.
      * intros H k v Hin. apply (H k v). by right.
Qed.

Lemma mapear_categoria_Some tabla nombre cat :
  _mapear_categoria tabla nombre = Some cat →
  ∃ clave, (clave, cat) ∈ tabla
           ∧ (es_subcadena clave nombre = true
              ∨ es_subcadena nombre clave = true).
Proof.
  unfold _mapear_categoria.
  destruct (str_get nombre tabla) as [c|] eqn:Hget.
  - intros [= ->]. exists nombre. split; [by apply str_get_Some|].
    left. apply es_subcadena_refl.
  - apply coincidencia_parcial_Some.
Qed.

(** What [_mapear_categoria] answers.  A category it returns is the
    category of an entry of the table whose key occurs in the class
    name or in which the class name occurs; it returns [None] exactly
    when no key of the table is related to the class name in either
    way; a class name that is a key of the table gets the category of
    that key, whatever the entries before it; and the empty class name
    gets the category of the first entry of a non-empty table that has
    no empty key. *)
Theorem mapear_categoria_correcto (tabla : list (string * string))
    (nombre : string) :
  (∀ cat, _mapear_categoria tabla nombre = Some cat →
          ∃ clave, (clave, cat) ∈ tabla
                   ∧ (ocurre_en clave nombre ∨ ocurre_en nombre clave))
  ∧ (_mapear_categoria tabla nombre = None ↔
     ∀ clave cat, (clave, cat) ∈ tabla →
                  ¬ ocurre_en clave nombre ∧ ¬ ocurre_en nombre clave)
  ∧ (∀ cat, str_get nombre tabla = Some cat →
            _mapear_categoria tabla nombre = Some cat)
  ∧ (∀ clave cat resto,
       tabla = (clave, cat) :: resto →
       str_get EmptyString tabla = None →
       _mapear_categoria tabla EmptyString = Some cat).
Proof.
  split; [|split; [|split]].
  - intros cat H. destruct (mapear_categoria_Some _ _ _ H) as (k & Hin & Hk).
    exists k. split; [done|]. by rewrite <- !es_subcadena_spec.
  - unfold _mapear_categoria.
    destruct (str_get nombre tabla) as [c|] eqn:Hget.
    + split; [done|]. intros H.
      destruct (H nombre c (str_get_Some _ _ _ Hget)) as [H1 _].
      exfalso. apply H1. apply es_subcadena_spec, es_subcadena_refl.
    + rewrite coincidencia_parcial_None. split.
      * intros H k v Hin. destruct (H k v Hin) as [H1 H2].
        rewrite <- !es_subcadena_spec. rewrite H1, H2. done.
      * intros H k v Hin. destruct (H k v Hin) as [H1 H2].
        rewrite <- !es_subcadena_spec in H1, H2.
        split; by apply not_true_is_false.
  - intros cat H. unfold _mapear_categoria. by rewrite H.
  - intros clave cat resto -> Hget. unfold _mapear_categoria.
    rewrite Hget. simpl. rewrite es_subcadena_vacia. by rewrite orb_true_r.
Qed.

(** The COCO class "chair" occurs in the key "wheelchair": with the
    shipped table a chair is taken for a wheelchair.  A class that is
    related to no key is dropped. *)
Example mapear_categoria_chair :
  _mapear_categoria CLASE_A_CATEGORIA "chair" = Some "silla_ruedas"
  ∧ _mapear_categoria CLASE_A_CATEGORIA "person" = Some "adulto"
  ∧ _mapear_categoria CLASE_A_CATEGORIA "dog" = None
  ∧ _mapear_categoria CLASE_A_CATEGORIA "unknown" = None.
Proof. vm_compute. done. Qed.

(** ** The detections *)

Lemma procesar_caja_bien_formada lower self names c det :
  procesar_caja lower self names c = Some (Some det) →
  deteccion_bien_formada (clase_a_categoria self) det.
Proof.
  unfold procesar_caja. destruct (xyxy c) as [[[fx1 fy1] fx2] fy2].
  destruct (PyFloat.to_int fx1) as [x1|]; [|done].
  destruct (PyFloat.to_int fy1) as [y1|]; [|done].
  destruct (PyFloat.to_int fx2) as [x2|]; [|done].
  destruct (PyFloat.to_int fy2) as [y2|]; [|done].
  destruct (PyFloat.to_int (cls c)) as [clase_id|]; [|done].
  destruct (_mapear_categoria _ _) as [cat|] eqn:Hmap; [|done].
  intros [= <-]. unfold deteccion_bien_formada; simpl.
  destruct (mapear_categoria_Some _ _ _ Hmap) as (clave & Hin & _).
  split; [by exists clave|]. split; [done|].
  split; [done|]. split; [done|]. split; [done|].
  split; intros Hle;
    (split; [apply Z.div_le_lower_bound; lia|apply Z.div_le_upper_bound; lia]).
Qed.

Lemma procesar_cajas_efecto lower self names cajas :
  ∀ acc,
    Forall (deteccion_bien_formada (clase_a_categoria self)) acc →
    Forall (deteccion_bien_formada (clase_a_categoria self))
      (fst (procesar_cajas lower self names cajas acc))
    ∧ (length (fst (procesar_cajas lower self names cajas acc))
       <= length acc + length cajas)%nat.
Proof.
  induction cajas as [|c cajas IH]; intros acc Hacc; simpl.
  - split; [done|lia].
  - destruct (procesar_caja lower self names c) as [[det|]|] eqn:Hc; simpl.
    + destruct (IH (acc ++ [det])) as [Hf Hl].
      { apply Forall_app. split; [done|]. apply Forall_singleton.
        by eapply procesar_caja_bien_formada. }
      split; [done|]. rewrite length_app in Hl. simpl in Hl. lia.
    + destruct (IH acc Hacc) as [Hf Hl]. split; [done|lia].
    + split; [done|lia].
Qed.

Lemma procesar_resultados_efecto lower self names resultados :
  ∀ acc,
    Forall (deteccion_bien_formada (clase_a_categoria self)) acc →
    Forall (deteccion_bien_formada (clase_a_categoria self))
      (procesar_resultados lower self names resultados acc)
    ∧ (length (procesar_resultados lower self names resultados acc)
       <= length acc + numero_de_cajas resultados)%nat.
Proof.
  induction resultados as [|[cajas|] rs IH]; intros acc Hacc; simpl.
  - split; [done|lia].
  - destruct (procesar_cajas_efecto lower self names cajas acc Hacc)
      as [Hf Hl].
    destruct (procesar_cajas lower self names cajas acc) as [acc' sigue].
    simpl in Hf, Hl. destruct sigue.
    + destruct (IH acc' Hf) as [Hf' Hl']. split; [done|].
      unfold numero_de_cajas in *. simpl. lia.
    + split; [done|]. unfold numero_de_cajas. simpl. lia.
  - destruct (IH acc Hacc) as [Hf Hl]. split; [done|].
    unfold numero_de_cajas in *. simpl. lia.
Qed.

(** What [detectar] returns.  Whatever the inference yields -- also
    when it raises, or when a coordinate is NaN or infinite and the
    conversion raises midway -- every detection returned has a category
    of the table, carries no track id, and has as centre the integer
    midpoint of its box, inside the box when the corners are in order;
    there are at most as many detections as boxes; and a detector
    without a model returns none. *)
Theorem detectar_bien_formadas (lower : string → string)
    (self : DetectorYOLO)
    (inferencia : option (list (option (list Caja)))) :
  Forall (deteccion_bien_formada (clase_a_categoria self))
    (detectar lower self inferencia)
  ∧ (length (detectar lower self inferencia)
     <= numero_de_cajas (default [] inferencia))%nat
  ∧ detectar lower (liberar self) inferencia = [].
Proof.
  unfold detectar. split; [|split; [|done]].
  - destruct (model self) as [names|]; [|done].
    destruct inferencia as [rs|]; [|done].
    by apply procesar_resultados_efecto.
  - destruct (model self) as [names|]; [|simpl; lia].
    destruct inferencia as [rs|]; [|simpl; lia].
    destruct (procesar_resultados_efecto lower self names rs [])
      as [_ Hl]; [done|]. simpl in *. lia.
Qed.

(** ** The confidence threshold *)

(** The threshold stays in [0, 1].  Whatever float it is given,
    [actualizar_umbral_confianza] stores a threshold [u] with
    [0 <= u <= 1] -- a NaN becomes 1 -- and leaves the table and the
    model alone; setting the stored value again changes nothing. *)
Theorem umbral_confianza_acotado (self : DetectorYOLO) (nuevo : float) :
  let self' := actualizar_umbral_confianza self nuevo in
  let u := confidence_threshold self' in
  PrimFloat.leb 0 u = true
  ∧ PrimFloat.leb u 1 = true
  ∧ clase_a_categoria self' = clase_a_categoria self
  ∧ model self' = model self
  ∧ actualizar_umbral_confianza self' u = self'
  ∧ confidence_threshold (actualizar_umbral_confianza self nan) = 1%float.
Proof.
  intros self' u. subst self' u. unfold actualizar_umbral_confianza; simpl.
  unfold PyFloat.py_max, PyFloat.py_min.
  destruct (PrimFloat.ltb nuevo 1) eqn:H1.
  - destruct (PrimFloat.ltb 0 nuevo) eqn:H0.
    + rewrite H1, H0. repeat split; by apply float_ltb_leb.
    + repeat split.
  - repeat split.
Qed.

(** ** The shipped tables *)

Lemma CLASE_A_CATEGORIA_en_CATEGORIAS clave cat :
  (clave, cat) ∈ CLASE_A_CATEGORIA → cat ∈ CATEGORIAS_keys.
Proof.
  unfold CLASE_A_CATEGORIA, CATEGORIAS_keys. intros Hin.
  repeat (apply elem_of_cons in Hin as [Hin|Hin];
          [injection Hin as _ ->; set_solver|]).
  by apply elem_of_nil in Hin.
Qed.

(** With the shipped tables nothing the detector reports goes
    uncounted for want of a cell.  For a detector with the table
    [CLASE_A_CATEGORIA] and a counter built, as [main.py] does, with the
    categories of [CATEGORIAS]: in every state the counter reaches, the
    category of every detection the detector can return is a key of the
    counters. *)
Theorem categorias_del_detector_contadas (lower : string → string)
    (self : DetectorYOLO) (inferencia : option (list (option (list Caja))))
    (w h : Z) (rel : float) (margen : Z) (ds cb ok : bool)
    (st0 st : BidirectionalCounter) (ops : list Operacion)
    (det : Deteccion) :
  clase_a_categoria self = CLASE_A_CATEGORIA →
  __init__ w h rel margen (Some CATEGORIAS_keys) ds cb ok = Some st0 →
  ejecutar_todas ops st0 = Some st →
  det ∈ detectar lower self inferencia →
  is_Some (contadores st !! det_categoria det).
Proof.
  intros Htabla Hinit Hops Hdet.
  destruct (claves_fijas_run _ _ _ _ _ _ _ _ _ _ _ Hinit Hops) as [Hc Hk].
  apply Hk. rewrite Hc. simpl.
  assert (Hwf : Forall (deteccion_bien_formada (clase_a_categoria self))
                  (detectar lower self inferencia)).
  { unfold detectar. destruct (model self) as [names|]; [|done].
    destruct inferencia as [rs|]; [|done].
    by apply procesar_resultados_efecto. }
  rewrite Forall_forall in Hwf.
  destruct (Hwf det Hdet) as [[clave Hin] _]. rewrite Htabla in Hin.
  by eapply CLASE_A_CATEGORIA_en_CATEGORIAS.
Qed.

Example detectar_ej :
  detectar (fun s => s) detector_ej (Some [Some [caja_ej]])
  = [{| bbox := (90, 30, 110, 70);
        det_categoria := "adulto";
        confianza := 0.8;
        clase_original := Some "person";
        centro := (100, 50);
        det_track_id := None;
        ancho := 20;
        alto := 40 |}].
Proof. vm_compute. reflexivity. Qed.

(** [categorias_del_detector_contadas] at the detection of one person
    and the counter of [main.py] after a reset. *)
Lemma categorias_del_detector_contadas_witness :
  ∃ st0, __init__ 640 480 0.5 30 (Some CATEGORIAS_keys) true true false
         = Some st0
         ∧ is_Some (contadores (reiniciar_contadores st0) !! "adulto").
Proof.
  destruct (__init__ 640 480 0.5 30 (Some CATEGORIAS_keys) true true false)
    as [st0|] eqn:Hinit.
  - exists st0. split; [reflexivity|].
    refine (categorias_del_detector_contadas (fun s => s) detector_ej
              (Some [Some [caja_ej]]) 640 480 0.5 30 true true false st0
              (reiniciar_contadores st0) [OpReiniciarContadores]
              {| bbox := (90, 30, 110, 70);
                 det_categoria := "adulto";
                 confianza := 0.8;
                 clase_original := Some "person";
                 centro := (100, 50);
                 det_track_id := None;
                 ancho := 20;
                 alto := 40 |} eq_refl Hinit eq_refl _).
    rewrite detectar_ej. apply list_elem_of_singleton. reflexivity.
  - vm_compute in Hinit. discriminate Hinit.
Defined.

(** * The logged rows *)

(** The row of a crossing carries the totals that include it.  When a
    crossing of a track with a configured category is registered, the
    callback of [main.py] runs on the counters already incremented: the
    row it logs has direction 0 for left-to-right and 1 for
    right-to-left, a category total one above the two counts of the
    cell before the crossing, a session total one above the total
    before the crossing, and direction totals that add up to the
    session total. *)
Theorem fila_de_cruce (basename : string → string)
    (fecha_ahora hora_ahora : string) (data_logger : DataLogger)
    (st : BidirectionalCounter) (tid : Z) (t : TrackInfo) (c : Celda)
    (d : Direccion) :
  dict_get tid (tracks st) = Some t →
  contadores st !! categoria t = Some c →
  d ≠ NINGUNA →
  let fila := fst (_on_cruce_detectado basename fecha_ahora hora_ahora
                     (_registrar_cruce st tid d) data_logger
                     (categoria t) d tid) in
  direccion fila = match d with IZQUIERDA_A_DERECHA => 0 | _ => 1 end
  ∧ total_tipo fila = izq_der c + der_izq c + 1
  ∧ total_dir0 fila
    = total_izq_der (obtener_total_cruces st)
      + match d with IZQUIERDA_A_DERECHA => 1 | _ => 0 end
  ∧ total_dir1 fila
    = total_der_izq (obtener_total_cruces st)
      + match d with IZQUIERDA_A_DERECHA => 0 | _ => 1 end
  ∧ total_sesion fila = total (obtener_total_cruces st) + 1
  ∧ total_sesion fila = total_dir0 fila + total_dir1 fila.
Proof.
  intros Hget Hcat Hd fila. subst fila.
  unfold _on_cruce_detectado, registrar_cruce_registro, obtener_contadores.
  cbn [fst direccion total_tipo total_dir0 total_dir1 total_sesion].
  rewrite (registrar_cruce_contadores _ _ _ _ Hget), Hcat.
  rewrite lookup_insert_eq, !(suma_insert _ _ _ _ _ Hcat).
  unfold obtener_total_cruces. cbn [total_izq_der total_der_izq total default].
  destruct d; try done; simpl; repeat split; lia.
Qed.

(** [fila_de_cruce] at the first crossing of the counter of the
    examples, an adult going left to right. *)
Lemma fila_de_cruce_witness :
  total_sesion
    (fst (_on_cruce_detectado (fun s => s) "2026-01-30" "12:00:00"
            (_registrar_cruce (con_tracks estado_ej [(1, track_izq_der)])
               1 IZQUIERDA_A_DERECHA)
            {| ubicacion_nombre := "Calle Mayor";
               latitude := None;
               longitude := None;
               carpeta_dia := None |}
            "adulto" IZQUIERDA_A_DERECHA 1))
  = total (obtener_total_cruces (con_tracks estado_ej [(1, track_izq_der)])) + 1.
Proof.
  refine (proj1 (proj2 (proj2 (proj2 (proj2
            (fila_de_cruce (fun s => s) "2026-01-30" "12:00:00"
               {| ubicacion_nombre := "Calle Mayor";
                  latitude := None;
                  longitude := None;
                  carpeta_dia := None |}
               (con_tracks estado_ej [(1, track_izq_der)]) 1 track_izq_der
               celda_cero IZQUIERDA_A_DERECHA eq_refl eq_refl _)))))).
  discriminate.
Defined.
